(** * Job queue and background processor of the forex analyst bot

    A shallow embedding of the per-user FIFO job queue (the [analysis_jobs]
    table and the functions of the "JOB QUEUE (D1)" part of [src/worker.js],
    exported as [queue.js]), of the duration estimator, and of the job
    processors of the repository:

    - [WorkerJs]: the image branch of [handleEvent], with its foreground
      fast path, and [handleInternalAnalyze] of [src/worker.js];
    - [HandlersJs]: [handleInternalAnalyze] and
      [performAnalysisInBackground] of [src/handlers.js].

    Conventions of the embedding.
    - The D1 table is a list of rows in rowid (insertion) order; [job_id] is
      its primary key.  Every SQL statement is a total function on the table:
      I/O failures of the store are represented only where a function catches
      them itself ([estimateSecondsPerImage]).
    - Invocations run one after the other: the work handed to
      [ctx.waitUntil] is run to its end before the next invocation starts.
    - [Date.now()] is an explicit argument of every function that reads the
      clock, one argument per call site that matters.
    - [SELECT ... ORDER BY created_at ASC LIMIT 1] returns the first row, in
      rowid order, among those with the least [created_at]; this is the order
      of the index [idx_analysis_jobs_user_status_created], whose entries are
      sorted by (user_id, status, created_at, rowid).
    - The download of the image, the generative analysis call and the image
      cache are oracles: their outcomes are arguments.
    - Strings are sequences of bytes.  [String.prototype.trim] and
      [toUpperCase] are embedded for ASCII text, which timeframe labels are;
      the statements about [normalizeTF] carry that as a hypothesis.
    - The numbers of the estimator are IEEE 754 doubles, with the operations
      of [SpecFloat]; the duration formatter is stated on exact rationals. *)

From Stdlib Require Import ZArith List String Ascii Bool Lia.
From Stdlib Require Import Sorted Permutation.
From Stdlib Require Import QArith Qminmax Qround DecimalString DecimalZ.
From Stdlib Require Import Floats.SpecFloat.
Import ListNotations.

Local Open Scope Z_scope.
Local Open Scope string_scope.

(** ** JavaScript helpers *)

(** [s.slice(-n)]: the last [n] characters, the whole string when shorter. *)
Definition slice_last (n : nat) (s : string) : string :=
  substring (String.length s - n) n s.

(** [s.slice(0, n)]. *)
Definition slice_first (n : nat) (s : string) : string :=
  substring 0 n s.

(** [hay.includes(needle)]. *)
Fixpoint includes (needle hay : string) : bool :=
  match hay with
  | EmptyString => prefix needle hay
  | String _ rest => prefix needle hay || includes needle rest
  end.

(** Decimal rendering of a number inside a template literal. *)
Definition decimal (z : Z) : string := NilEmpty.string_of_int (Z.to_int z).

(** JavaScript truthiness of a string. *)
Definition truthy (s : string) : bool := negb (s =? "").

(** ** The [analysis_jobs] table *)

Inductive Status : Set := queued | processing | done | error.

Definition status_eqb (a b : Status) : bool :=
  match a, b with
  | queued, queued | processing, processing | done, done | error, error => true
  | _, _ => false
  end.

Record Job : Set := mkJob {
  job_id : string;
  user_id : string;
  message_id : string;
  created_at : Z;
  status : Status;
  attempt : Z;
  started_at : option Z;
  finished_at : option Z;
  result_tf : option string;
  last_error : option string
}.

Definition DB := list Job.

(** [UPDATE analysis_jobs SET ... WHERE cond]: the new table and the number
    of rows changed ([meta.changes]). *)
Definition sql_update (cond : Job -> bool) (set : Job -> Job) (db : DB) : DB :=
  map (fun r => if cond r then set r else r) db.

Definition sql_changes (cond : Job -> bool) (db : DB) : nat :=
  List.length (filter cond db).

(** [SELECT COUNT( * ) ... WHERE user_id = ? AND status = ?]. *)
Definition count_status (userId : string) (st : Status) (db : DB) : nat :=
  List.length (filter (fun r => (user_id r =? userId) && status_eqb (status r) st) db).

(** [SELECT ... WHERE job_id = ?], first row. *)
Definition find_job (jobId : string) (db : DB) : option Job :=
  find (fun r => job_id r =? jobId) db.

(** ** Configuration and numbers *)

(** The numbers of the duration formatter: an exact rational or [NaN]. *)
Inductive jsnum : Set := Num (q : Q) | NaN.

(** The numbers of the estimator are IEEE 754 doubles: the binary64 instance
    (53 bits of precision, exponents below 1024) of [spec_float], with its
    operations, which round to nearest, ties to even. *)
Definition double : Set := spec_float.

(** [Number(z)] for an integer of the table or of the source text. *)
Definition of_int (z : Z) : double := binary_normalize 53 1024 z 0 false.








(** The variables of [env] that the queue and the processors read.  A field
    is [None] when the variable is unset or empty, so that the default of the
    source's [env.X || default] applies; otherwise it holds [Number(env.X)]
    (an integer for the retry cap). *)
Record Env : Set := mkEnv {
  EST_SECONDS_PER_IMAGE : option double;
  INTERNAL_MAX_RETRY : option Z;
  INTERNAL_TASK_TOKEN : option string
}.


Module Queue.

(** [makeJobId], with the value of [Date.now()] as [now]. *)
Definition makeJobId (userId messageId : string) (now : Z) : string :=
  decimal now ++ "_" ++ slice_last 6 userId ++ "_" ++ messageId.

(** [enqueueAnalysisJob]: [nowId] is the clock read inside [makeJobId],
    [now] the one read for [createdAt].  [INSERT OR IGNORE] leaves the table
    as it is when the primary key is already there. *)
Definition enqueueAnalysisJob (userId messageId : string) (nowId now : Z) (db : DB)
  : (string * Z) * DB :=
  let jobId := makeJobId userId messageId nowId in
  let createdAt := now in
  let db' :=
    match find_job jobId db with
    | Some _ => db
    | None => (db ++ [mkJob jobId userId messageId createdAt queued 0 None None None None])%list
    end in
  ((jobId, createdAt), db').

Record QueueStats : Set := mkStats { queued_count : nat; processing_count : nat }.

Definition getUserQueueStats (userId : string) (db : DB) : QueueStats :=
  mkStats (count_status userId queued db) (count_status userId processing db).

(** [ORDER BY created_at ASC LIMIT 1] over the rows given in rowid order. *)
Fixpoint oldest (rows : list Job) : option Job :=
  match rows with
  | [] => None
  | r :: rest =>
      match oldest rest with
      | None => Some r
      | Some m => if (created_at r <=? created_at m)%Z then Some r else Some m
      end
  end.

Definition queued_of (userId : string) (db : DB) : list Job :=
  filter (fun r => (user_id r =? userId) && status_eqb (status r) queued) db.

(** What [claimNextQueuedJob] returns for a claimed job. *)
Record Claimed : Set := mkClaimed {
  c_job_id : string;
  c_message_id : string;
  c_created_at : Z;
  c_attempt : Z;
  c_started_at : Z
}.

Definition claim_cond (jobId : string) (r : Job) : bool :=
  (job_id r =? jobId) && status_eqb (status r) queued.

Definition claim_set (startedAt : Z) (r : Job) : Job :=
  mkJob (job_id r) (user_id r) (message_id r) (created_at r)
        processing (attempt r) (Some startedAt) (finished_at r) (result_tf r) None.

(** [claimNextQueuedJob], with [Date.now()] as [now]. *)
Definition claimNextQueuedJob (userId : string) (now : Z) (db : DB)
  : option Claimed * DB :=
  if (0 <? count_status userId processing db)%nat then (None, db)
  else
    match oldest (queued_of userId db) with
    | None => (None, db)
    | Some next =>
        if negb (truthy (job_id next)) then (None, db)
        else
          let startedAt := now in
          let db' := sql_update (claim_cond (job_id next)) (claim_set startedAt) db in
          if (sql_changes (claim_cond (job_id next)) db =? 0)%nat then (None, db')
          else (Some (mkClaimed (job_id next) (message_id next) (created_at next)
                                (attempt next) startedAt), db')
    end.

Definition requeue_set (att : Z) (lastError : string) (r : Job) : Job :=
  mkJob (job_id r) (user_id r) (message_id r) (created_at r)
        queued att None (finished_at r) (result_tf r)
        (if truthy lastError then Some (slice_first 800 lastError) else None).

(** [requeueJob]: the update has no condition on the current status. *)
Definition requeueJob (jobId : string) (att : Z) (lastError : string) (db : DB) : DB :=
  sql_update (fun r => job_id r =? jobId) (requeue_set att lastError) db.

(** Order of [ORDER BY finished_at DESC]: NULL sorts after every number. *)
Definition finished_geb (a b : Job) : bool :=
  match finished_at a, finished_at b with
  | _, None => true
  | None, Some _ => false
  | Some x, Some y => (y <=? x)%Z
  end.

Fixpoint insert_desc (r : Job) (rows : list Job) : list Job :=
  match rows with
  | [] => [r]
  | x :: rest => if finished_geb r x then r :: rows else x :: insert_desc r rest
  end.

Fixpoint sort_desc (rows : list Job) : list Job :=
  match rows with
  | [] => []
  | r :: rest => insert_desc r (sort_desc rest)
  end.

Definition done_of (userId : string) (db : DB) : list Job :=
  filter (fun r => (user_id r =? userId) && status_eqb (status r) done) db.

Definition mem_string (s : string) (l : list string) : bool :=
  existsb (fun x => x =? s) l.

(** [Math.max(1, Math.floor(Number(keepCount || 5)))] on a natural number. *)
Definition keep_of (keepCount : nat) : nat :=
  Nat.max 1 (if (keepCount =? 0)%nat then 5 else keepCount).

(** [pruneDoneJobHistory]: delete the user's [done] rows that are not among
    the [keep] first by [finished_at DESC]. *)
Definition pruneDoneJobHistory (userId : string) (keepCount : nat) (db : DB) : DB :=
  let keep := keep_of keepCount in
  let kept := map job_id (firstn keep (sort_desc (done_of userId db))) in
  filter (fun r => negb ((user_id r =? userId) && status_eqb (status r) done
                         && negb (mem_string (job_id r) kept))) db.

Definition done_set (finishedAt : Z) (resultTF : string) (r : Job) : Job :=
  mkJob (job_id r) (user_id r) (message_id r) (created_at r)
        done (attempt r) (started_at r) (Some finishedAt)
        (if truthy resultTF then Some resultTF else None) (last_error r).

(** The [UPDATE] of [markJobDone]. *)
Definition markJobDone_update (jobId : string) (resultTF : string) (now : Z) (db : DB) : DB :=
  sql_update (fun r => job_id r =? jobId) (done_set now resultTF) db.

(** [markJobDone]: the update, then the pruning of the owner's history. *)
Definition markJobDone (jobId : string) (resultTF : string) (now : Z) (db : DB) : DB :=
  let db1 := markJobDone_update jobId resultTF now db in
  match find_job jobId db1 with
  | Some row => if truthy (user_id row) then pruneDoneJobHistory (user_id row) 5 db1 else db1
  | None => db1
  end.

Definition error_set (finishedAt : Z) (errMsg : string) (r : Job) : Job :=
  mkJob (job_id r) (user_id r) (message_id r) (created_at r)
        error (attempt r) (started_at r) (Some finishedAt)
        (result_tf r) (Some (slice_first 800 errMsg)).

(** [markJobError]. *)
Definition markJobError (jobId : string) (errMsg : string) (now : Z) (db : DB) : DB :=
  sql_update (fun r => job_id r =? jobId) (error_set now errMsg) db.

Definition hasQueuedJobs (userId : string) (db : DB) : bool :=
  (0 <? count_status userId queued db)%nat.

(** The operations of the job store, and a sequence of them run in order. *)
Inductive Op : Set :=
| Enqueue (userId messageId : string) (nowId now : Z)
| ClaimNext (userId : string) (now : Z)
| Requeue (jobId : string) (att : Z) (lastError : string)
| MarkDone (jobId : string) (resultTF : string) (now : Z)
| MarkError (jobId : string) (errMsg : string) (now : Z).

Definition step (db : DB) (o : Op) : DB :=
  match o with
  | Enqueue u m t1 t2 => snd (enqueueAnalysisJob u m t1 t2 db)
  | ClaimNext u t => snd (claimNextQueuedJob u t db)
  | Requeue j a e => requeueJob j a e db
  | MarkDone j tf t => markJobDone j tf t db
  | MarkError j e t => markJobError j e t db
  end.

Definition run (ops : list Op) (db : DB) : DB := fold_left step ops db.

(** Draining a user's queue by claim + [markJobDone] cycles, one cycle per
    element of [cycles] (clock at the claim, clock at completion, resulting
    timeframe); the ids are returned in the order in which they were claimed.
    Draining stops at the first claim that returns nothing. *)
Fixpoint drain (userId : string) (cycles : list (Z * Z * string)) (db : DB)
  : list string * DB :=
  match cycles with
  | [] => ([], db)
  | (tClaim, tDone, tf) :: rest =>
      match claimNextQueuedJob userId tClaim db with
      | (Some c, db1) =>
          let db2 := markJobDone (c_job_id c) tf tDone db1 in
          let '(ids, db3) := drain userId rest db2 in
          (c_job_id c :: ids, db3)
      | (None, db1) => ([], db1)
      end
  end.

(** *** The duration estimator *)








End Queue.

Import Queue.

(** ** Analysis results and the result store *)

(** A JSON object with string values, in key order. *)
Definition Obj := list (string * string).

(** [{ ...o, k: v }]. *)
Fixpoint obj_set (k v : string) (o : Obj) : Obj :=
  match o with
  | [] => [(k, v)]
  | (k', v') :: rest =>
      if k' =? k then (k, v) :: rest else (k', v') :: obj_set k v rest
  end.

Fixpoint obj_get (k : string) (o : Obj) : option string :=
  match o with
  | [] => None
  | (k', v') :: rest => if k' =? k then Some v' else obj_get k rest
  end.

(** The field [request_update_for_tf] of an analysis result: absent or null,
    an array of timeframes, or (off schema) a plain string. *)
Inductive TfRequest : Set :=
| NoRequest
| RequestList (tfs : list string)
| RequestText (s : string).

(** [x || null]. *)
Definition or_null (x : TfRequest) : TfRequest :=
  match x with
  | RequestText s => if truthy s then x else NoRequest
  | _ => x
  end.

(** [Array.isArray(x) && x.length > 0]. *)
Definition nonempty_array (x : TfRequest) : bool :=
  match x with
  | RequestList (_ :: _) => true
  | _ => false
  end.

(** [x && x.length > 0]. *)
Definition nonempty_value (x : TfRequest) : bool :=
  match x with
  | RequestList (_ :: _) => true
  | RequestText s => truthy s
  | _ => false
  end.

(** What the generative analysis returns, as far as the processors read it.
    An absent field is [None]; [detected_tf] is empty when absent. *)
Record AnalysisResult : Set := mkResult {
  detected_tf : string;
  request_update_for_tf : TfRequest;
  reasoning_trace : option (list string);
  detailed_trade_setup : option Obj;
  detailed_setup : option Obj;
  detailed_reasoning_trace : option (list string);
  user_response_text : string
}.

(** The object [toStore] written to the result store; the fields that the
    processors copy without reading them are left out. *)
Record StoredAnalysis : Set := mkStored {
  st_detected_tf : string;
  st_request_update_for_tf : TfRequest;
  st_trade_setup : Obj;
  st_reasoning_trace : list string
}.

(** The [_JOB] marker row. *)
Record JobMarker : Set := mkMarker {
  mk_status : string;
  mk_jobId : option string;
  mk_attempt : option Z;
  mk_queued : option nat
}.

Inductive Stored : Set :=
| Marker (m : JobMarker)
| Analysis (a : StoredAnalysis).

(** A row of [user_analysis_logs], primary key (user_id, tf). *)
Record AnalysisRow : Set := mkRow {
  a_user_id : string;
  a_tf : string;
  a_timestamp : Z;
  a_json : Stored
}.

Definition Logs := list AnalysisRow.

Definition same_key (userId tf : string) (r : AnalysisRow) : bool :=
  (a_user_id r =? userId) && (a_tf r =? tf).

(** [saveAnalysis]: insert, or update the row of the same key in place. *)
Definition saveAnalysis (userId tf : string) (timestamp : Z) (data : Stored)
           (logs : Logs) : Logs :=
  if existsb (same_key userId tf) logs
  then map (fun r => if same_key userId tf r
                     then mkRow userId tf timestamp data else r) logs
  else (logs ++ [mkRow userId tf timestamp data])%list.

(** Rows in the order of the primary key index: by [tf], in byte order. *)
Fixpoint insert_tf (r : AnalysisRow) (rows : Logs) : Logs :=
  match rows with
  | [] => [r]
  | x :: rest =>
      if String.leb (a_tf r) (a_tf x) then r :: rows else x :: insert_tf r rest
  end.

Fixpoint sort_tf (rows : Logs) : Logs :=
  match rows with
  | [] => []
  | r :: rest => insert_tf r (sort_tf rest)
  end.

(** [getAllAnalyses]: [SELECT * ... WHERE user_id = ?] has no [ORDER BY];
    D1 answers it from the index of the primary key (user_id, tf), so the
    rows of the user come back sorted by [tf]. *)
Definition getAllAnalyses (userId : string) (logs : Logs) : Logs :=
  sort_tf (filter (fun r => a_user_id r =? userId) logs).

(** The white space that [String.prototype.trim] removes, and the letters
    that [String.prototype.toUpperCase] changes, among the characters below
    128.  Timeframe labels are ASCII; for other characters the two methods
    do more than [is_space] and [upper] say, and the statements about
    [normalizeTF] are made for ASCII strings ([ascii_only]). *)
Definition is_space (c : ascii) : bool :=
  let n := nat_of_ascii c in
  ((9 <=? n) && (n <=? 13))%nat || (n =? 32)%nat.

Fixpoint trim_left (s : string) : string :=
  match s with
  | String c rest => if is_space c then trim_left rest else s
  | EmptyString => EmptyString
  end.

Fixpoint trim_right (s : string) : string :=
  match s with
  | String c rest =>
      let rest' := trim_right rest in
      if is_space c && (rest' =? "") then "" else String c rest'
  | EmptyString => EmptyString
  end.

Definition upper (c : ascii) : ascii :=
  let n := nat_of_ascii c in
  if ((97 <=? n) && (n <=? 122))%nat then ascii_of_nat (n - 32) else c.

Fixpoint toUpperCase (s : string) : string :=
  match s with
  | String c rest => String (upper c) (toUpperCase rest)
  | EmptyString => EmptyString
  end.

(** [normalizeTF] of [src/worker.js] ([null] is [None]). *)
Definition normalizeTF (tf : string) : option string :=
  if negb (truthy tf) then None
  else
    let t := toUpperCase (trim_right (trim_left tf)) in
    if t =? "D1" then Some "1D"
    else if t =? "DAY" then Some "1D"
    else if t =? "WEEK" then Some "1W"
    else if t =? "HOUR" then Some "H1"
    else Some t.

(** [a || b] on strings. *)
Definition str_or (a b : string) : string := if truthy a then a else b.

(** [a || b] on optional fields. *)
Definition opt_or {A : Type} (a b : option A) : option A :=
  match a with Some _ => a | None => b end.

Definition opt_default {A : Type} (a : option A) (d : A) : A :=
  match a with Some x => x | None => d end.

(** [normalizeTF(analysisResult?.detected_tf || "Unknown_TF")]. *)
Definition detectedTF_of (a : AnalysisResult) : string :=
  opt_default (normalizeTF (str_or (detected_tf a) "Unknown_TF")) "".

Definition wait_trace (tfs : list string) : string :=
  "Decision: WAIT (ต้องการภาพ TF เพิ่มเติม: " ++ String.concat ", " tfs ++ ")".

(** The object [toStore], with the override applied when the result asks for
    fresher timeframes: [action: 'WAIT', confidence: 'Low'] and one more
    entry in the reasoning trace. *)
Definition build_toStore (a : AnalysisResult) : StoredAnalysis :=
  let toStore :=
    mkStored (detectedTF_of a)
             (or_null (request_update_for_tf a))
             (opt_default (opt_or (detailed_trade_setup a) (detailed_setup a)) [])
             (opt_default (opt_or (reasoning_trace a) (detailed_reasoning_trace a)) []) in
  match request_update_for_tf a with
  | RequestList (tf :: tfs) =>
      mkStored (st_detected_tf toStore)
               (st_request_update_for_tf toStore)
               (obj_set "confidence" "Low" (obj_set "action" "WAIT" (st_trade_setup toStore)))
               (st_reasoning_trace toStore ++ [wait_trace (tf :: tfs)])%list
  | _ => toStore
  end.

(** [createFallbackAnalysis(userId, 'Unknown', existingContext)] of
    [src/ai.js]; the context is the parsed [analysis_json] of a stored row. *)
Definition createFallbackAnalysis (existingContext : option Stored) : AnalysisResult :=
  match existingContext with
  | Some ctx =>
      let req := match ctx with
                 | Analysis a => or_null (st_request_update_for_tf a)
                 | Marker _ => NoRequest
                 end in
      let setup := match ctx with
                   | Analysis a => st_trade_setup a
                   | Marker _ => [("action", "WAIT"); ("confidence", "Low"); ("risk_flags", "[]")]
                   end in
      mkResult "Unknown" req
               (Some ["Timeout: Using cached analysis from previous successful analysis."])
               (Some setup) None None ""
  | None =>
      mkResult "Unknown" NoRequest
               (Some ["Timeout: Using cached/fallback analysis. Please re-upload for full analysis."])
               (Some [("action", "WAIT"); ("confidence", "Low");
                      ("risk_flags", "[Timeout - Incomplete Analysis]")])
               None None ""
  end.

(** ** The processors *)

(** The two tables of the D1 database. *)
Record State : Set := mkState { jobs : DB; logs : Logs }.

(** A thrown JavaScript error. *)
Record JsError : Set := mkError { name : string; message : string }.

(** [String(err?.message || err)]. *)
Definition error_text (e : JsError) : string :=
  if truthy (message e) then message e else name e.

Inductive Outcome : Set :=
| Success (a : AnalysisResult)
| Failure (e : JsError).

(** What one invocation of a processor gets from outside: clock readings,
    the download of the image ([None] when it succeeds), the analysis call
    raced against its deadline, and, for [src/handlers.js], whether
    [getImageFromKV] finds the image of the job (it returns [null] on a miss
    and on any error of the cache) and the analysis call of the recovery
    pass. *)
Record Invocation : Set := mkInvocation {
  now_start : Z;
  now_end : Z;
  getContentFromLine : option JsError;
  analysis : Outcome;
  cached_image : bool;
  recovery : Outcome
}.

Definition is_timeout (e : JsError) : bool :=
  (name e =? "TimeoutError") || (name e =? "AbortError").

Definition status_retryable (msg : string) : bool :=
  includes "429" msg || includes "503" msg || includes "500" msg.

(** [Math.max(1, Number(env.INTERNAL_MAX_RETRY || 3))]. *)
Definition maxAttempts_of (env : Env) : Z :=
  Z.max 1 (opt_default (INTERNAL_MAX_RETRY env) 3).

Definition job_marker (st : string) (jobId : string) (att : option Z) (q : option nat)
  : Stored :=
  Marker (mkMarker st (Some jobId) att q).

(** The marker written when there is nothing to claim. *)
Definition idle_marker (userId : string) (now : Z) (s : State) : State :=
  let stats := getUserQueueStats userId (jobs s) in
  mkState (jobs s)
          (saveAnalysis userId "_JOB" now
             (Marker (mkMarker (if (0 <? processing_count stats)%nat then "busy" else "idle")
                               None None (Some (queued_count stats))))
             (logs s)).

(** "Normalize + store": the block shared, word for word, by the three
    background processors.  Returns the new state and whether the next
    invocation was triggered. *)
Definition store_and_complete (userId : string) (job : Claimed) (a : AnalysisResult)
           (now : Z) (s : State) : State * bool :=
  let detectedTF := detectedTF_of a in
  let toStore := build_toStore a in
  let logs1 := saveAnalysis userId detectedTF now (Analysis toStore) (logs s) in
  let jobs1 := markJobDone (c_job_id job) detectedTF now (jobs s) in
  let stats := getUserQueueStats userId jobs1 in
  let logs2 := saveAnalysis userId "_JOB" now
                 (job_marker "done" (c_job_id job) None (Some (queued_count stats))) logs1 in
  (mkState jobs1 logs2, (0 <? queued_count stats)%nat).

(** [markJobError] with its marker, then the chain continues if something is
    queued. *)
Definition fail_job (userId : string) (job : Claimed) (att : option Z) (msg : string)
           (now : Z) (s : State) : State * bool :=
  let jobs1 := markJobError (c_job_id job) msg now (jobs s) in
  let logs1 := saveAnalysis userId "_JOB" now
                 (job_marker "error" (c_job_id job) att None) (logs s) in
  (mkState jobs1 logs1, hasQueuedJobs userId jobs1).

(** [requeueJob] with its marker; the next invocation is always triggered. *)
Definition retry_job (userId : string) (job : Claimed) (nextAttempt : Z) (msg : string)
           (now : Z) (s : State) : State * bool :=
  let jobs1 := requeueJob (c_job_id job) nextAttempt msg (jobs s) in
  let logs1 := saveAnalysis userId "_JOB" now
                 (job_marker "retrying" (c_job_id job) (Some nextAttempt) None) (logs s) in
  (mkState jobs1 logs1, true).

(** An incoming request of the internal endpoint. *)
Record Request : Set := mkRequest {
  token : option string;
  body_userId : option string
}.

Definition authorized (env : Env) (req : Request) : bool :=
  match INTERNAL_TASK_TOKEN env with
  | None => true
  | Some secret =>
      match token req with
      | Some t => truthy t && (t =? secret)
      | None => false
      end
  end.

Module WorkerJs.

(** The work that [handleInternalAnalyze] of [src/worker.js] hands to
    [ctx.waitUntil], run to its end. *)
Definition background (env : Env) (userId : string) (job : Claimed) (inv : Invocation)
           (s : State) : State * bool :=
  let maxAttempts := maxAttempts_of env in
  let attempt := c_attempt job in
  match getContentFromLine inv with
  | Some e => fail_job userId job None (error_text e) (now_end inv) s
  | None =>
      match analysis inv with
      | Failure err =>
          let msg := error_text err in
          let retryable := is_timeout err || status_retryable msg in
          let nextAttempt := (attempt + 1)%Z in
          if retryable && (nextAttempt <=? maxAttempts)%Z
          then retry_job userId job nextAttempt msg (now_end inv) s
          else fail_job userId job (Some nextAttempt) msg (now_end inv) s
      | Success a => store_and_complete userId job a (now_end inv) s
      end
  end.

(** [handleInternalAnalyze] of [src/worker.js]: HTTP status, new state, and
    whether the endpoint was triggered again. *)
Definition handleInternalAnalyze (env : Env) (req : Request) (inv : Invocation) (s : State)
  : nat * State * bool :=
  if negb (authorized env req) then (401%nat, s, false)
  else
    match body_userId req with
    | None => (400%nat, s, false)
    | Some userId =>
        if negb (truthy userId) then (400%nat, s, false)
        else
          match claimNextQueuedJob userId (now_start inv) (jobs s) with
          | (None, jobs1) =>
              (200%nat, idle_marker userId (now_start inv) (mkState jobs1 (logs s)), false)
          | (Some job, jobs1) =>
              let stats := getUserQueueStats userId jobs1 in
              let logs1 := saveAnalysis userId "_JOB" (c_started_at job)
                             (job_marker "processing" (c_job_id job) (Some (c_attempt job))
                                         (Some (queued_count stats))) (logs s) in
              let '(s', again) := background env userId job inv (mkState jobs1 logs1) in
              (202%nat, s', again)
          end
    end.

(** The chain of self-invocations: one invocation per element of [invs],
    as long as each one triggers the next. *)
Fixpoint chain (env : Env) (req : Request) (invs : list Invocation) (s : State) : State :=
  match invs with
  | [] => s
  | inv :: rest =>
      let '(_, s', again) := handleInternalAnalyze env req inv s in
      if again then chain env req rest s' else s'
  end.

(** What the image branch of [handleEvent] replies. *)
Inductive Reply : Set :=
| QueueAck
| StaleDataWarning
| AnalysisText
| SystemError.

(** The image branch of [handleEvent] in [src/worker.js]: enqueue, then the
    foreground fast path when the job is alone.  [nowId] and [now] are the
    clock readings of the enqueue. *)
Definition handleEvent_image (userId messageId : string) (nowId now : Z)
           (inv : Invocation) (s : State) : Reply * State * bool :=
  let '((jobId, createdAt), jobs1) := enqueueAnalysisJob userId messageId nowId now (jobs s) in
  let qStats := getUserQueueStats userId jobs1 in
  let canFastPath :=
    (processing_count qStats =? 0)%nat && (queued_count qStats =? 1)%nat in
  if negb canFastPath then (QueueAck, mkState jobs1 (logs s), true)
  else
    let jobs2 :=
      sql_update (claim_cond jobId)
        (fun r => mkJob (job_id r) (user_id r) (message_id r) (created_at r) processing
                        (attempt r) (Some (now_start inv)) (finished_at r) (result_tf r)
                        (last_error r))
        jobs1 in
    match getContentFromLine inv with
    | Some _ => (SystemError, mkState jobs2 (logs s), false)
    | None =>
        match analysis inv with
        | Failure _ =>
            (QueueAck,
             mkState (requeueJob jobId 1 "Foreground timeout -> background" jobs2) (logs s),
             true)
        | Success a =>
            if nonempty_value (request_update_for_tf a)
            then
              (* the reply is followed by [return]; the [markJobDone] written
                 after it is never reached *)
              (StaleDataWarning, mkState jobs2 (logs s), false)
            else
              let detectedTF := detectedTF_of a in
              let toStore :=
                mkStored detectedTF (or_null (request_update_for_tf a))
                  (opt_default (opt_or (detailed_trade_setup a) (detailed_setup a)) [])
                  (opt_default (opt_or (reasoning_trace a) (detailed_reasoning_trace a)) []) in
              let logs1 := saveAnalysis userId detectedTF (now_end inv) (Analysis toStore)
                                        (logs s) in
              (AnalysisText, mkState jobs2 logs1,
               (0 <? queued_count (getUserQueueStats userId jobs2))%nat)
        end
    end.

End WorkerJs.

Module HandlersJs.

(** The context handed to the fallback: [existingRows?.[0]], parsed, over
    the user's rows whose timeframe does not start with an underscore. *)
Definition recent_context (userId : string) (logs : Logs) : option Stored :=
  match filter (fun r => negb (prefix "_" (a_tf r))) (getAllAnalyses userId logs) with
  | r :: _ => Some (a_json r)
  | [] => None
  end.

(** [performAnalysisInBackground] of [src/handlers.js]. *)
Definition performAnalysisInBackground (userId : string) (job : Claimed)
           (maxAttempts : Z) (inv : Invocation) (s : State) : State * bool :=
  let attempt := c_attempt job in
  match getContentFromLine inv, cached_image inv with
  | Some lineErr, false =>
      fail_job userId job None
        ("Cannot fetch image from LINE and no cached version available: " ++ message lineErr)
        (now_end inv) s
  | _, _ =>
      let fallback := createFallbackAnalysis (recent_context userId (logs s)) in
      match analysis inv with
      | Success a => store_and_complete userId job a (now_end inv) s
      | Failure err =>
          let msg := error_text err in
          if is_timeout err then
            let attempt_recovery := (attempt + 1)%Z in
            let maxRecoveryAttempts := 2%Z in
            let analysisResult :=
              if (attempt_recovery <=? maxRecoveryAttempts)%Z then
                if cached_image inv then
                  match recovery inv with
                  | Success a => a
                  | Failure _ => fallback
                  end
                else fallback
              else fallback in
            store_and_complete userId job analysisResult (now_end inv) s
          else
            let retryable := status_retryable msg in
            let nextAttempt := (attempt + 1)%Z in
            if retryable && (nextAttempt <=? maxAttempts)%Z
            then retry_job userId job nextAttempt msg (now_end inv) s
            else fail_job userId job (Some nextAttempt) msg (now_end inv) s
      end
  end.

(** [handleInternalAnalyze] of [src/handlers.js]: it claims the job, writes
    the marker and triggers the endpoint again; it does not call
    [performAnalysisInBackground]. *)
Definition handleInternalAnalyze (env : Env) (req : Request) (inv : Invocation) (s : State)
  : nat * State * bool :=
  if negb (authorized env req) then (401%nat, s, false)
  else
    match body_userId req with
    | None => (400%nat, s, false)
    | Some userId =>
        if negb (truthy userId) then (400%nat, s, false)
        else
          match claimNextQueuedJob userId (now_start inv) (jobs s) with
          | (None, jobs1) =>
              (200%nat, idle_marker userId (now_start inv) (mkState jobs1 (logs s)), false)
          | (Some job, jobs1) =>
              let stats := getUserQueueStats userId jobs1 in
              let logs1 := saveAnalysis userId "_JOB" (c_started_at job)
                             (job_marker "processing" (c_job_id job) (Some (c_attempt job))
                                         (Some (queued_count stats))) (logs s) in
              (202%nat, mkState jobs1 logs1, true)
          end
    end.

Fixpoint chain (env : Env) (req : Request) (invs : list Invocation) (s : State) : State :=
  match invs with
  | [] => s
  | inv :: rest =>
      let '(_, s', again) := handleInternalAnalyze env req inv s in
      if again then chain env req rest s' else s'
  end.

End HandlersJs.

(** ** Notions used in the statements *)

(** [job_id] is the primary key of the table. *)
Definition key_ok (db : DB) : Prop := NoDup (map job_id db).

Definition single_processing (db : DB) : Prop :=
  forall u, (count_status u processing db <= 1)%nat.


Definition terminal (st : Status) : Prop := st = done \/ st = error.


Definition by_created (a b : Job) : Prop := (created_at a <= created_at b)%Z.

(** The rows that survive pruning, for the pruned user and status [done]. *)
Definition kept_rows (u : string) (k : nat) (db : DB) : list Job :=
  firstn (keep_of k) (sort_desc (done_of u db)).

(** A request that passes the checks of the internal endpoint for user [u]. *)
Definition request_for (env : Env) (req : Request) (u : string) : Prop :=
  authorized env req = true /\ body_userId req = Some u /\ truthy u = true.


(** The user's queue has [r] in front, as its oldest row, with nothing in
    flight. *)
Definition head_of_queue (u : string) (r : Job) (rest : list Job) (db : DB) : Prop :=
  key_ok db
  /\ count_status u processing db = 0%nat
  /\ queued_of u db = r :: rest
  /\ (forall x, In x rest -> (created_at r <= created_at x)%Z)
  /\ job_id r <> "".

(** ** Sample data *)

(** A LINE user, two message ids, and the clock at the first image. *)
Definition uA : string := "U4af4980629b1c2d3e4f5a6b7c8d9e0f1".
Definition mA : string := "468789577898262530".
Definition mB : string := "468789577898262531".
Definition t0 : Z := 1700000000000.

Definition jA : string := makeJobId uA mA t0.
Definition jB : string := makeJobId uA mB (t0 + 50000).

(** No variable set; a request of the internal endpoint for [uA]. *)
Definition env0 : Env := mkEnv None None None.
Definition req0 : Request := mkRequest None (Some uA).

(** One job of user [uA], just enqueued. *)
Definition one_job : State :=
  mkState (snd (enqueueAnalysisJob uA mA t0 t0 [])) [].

(** The row of job [jA] as enqueued, once claimed at [t0 + 100], and once
    completed at [t0 + 20000]. *)
Definition rowA_queued : Job :=
  mkJob jA uA mA t0 queued 0 None None None None.

Definition rowA_processing : Job :=
  mkJob jA uA mA t0 processing 0 (Some (t0 + 100)) None None None.

Definition rowA_done : Job :=
  mkJob jA uA mA t0 done 0 (Some (t0 + 100)) (Some (t0 + 20000)) (Some "H4") None.

Definition ops_claimed : list Op :=
  [Enqueue uA mA t0 t0; ClaimNext uA (t0 + 100); Enqueue uA mB (t0 + 50000) (t0 + 50000)].

Definition ops_done : list Op :=
  [Enqueue uA mA t0 t0; ClaimNext uA (t0 + 100); MarkDone jA "H4" (t0 + 20000)].

Definition ops_requeued : list Op :=
  [Enqueue uA mA t0 t0; ClaimNext uA (t0 + 100); Requeue jA 1 "HTTP 503"].


(** An analysis result with every field absent. *)
Definition no_result : AnalysisResult := mkResult "" NoRequest None None None None "".

(** A result for M15 that asks for a fresh H4 chart. *)
Definition wants_H4 : AnalysisResult :=
  mkResult "M15" (RequestList ["H4"]) (Some ["Structure: range"])
           (Some [("action", "BUY"); ("confidence", "High")]) None None "BUY".

(** An invocation whose analysis call returns [a]. *)
Definition answered (t : Z) (a : AnalysisResult) : Invocation :=
  mkInvocation t (t + 9000) None (Success a) true (Success a).

(** An invocation whose analysis call runs into its deadline. *)
Definition timed_out (t : Z) : Invocation :=
  mkInvocation t (t + 24000) None
    (Failure (mkError "TimeoutError" "Timeout after 24000ms"))
    true
    (Failure (mkError "TimeoutError" "Timeout after 12000ms")).

(** An invocation whose analysis call is rate-limited. *)
Definition rate_limited (t : Z) : Invocation :=
  mkInvocation t (t + 2000) None
    (Failure (mkError "Error" "Gemini API error 429: Resource exhausted"))
    true (Failure (mkError "Error" "Gemini API error 429: Resource exhausted")).

(** ** Further functions of the repository *)

Module Database.

(** [SELECT * FROM user_analysis_logs WHERE user_id = ? AND tf = ?], first
    row. *)
Definition lookup (userId tf : string) (l : Logs) : option AnalysisRow :=
  find (same_key userId tf) l.

(** [deleteAnalysis]. *)
Definition deleteAnalysis (userId tf : string) (l : Logs) : Logs :=
  filter (fun r => negb (same_key userId tf r)) l.

(** [updateAnalysisTF]: nothing when the old row is missing; otherwise the
    old row's content is saved under the new timeframe and the old key is
    deleted, in that order. *)
Definition updateAnalysisTF (userId oldTF newTF : string) (l : Logs) : Logs :=
  match lookup userId oldTF l with
  | None => l
  | Some oldRow =>
      deleteAnalysis userId oldTF
        (saveAnalysis userId newTF (a_timestamp oldRow) (a_json oldRow) l)
  end.

End Database.

Module Line.

(** A quick-reply action: every item of the source is a message action, so
    only the label and the text are kept. *)
Record Item : Set := mkItem { label : string; text : string }.

(** A quick-reply object; [is_mainMenu] tells whether the object is the
    constant [mainMenu] (the source compares references). *)
Record QuickReply : Set := mkQuickReply { is_mainMenu : bool; items : list Item }.

Definition CANCEL_TEXT : string := "CANCEL".

Definition cancelItem : Item := mkItem "ยกเลิก" CANCEL_TEXT.

(** [ensureQuickReplyLimit]. *)
Definition ensureQuickReplyLimit (quickReply : option QuickReply) : option QuickReply :=
  match quickReply with
  | None => None
  | Some q =>
      if (List.length (items q) <=? 13)%nat then Some q
      else Some (mkQuickReply (is_mainMenu q) (firstn 13 (items q)))
  end.

(** [addCancelQuickReply]; [items[12] = cancelItem] replaces the thirteenth
    item. *)
Definition addCancelQuickReply (quickReply : option QuickReply) (includeCancel : bool)
  : option QuickReply :=
  if negb includeCancel then quickReply
  else
    match quickReply with
    | None => None
    | Some q =>
        let hasCancel := existsb (fun it => text it =? CANCEL_TEXT) (items q) in
        if hasCancel then Some q
        else if (13 <=? List.length (items q))%nat
             then Some (mkQuickReply (is_mainMenu q)
                          (firstn 12 (items q) ++ cancelItem :: skipn 13 (items q))%list)
             else Some (mkQuickReply (is_mainMenu q) (items q ++ [cancelItem])%list)
    end.

(** [normalizeQuickReply]: the object is cloned first, so the result is
    never the constant [mainMenu] itself. *)
Definition normalizeQuickReply (quickReply : option QuickReply) : option QuickReply :=
  let includeCancel :=
    match quickReply with
    | Some q => negb (is_mainMenu q)
    | None => false
    end in
  let q := option_map (fun q => mkQuickReply false (items q)) quickReply in
  ensureQuickReplyLimit (addCancelQuickReply q includeCancel).

End Line.

Module Ack.

(** [shortMessageId]. *)
Definition shortMessageId (messageId : string) : string :=
  if negb (truthy messageId) then "??????"
  else if (String.length messageId <=? 6)%nat then messageId
       else slice_last 6 messageId.

(** [status IN ('queued','processing')]. *)
Definition pending (userId : string) (r : Job) : bool :=
  (user_id r =? userId)
  && (status_eqb (status r) queued || status_eqb (status r) processing).

(** [COUNT( * ) ... AND created_at <= ?] over the user's pending rows. *)
Definition count_pending_upto (userId : string) (ca : Z) (db : DB) : nat :=
  List.length (filter (fun r => pending userId r && (created_at r <=? ca)%Z) db).

(** Order of [ORDER BY started_at ASC]: NULL sorts before every number. *)
Definition started_leb (a b : Job) : bool :=
  match started_at a, started_at b with
  | None, _ => true
  | Some _, None => false
  | Some x, Some y => (x <=? y)%Z
  end.

(** [ORDER BY started_at ASC LIMIT 1]. *)
Fixpoint first_started (rows : list Job) : option Job :=
  match rows with
  | [] => None
  | r :: rest =>
      match first_started rest with
      | None => Some r
      | Some m => if started_leb r m then Some r else Some m
      end
  end.

Record Progress : Set := mkProgress {
  p_queued_count : nat;
  p_processing_count : nat;
  totalPending : nat;
  p_processing : option Job;
  processingOrder : option nat;
  yourPosition : option nat
}.

(** [Number(x?.c || d)] on a count. *)
Definition count_or (c d : nat) : nat := if (c =? 0)%nat then d else c.

(** [getQueueProgressForAck]; [createdAt] is [None] for [null]. *)
Definition getQueueProgressForAck (userId jobId : string) (createdAt : option Z) (db : DB)
  : Progress :=
  let stats := getUserQueueStats userId db in
  let totalPending := List.length (filter (pending userId) db) in
  let processing :=
    first_started (filter (fun r => (user_id r =? userId)
                                    && status_eqb (status r) processing) db) in
  let processingOrder :=
    match processing with
    | Some p => Some (count_or (count_pending_upto userId (created_at p) db) 1)
    | None => None
    end in
  let ca :=
    match createdAt with
    | Some c => Some c
    | None =>
        if truthy jobId then option_map created_at (find_job jobId db) else None
    end in
  let yourPosition :=
    match ca with
    | Some c => Some (count_pending_upto userId c db)
    | None => None
    end in
  mkProgress (queued_count stats) (processing_count stats) totalPending
             processing processingOrder yourPosition.

(** [Math.round] on an exact rational. *)
Definition math_round (q : Q) : Z := Qfloor (q + (1 # 2))%Q.

(** What [formatDurationTH] prints: seconds, minutes, or hours with the
    remaining minutes. *)
Inductive Duration : Set :=
| Seconds (s : Z)
| Minutes (m : Z)
| Hours (h : Z) (m : Z).

(** The case analysis of [formatDurationTH]. *)
Definition duration_of (seconds : jsnum) : Duration :=
  let s := Z.max 0 (match seconds with Num q => math_round q | NaN => 0 end)%Z in
  if (s <? 60)%Z then Seconds s
  else
    let mins := math_round (inject_Z s / inject_Z 60)%Q in
    if (mins <? 60)%Z then Minutes mins
    else Hours (mins / 60)%Z (mins mod 60)%Z.

(** [formatDurationTH]. *)
Definition formatDurationTH (seconds : jsnum) : string :=
  match duration_of seconds with
  | Seconds s => decimal s ++ " วินาที"
  | Minutes m => decimal m ++ " นาที"
  | Hours h m =>
      if (m =? 0)%Z then decimal h ++ " ชม."
      else decimal h ++ " ชม. " ++ decimal m ++ " นาที"
  end.

End Ack.

Module Context.

Definition TF_ORDER : list string := ["1W"; "1D"; "H4"; "H1"; "M30"; "M15"; "M5"; "M1"].

(** The members that the object literal [PARENT_TF_MAP] inherits from
    [Object.prototype]: functions, and the prototype itself for
    [__proto__]. *)
Definition inherited_keys : list string :=
  ["constructor"; "__defineGetter__"; "__defineSetter__"; "hasOwnProperty";
   "__lookupGetter__"; "__lookupSetter__"; "isPrototypeOf"; "propertyIsEnumerable";
   "toString"; "valueOf"; "__proto__"; "toLocaleString"].

(** What [PARENT_TF_MAP[tf]] evaluates to: the array of an own key, an
    inherited member (truthy, not iterable), or [undefined]. *)
Inductive Member : Set :=
| Parents (tfs : list string)
| Inherited
| Undefined.

(** [PARENT_TF_MAP[tf]]. *)
Definition PARENT_TF_MAP (tf : string) : Member :=
  if tf =? "M1" then Parents ["M5"; "M15"; "H1"; "H4"]
  else if tf =? "M5" then Parents ["M15"; "H1"; "H4"]
  else if tf =? "M15" then Parents ["H1"; "H4"; "1D"]
  else if tf =? "M30" then Parents ["H1"; "H4"; "1D"]
  else if tf =? "H1" then Parents ["H4"; "1D"]
  else if tf =? "H4" then Parents ["1D"; "1W"]
  else if tf =? "1D" then Parents ["1W"]
  else if tf =? "D1" then Parents ["1W"]
  else if tf =? "1W" then Parents []
  else if mem_string tf inherited_keys then Inherited
  else Undefined.

(** [arr.indexOf(x)], -1 when absent; [null] is never found. *)
Fixpoint indexOf_from (i : Z) (x : string) (arr : list string) : Z :=
  match arr with
  | [] => (-1)%Z
  | y :: rest => if y =? x then i else indexOf_from (i + 1)%Z x rest
  end.

Definition indexOf (x : option string) (arr : list string) : Z :=
  match x with
  | Some s => indexOf_from 0%Z s arr
  | None => (-1)%Z
  end.

(** [Array.prototype.sort] with a comparator that subtracts keys: a stable
    sort by the key. *)
Fixpoint insert_by {A : Type} (leb : A -> A -> bool) (x : A) (l : list A) : list A :=
  match l with
  | [] => [x]
  | y :: rest => if leb x y then x :: l else y :: insert_by leb x rest
  end.

Fixpoint sort_by {A : Type} (leb : A -> A -> bool) (l : list A) : list A :=
  match l with
  | [] => []
  | x :: rest => insert_by leb x (sort_by leb rest)
  end.

(** [(b.timestamp || 0) - (a.timestamp || 0)]: most recent first. *)
Definition newer_first (a b : AnalysisRow) : bool := (a_timestamp b <=? a_timestamp a)%Z.

(** [TF_ORDER.indexOf(normalizeTF(a.tf)) - TF_ORDER.indexOf(normalizeTF(b.tf))]. *)
Definition by_tf_order (a b : AnalysisRow) : bool :=
  (indexOf (normalizeTF (a_tf a)) TF_ORDER <=? indexOf (normalizeTF (a_tf b)) TF_ORDER)%Z.

(** [inferLikelyCurrentTF]. *)
Definition inferLikelyCurrentTF (existingRows : list AnalysisRow) : option string :=
  match sort_by newer_first existingRows with
  | [] => None
  | r :: _ => normalizeTF (a_tf r)
  end.

Definition opt_string_eqb (a b : option string) : bool :=
  match a, b with
  | Some x, Some y => x =? y
  | None, None => true
  | _, _ => false
  end.

(** The set [tfSet] of [selectSmartContextRows]; [None] when the loop
    [for (const p of PARENT_TF_MAP[likelyTf])] throws its [TypeError]. *)
Definition tfSet_of (likelyTf : option string) : option (list (option string)) :=
  match likelyTf with
  | Some tf =>
      if truthy tf then
        match PARENT_TF_MAP tf with
        | Parents parents => Some (map normalizeTF parents)
        | Inherited => None
        | Undefined => Some [Some "1D"; Some "H4"; Some "H1"; Some "M15"]
        end
      else Some [Some "1D"; Some "H4"; Some "H1"; Some "M15"]
  | None => Some [Some "1D"; Some "H4"; Some "H1"; Some "M15"]
  end.

(** [selectSmartContextRows]; [None] when it throws. *)
Definition selectSmartContextRows (validRows : list AnalysisRow) (likelyTf : option string)
  : option (list AnalysisRow) :=
  match validRows with
  | [] => Some []
  | _ =>
      match tfSet_of likelyTf with
      | None => None
      | Some tfSet =>
          let selected :=
            filter (fun r => existsb (opt_string_eqb (normalizeTF (a_tf r))) tfSet)
                   validRows in
          match selected with
          | [] => Some (firstn 3 (sort_by newer_first validRows))
          | _ => Some (sort_by by_tf_order selected)
          end
      end
  end.

End Context.

Module Kv.

(** The value stored under an image key. *)
Record CachedImage : Set := mkCached {
  base64 : string;
  contentType : string;
  kv_timestamp : Z;
  kv_attempt : Z
}.

(** A value of the namespace: a cached image or an analysis state (of which
    only the status is kept). *)
Inductive Value : Set :=
| ImageValue (c : CachedImage)
| StateValue (st : string).

(** The binding [env.ANALYSIS_KV]: absent, present but failing on every
    call, or present with its entries. *)
Inductive Namespace : Set :=
| NoKV
| Down
| Up (entries : list (string * Value)).

Definition imageKey (userId jobId : string) : string := "img:" ++ userId ++ ":" ++ jobId.
Definition stateKey (userId jobId : string) : string := "state:" ++ userId ++ ":" ++ jobId.

Fixpoint kv_get (key : string) (entries : list (string * Value)) : option Value :=
  match entries with
  | [] => None
  | (k, v) :: rest => if k =? key then Some v else kv_get key rest
  end.

Definition kv_delete (key : string) (entries : list (string * Value))
  : list (string * Value) :=
  filter (fun e => negb (fst e =? key)) entries.

Definition kv_put (key : string) (v : Value) (entries : list (string * Value))
  : list (string * Value) :=
  (key, v) :: kv_delete key entries.

(** [saveImageToKV]: whether it succeeded, and the namespace afterwards. *)
Definition saveImageToKV (kv : Namespace) (userId jobId base64Image contentType : string)
           (att now : Z) : bool * Namespace :=
  match kv with
  | Up entries =>
      (true,
       Up (kv_put (imageKey userId jobId)
             (ImageValue (mkCached base64Image (str_or contentType "image/jpeg") now att))
             entries))
  | _ => (false, kv)
  end.

(** [getImageFromKV]: [null] on a miss and on any error. *)
Definition getImageFromKV (kv : Namespace) (userId jobId : string) : option CachedImage :=
  match kv with
  | Up entries =>
      match kv_get (imageKey userId jobId) entries with
      | Some (ImageValue c) => Some c
      | _ => None
      end
  | _ => None
  end.

(** [saveAnalysisStateToKV]. *)
Definition saveAnalysisStateToKV (kv : Namespace) (userId jobId st : string)
  : bool * Namespace :=
  match kv with
  | Up entries => (true, Up (kv_put (stateKey userId jobId) (StateValue st) entries))
  | _ => (false, kv)
  end.

(** [getAnalysisStateFromKV]. *)
Definition getAnalysisStateFromKV (kv : Namespace) (userId jobId : string) : option string :=
  match kv with
  | Up entries =>
      match kv_get (stateKey userId jobId) entries with
      | Some (StateValue st) => Some st
      | _ => None
      end
  | _ => None
  end.

(** [cleanupAnalysisFromKV]. *)
Definition cleanupAnalysisFromKV (kv : Namespace) (userId jobId : string)
  : bool * Namespace :=
  match kv with
  | Up entries =>
      (true, Up (kv_delete (stateKey userId jobId)
                   (kv_delete (imageKey userId jobId) entries)))
  | _ => (false, kv)
  end.

End Kv.

(** ** Further notions used in the statements *)

(** (user_id, tf) is the primary key of the result store. *)
Definition logs_ok (l : Logs) : Prop :=
  NoDup (map (fun r => (a_user_id r, a_tf r)) l).

(** Every row has a non-empty [job_id], as the ids built by [makeJobId]
    are. *)
Definition ids_nonempty (db : DB) : Prop := forall r, In r db -> job_id r <> "".

(** The invocation does not end in a requeue: the download fails, or the
    analysis succeeds, or it fails with an error that [src/worker.js] does
    not retry. *)
Definition settles (inv : Invocation) : Prop :=
  getContentFromLine inv <> None
  \/ (exists a, analysis inv = Success a)
  \/ (exists err, analysis inv = Failure err
                  /\ is_timeout err = false
                  /\ status_retryable (error_text err) = false).

(** [items.some(it => it?.action?.text === CANCEL_TEXT)]. *)
Definition has_cancel (l : list Line.Item) : bool :=
  existsb (fun it => Line.text it =? Line.CANCEL_TEXT) l.


(** The place of a row's timeframe in [TF_ORDER], -1 when it is not there. *)
Definition tf_rank (r : AnalysisRow) : Z :=
  Context.indexOf (normalizeTF (a_tf r)) Context.TF_ORDER.

(** [tfSet.has(normalizeTF(r.tf))] for the set built from [likelyTf]. *)
Definition wanted (likelyTf : option string) (r : AnalysisRow) : bool :=
  match Context.tfSet_of likelyTf with
  | Some tfSet => existsb (Context.opt_string_eqb (normalizeTF (a_tf r))) tfSet
  | None => false
  end.

(** Every character of the string is below 128. *)
Fixpoint ascii_only (s : string) : bool :=
  match s with
  | EmptyString => true
  | String c rest => (nat_of_ascii c <? 128)%nat && ascii_only rest
  end.

(** The string contains one of the letters a to z. *)
Fixpoint has_lower (s : string) : bool :=
  match s with
  | EmptyString => false
  | String c rest =>
      ((97 <=? nat_of_ascii c) && (nat_of_ascii c <=? 122))%nat || has_lower rest
  end.

(** The first and the last character of the string are not white space. *)
Definition trimmed (s : string) : Prop := trim_left s = s /\ trim_right s = s.

(** [a] is at least as recent as [b]. *)
Definition ts_ge (a b : AnalysisRow) : Prop := (a_timestamp b <= a_timestamp a)%Z.

(** [a] comes no later than [b] in the timeframe hierarchy. *)
Definition rank_le (a b : AnalysisRow) : Prop := (tf_rank a <= tf_rank b)%Z.

(** Sample rows of the result store. *)
Definition row_H4 : AnalysisRow :=
  mkRow "Uabc" "H4" 1700000000000 (Analysis (mkStored "H4" NoRequest [] [])).
Definition row_1D : AnalysisRow :=
  mkRow "Uabc" "d1" 1700000100000 (Analysis (mkStored "1D" NoRequest [] [])).
Definition row_M5 : AnalysisRow :=
  mkRow "Uabc" "M5" 1700000200000 (Analysis (mkStored "M5" NoRequest [] [])).

(** The string contains no colon, as the user ids that LINE issues. *)
Fixpoint colon_free (s : string) : bool :=
  match s with
  | EmptyString => true
  | String c rest => negb (Ascii.eqb c ":"%char) && colon_free rest
  end.

(** What a run may have done to the rows of the claimed job. *)
Definition settled (job : Claimed) (cap : Z) (r : Job) : Prop :=
  status r = done
  \/ status r = error
  \/ (status r = queued /\ attempt r = (c_attempt job + 1)%Z /\ (attempt r <= cap)%Z).

(** The job [jA] as claimed at [t0 + 100], and the table after that claim. *)
Definition claimedA : Claimed := mkClaimed jA mA t0 0 (t0 + 100).
Definition jobs_claimedA : DB := snd (claimNextQueuedJob uA (t0 + 100) (jobs one_job)).

(** A configured token, and a request that carries another one. *)
Definition env_token : Env := mkEnv None None (Some "s3cret").
Definition req_wrong : Request := mkRequest (Some "guess") (Some uA).

(** A menu of two entries without the cancel entry. *)
Definition menu_two : Line.QuickReply :=
  Line.mkQuickReply false [Line.mkItem "H4" "H4"; Line.mkItem "H1" "H1"].

(** The rows of the sample user, oldest first. *)
Definition rows_three : list AnalysisRow := [row_H4; row_1D; row_M5].





(** * Properties of the job store *)

(** ** Basic facts on strings, statuses and updates *)

Lemma status_eqb_eq (a b : Status) : status_eqb a b = true <-> a = b.
Proof. destruct a, b; simpl; split; congruence. Qed.

Lemma status_eqb_refl (a : Status) : status_eqb a a = true.
Proof. now destruct a. Qed.

Lemma count_status_cons (u : string) (st : Status) (r : Job) (db : DB) :
  count_status u st (r :: db) =
  Nat.add (if (user_id r =? u) && status_eqb (status r) st then 1%nat else 0%nat)
          (count_status u st db).
Proof.
  unfold count_status; simpl.
  destruct ((user_id r =? u) && status_eqb (status r) st); reflexivity.
Qed.

Lemma count_status_app (u : string) (st : Status) (a b : DB) :
  count_status u st (a ++ b)%list = (count_status u st a + count_status u st b)%nat.
Proof. unfold count_status. now rewrite filter_app, length_app. Qed.

Lemma count_status_filter_le (u : string) (st : Status) (p : Job -> bool) (db : DB) :
  (count_status u st (filter p db) <= count_status u st db)%nat.
Proof.
  induction db as [|r db IH]; simpl; [lia|].
  destruct (p r); rewrite ?count_status_cons; lia.
Qed.

Lemma count_pos_in (u : string) (st : Status) (db : DB) :
  (0 < count_status u st db)%nat <->
  exists r, In r db /\ user_id r = u /\ status r = st.
Proof.
  unfold count_status. split.
  - intros H. destruct (filter _ db) as [|r l] eqn:E; simpl in H; [lia|].
    assert (Hin : In r (filter (fun r => (user_id r =? u) && status_eqb (status r) st) db))
      by (rewrite E; now left).
    apply filter_In in Hin as [Hin Hc]. apply andb_true_iff in Hc as [Hu Hs].
    exists r. repeat split; auto.
    + now apply String.eqb_eq.
    + now apply status_eqb_eq.
  - intros (r & Hin & Hu & Hs).
    assert (Hf : In r (filter (fun r => (user_id r =? u) && status_eqb (status r) st) db)).
    { apply filter_In. split; auto. subst. now rewrite String.eqb_refl, status_eqb_refl. }
    destruct (filter _ db); simpl in *; [contradiction | lia].
Qed.

Lemma sql_update_ids (c : Job -> bool) (f : Job -> Job) (db : DB) :
  (forall r, job_id (f r) = job_id r) ->
  map job_id (sql_update c f db) = map job_id db.
Proof.
  intros Hf. unfold sql_update. rewrite map_map. apply map_ext.
  intros r. destruct (c r); auto.
Qed.

Lemma sql_update_in (c : Job -> bool) (f : Job -> Job) (db : DB) (r' : Job) :
  In r' (sql_update c f db) ->
  (In r' db /\ c r' = false) \/ (exists r, In r db /\ c r = true /\ r' = f r).
Proof.
  unfold sql_update. rewrite in_map_iff. intros (r & Hr & Hin).
  destruct (c r) eqn:E; subst; eauto.
Qed.

Lemma sql_update_none (c : Job -> bool) (f : Job -> Job) (db : DB) :
  (forall r, In r db -> c r = false) -> sql_update c f db = db.
Proof.
  unfold sql_update. induction db as [|r db IH]; simpl; intros H; [reflexivity|].
  rewrite (H r) by now left. f_equal. apply IH. intros; apply H; now right.
Qed.

(** An update that never produces status [st] cannot raise the count of [st]. *)
Lemma count_update_le (u : string) (st : Status) (c : Job -> bool) (f : Job -> Job) (db : DB) :
  (forall r, status (f r) <> st) ->
  (count_status u st (sql_update c f db) <= count_status u st db)%nat.
Proof.
  intros Hf. induction db as [|r db IH]; simpl; [lia|].
  unfold sql_update in *; simpl. rewrite !count_status_cons.
  destruct (c r) eqn:E.
  - replace (status_eqb (status (f r)) st) with false.
    + rewrite andb_false_r. lia.
    + symmetry. apply not_true_iff_false. rewrite status_eqb_eq. apply Hf.
  - lia.
Qed.

(** Under a primary key, an update selected by [job_id] changes one row at
    most, so a count grows by one at most. *)
Lemma count_update_key (u : string) (st : Status) (j : string)
      (c : Job -> bool) (f : Job -> Job) (db : DB) :
  NoDup (map job_id db) ->
  (forall r, c r = true -> job_id r = j) ->
  (count_status u st (sql_update c f db) <= S (count_status u st db))%nat.
Proof.
  intros Hnd Hc. induction db as [|r db IH]; simpl; [lia|].
  inversion Hnd as [|? ? Hnotin Hnd']; subst.
  unfold sql_update in *; simpl. rewrite !count_status_cons.
  destruct (c r) eqn:E.
  - fold (sql_update c f db). rewrite sql_update_none.
    + destruct (_ && _); destruct (_ && _); lia.
    + intros r0 Hin. destruct (c r0) eqn:E0; auto.
      exfalso. apply Hnotin. apply in_map_iff. exists r0. split; auto.
      rewrite (Hc _ E0), (Hc _ E). reflexivity.
  - specialize (IH Hnd'). lia.
Qed.

(** An update that touches rows of user [u] only leaves other users' counts. *)
Lemma count_update_other (u u' : string) (st : Status)
      (c : Job -> bool) (f : Job -> Job) (db : DB) :
  (forall r, In r db -> c r = true -> user_id r = u) ->
  (forall r, user_id (f r) = user_id r) ->
  u' <> u ->
  count_status u' st (sql_update c f db) = count_status u' st db.
Proof.
  intros Hc Hf Hne. induction db as [|r db IH]; simpl; [reflexivity|].
  unfold sql_update in *; simpl. rewrite !count_status_cons.
  rewrite IH by (intros; apply Hc; auto; now right).
  destruct (c r) eqn:E; auto.
  assert (Hu : user_id r = u) by (apply Hc; auto; now left).
  rewrite Hf, Hu. replace (u =? u') with false; auto.
  symmetry. apply String.eqb_neq. congruence.
Qed.

Lemma key_unique (db : DB) (a b : Job) :
  NoDup (map job_id db) -> In a db -> In b db -> job_id a = job_id b -> a = b.
Proof.
  induction db as [|r db IH]; simpl; intros Hnd Ha Hb E; [contradiction|].
  inversion Hnd as [|? ? Hnotin Hnd']; subst.
  destruct Ha as [->|Ha], Hb as [->|Hb]; auto.
  - exfalso. apply Hnotin. rewrite E. now apply in_map.
  - exfalso. apply Hnotin. rewrite <- E. now apply in_map.
Qed.

Lemma find_job_some (j : string) (db : DB) (r : Job) :
  find_job j db = Some r -> In r db /\ job_id r = j.
Proof.
  unfold find_job. intros H. apply find_some in H as [Hin He].
  split; auto. now apply String.eqb_eq.
Qed.

Lemma find_job_none (j : string) (db : DB) :
  find_job j db = None -> ~ In j (map job_id db).
Proof.
  unfold find_job. intros H Hin. apply in_map_iff in Hin as (r & Hr & Hin).
  pose proof (find_none _ _ H r Hin) as Hf. simpl in Hf.
  rewrite Hr, String.eqb_refl in Hf. discriminate.
Qed.

Lemma oldest_in (rows : list Job) (m : Job) :
  oldest rows = Some m -> In m rows.
Proof.
  revert m. induction rows as [|r rows IH]; simpl; intros m H; [discriminate|].
  destruct (oldest rows) as [m'|].
  - destruct (created_at r <=? created_at m')%Z; inversion H; subst; auto.
  - inversion H; auto.
Qed.

Lemma queued_of_in (u : string) (db : DB) (r : Job) :
  In r (queued_of u db) <-> In r db /\ user_id r = u /\ status r = queued.
Proof.
  unfold queued_of. rewrite filter_In, andb_true_iff, String.eqb_eq, status_eqb_eq.
  tauto.
Qed.

(** ** The primary key is kept by every operation *)

Lemma key_ok_filter (keep : Job -> bool) (db : DB) :
  key_ok db -> key_ok (filter keep db).
Proof.
  unfold key_ok. induction db as [|r db IH]; simpl; intros Hk; [constructor|].
  inversion Hk as [|? ? Hfresh Hk']; subst.
  destruct (keep r); simpl; [|now apply IH].
  constructor; [|now apply IH].
  intros Hin. apply Hfresh.
  apply in_map_iff in Hin as (x & Hx & Hin).
  apply filter_In in Hin as [Hin _].
  rewrite <- Hx. now apply in_map.
Qed.

Lemma enqueue_key_ok (u m : string) (t1 t2 : Z) (db : DB) :
  key_ok db -> key_ok (snd (enqueueAnalysisJob u m t1 t2 db)).
Proof.
  unfold key_ok, enqueueAnalysisJob; simpl. intros H.
  destruct (find_job _ db) eqn:E; auto.
  rewrite map_app; simpl. apply find_job_none in E.
  apply NoDup_app; repeat split; auto.
  - constructor; [intros []|constructor].
  - intros x Hx [<-|[]]. contradiction.
Qed.

Lemma claim_key_ok (u : string) (t : Z) (db : DB) :
  key_ok db -> key_ok (snd (claimNextQueuedJob u t db)).
Proof.
  unfold key_ok, claimNextQueuedJob. intros H.
  destruct (0 <? _)%nat; simpl; auto.
  destruct (oldest _); simpl; auto.
  destruct (negb _); simpl; auto.
  destruct (_ =? 0)%nat; simpl; rewrite sql_update_ids; auto.
Qed.

Lemma prune_key_ok (u : string) (k : nat) (db : DB) :
  key_ok db -> key_ok (pruneDoneJobHistory u k db).
Proof. unfold pruneDoneJobHistory. apply key_ok_filter. Qed.

Lemma markDone_update_key_ok (j tf : string) (t : Z) (db : DB) :
  key_ok db -> key_ok (markJobDone_update j tf t db).
Proof. unfold key_ok, markJobDone_update. now rewrite sql_update_ids. Qed.

Lemma markDone_key_ok (j tf : string) (t : Z) (db : DB) :
  key_ok db -> key_ok (markJobDone j tf t db).
Proof.
  intros H. unfold markJobDone.
  pose proof (markDone_update_key_ok j tf t db H).
  destruct (find_job _ _); auto. destruct (truthy _); auto.
  now apply prune_key_ok.
Qed.

Lemma step_key_ok (db : DB) (o : Op) : key_ok db -> key_ok (step db o).
Proof.
  destruct o; simpl.
  - apply enqueue_key_ok.
  - apply claim_key_ok.
  - unfold key_ok, requeueJob. now rewrite sql_update_ids.
  - apply markDone_key_ok.
  - unfold key_ok, markJobError. now rewrite sql_update_ids.
Qed.

Lemma run_key_ok (ops : list Op) (db : DB) : key_ok db -> key_ok (run ops db).
Proof.
  unfold run. revert db. induction ops as [|o ops IH]; simpl; auto.
  intros db H. apply IH. now apply step_key_ok.
Qed.

(** ** One job in flight per user *)

Lemma claim_none_when_busy (u : string) (t : Z) (db : DB) :
  (0 < count_status u processing db)%nat ->
  claimNextQueuedJob u t db = (None, db).
Proof.
  intros H. unfold claimNextQueuedJob.
  apply Nat.ltb_lt in H. now rewrite H.
Qed.

Lemma claim_single (u : string) (t : Z) (db : DB) :
  key_ok db -> single_processing db ->
  single_processing (snd (claimNextQueuedJob u t db)).
Proof.
  intros Hk Hs u'. unfold claimNextQueuedJob.
  destruct (0 <? _)%nat eqn:Hbusy; simpl; auto.
  destruct (oldest _) as [next|] eqn:Hold; simpl; auto.
  apply oldest_in, queued_of_in in Hold as (Hin & Hu & Hst).
  assert (Hgoal : (count_status u' processing
            (sql_update (claim_cond (job_id next)) (claim_set t) db) <= 1)%nat).
  { destruct (String.eqb_spec u' u) as [->|Hne].
    - apply Nat.ltb_ge in Hbusy.
      pose proof (count_update_key u processing (job_id next)
                    (claim_cond (job_id next)) (claim_set t) db Hk) as Hb.
      assert (Hc : forall r, claim_cond (job_id next) r = true -> job_id r = job_id next).
      { intros r Hr. apply andb_true_iff in Hr as [Hr _]. now apply String.eqb_eq. }
      specialize (Hb Hc). lia.
    - rewrite (count_update_other u u'); auto.
      intros r Hr Hc. apply andb_true_iff in Hc as [Hc _]. apply String.eqb_eq in Hc.
      rewrite (key_unique db r next Hk Hr Hin Hc). exact Hu. }
  destruct (negb _); simpl; auto.
  destruct (_ =? 0)%nat; simpl; auto.
Qed.

Lemma step_single (db : DB) (o : Op) :
  key_ok db -> single_processing db -> single_processing (step db o).
Proof.
  intros Hk Hs. destruct o; simpl.
  - intros u. unfold enqueueAnalysisJob; simpl.
    destruct (find_job _ db); auto.
    rewrite count_status_app, count_status_cons; simpl.
    rewrite andb_false_r. specialize (Hs u). unfold count_status at 2. simpl. lia.
  - now apply claim_single.
  - intros u. etransitivity; [apply count_update_le|apply Hs]. discriminate.
  - intros u. unfold markJobDone.
    assert (H1 : (count_status u processing (markJobDone_update jobId resultTF now db) <= 1)%nat).
    { etransitivity; [apply count_update_le|apply Hs]. discriminate. }
    destruct (find_job _ _); auto. destruct (truthy _); auto.
    etransitivity; [apply count_status_filter_le|exact H1].
  - intros u. etransitivity; [apply count_update_le|apply Hs]. discriminate.
Qed.




(** The foreground fast path of [handleEvent] in [src/worker.js] writes
    [processing] with an update of its own, guarded by the user's counts; it
    keeps the invariant as long as the derived job id belongs to the user
    (as it does when the row was inserted by this very event). *)
Lemma fast_path_single (u m : string) (nowId now : Z) (inv : Invocation) (s : State) :
  key_ok (jobs s) -> single_processing (jobs s) ->
  (forall r, In r (jobs s) -> job_id r = makeJobId u m nowId -> user_id r = u) ->
  single_processing (jobs (snd (fst (WorkerJs.handleEvent_image u m nowId now inv s)))).
Proof.
  intros Hk Hs Hown. unfold WorkerJs.handleEvent_image.
  pose proof (enqueue_key_ok u m nowId now (jobs s) Hk) as Hk1.
  assert (Hs1 : single_processing (snd (enqueueAnalysisJob u m nowId now (jobs s))))
    by exact (step_single (jobs s) (Enqueue u m nowId now) Hk Hs).
  assert (Hown1 : forall r, In r (snd (enqueueAnalysisJob u m nowId now (jobs s))) ->
                            job_id r = makeJobId u m nowId -> user_id r = u).
  { unfold enqueueAnalysisJob; simpl. destruct (find_job _ (jobs s)); auto.
    intros r Hr. apply in_app_or in Hr as [Hr|[<-|[]]]; auto. }
  destruct (enqueueAnalysisJob u m nowId now (jobs s)) as [[jobId createdAt] jobs1] eqn:E.
  assert (Ej : jobId = makeJobId u m nowId).
  { unfold enqueueAnalysisJob in E. now inversion E. }
  simpl in Hk1, Hs1, Hown1.
  destruct (negb _) eqn:Hfast; [exact Hs1|].
  apply negb_false_iff, andb_true_iff in Hfast as [Hp _].
  apply Nat.eqb_eq in Hp. simpl in Hp.
  set (f := fun r : Job =>
              mkJob (job_id r) (user_id r) (message_id r) (created_at r) processing
                    (attempt r) (Some (now_start inv)) (finished_at r) (result_tf r)
                    (last_error r)).
  assert (Hs2 : single_processing (sql_update (claim_cond jobId) f jobs1)).
  { intros u'. destruct (String.eqb_spec u' u) as [->|Hne].
    - pose proof (count_update_key u processing jobId (claim_cond jobId) f jobs1 Hk1) as Hb.
      assert (Hc : forall r, claim_cond jobId r = true -> job_id r = jobId).
      { intros r Hr. apply andb_true_iff in Hr as [Hr _]. now apply String.eqb_eq. }
      specialize (Hb Hc). lia.
    - rewrite (count_update_other u u'); auto.
      intros r Hr Hc. apply andb_true_iff in Hc as [Hc _]. apply String.eqb_eq in Hc.
      apply Hown1; auto. congruence. }
  destruct (getContentFromLine inv); [exact Hs2|].
  destruct (analysis inv) as [a|e].
  - destruct (nonempty_value _); exact Hs2.
  - intros u'. simpl. etransitivity; [apply count_update_le; discriminate|apply Hs2].
Qed.

(** ** What a successful claim writes *)

Lemma find_job_update (j : string) (c : Job -> bool) (f : Job -> Job) (db : DB) :
  (forall r, job_id (f r) = job_id r) ->
  find_job j (sql_update c f db) =
  option_map (fun r => if c r then f r else r) (find_job j db).
Proof.
  intros Hf. unfold find_job, sql_update.
  induction db as [|r db IH]; simpl; [reflexivity|].
  assert (E : job_id (if c r then f r else r) = job_id r) by (destruct (c r); auto).
  rewrite E. destruct (job_id r =? j); simpl; auto.
Qed.

Lemma claim_some_inv (u : string) (t : Z) (db db' : DB) (c : Claimed) :
  claimNextQueuedJob u t db = (Some c, db') ->
  exists next,
    oldest (queued_of u db) = Some next
    /\ count_status u processing db = 0%nat
    /\ c = mkClaimed (job_id next) (message_id next) (created_at next) (attempt next) t
    /\ db' = sql_update (claim_cond (job_id next)) (claim_set t) db.
Proof.
  unfold claimNextQueuedJob. intros H.
  destruct (0 <? _)%nat eqn:Hb; [discriminate|].
  destruct (oldest _) as [next|]; [|discriminate].
  destruct (negb _); [discriminate|].
  destruct (_ =? 0)%nat; [discriminate|].
  inversion H; subst. exists next. repeat split; auto.
  apply Nat.ltb_ge in Hb. lia.
Qed.

(** C10. A successful claim writes [last_error = NULL] together with the
    status and [started_at]: the claimed row is in the table afterwards, and
    every row with the claimed id is [processing], started at the claim's
    clock reading, with no error message. *)
Theorem C10_claim_resets_last_error :
  forall (u : string) (t : Z) (db db' : DB) (c : Claimed),
    key_ok db ->
    claimNextQueuedJob u t db = (Some c, db') ->
    (exists r, In r db' /\ job_id r = c_job_id c)
    /\ (forall r, In r db' -> job_id r = c_job_id c ->
          status r = processing /\ started_at r = Some t /\ last_error r = None).
Proof.
  intros u t db db' c Hk H.
  apply claim_some_inv in H as (next & Hold & _ & -> & ->). simpl.
  apply oldest_in, queued_of_in in Hold as (Hin & Hu & Hst).
  assert (Hc : claim_cond (job_id next) next = true).
  { unfold claim_cond. now rewrite String.eqb_refl, Hst. }
  split.
  - exists (claim_set t next). split; auto.
    unfold sql_update. apply in_map_iff. exists next. now rewrite Hc.
  - intros r Hr Hid.
    apply sql_update_in in Hr as [[Hr Hcr]|(r0 & _ & _ & ->)]; [|now simpl].
    exfalso. rewrite (key_unique db r next Hk Hr Hin Hid) in Hcr. congruence.
Qed.

(** ** Enqueue and the derived job id *)

(** C5, as stated, fails: the job id contains the clock reading, so the same
    user and source message enqueued at two different milliseconds give two
    rows, and the second call returns its own id and its own [createdAt]. *)
Lemma C5_counterexample :
  let r1 := enqueueAnalysisJob uA mA t0 t0 [] in
  let r2 := enqueueAnalysisJob uA mA (t0 + 1) (t0 + 1) (snd r1) in
  List.length (snd r2) = 2%nat
  /\ fst (fst r2) <> fst (fst r1)
  /\ snd (fst r2) <> snd (fst r1).
Proof. vm_compute. repeat split; discriminate. Qed.

Lemma find_job_in_ids (j : string) (db : DB) :
  In j (map job_id db) -> exists r, find_job j db = Some r.
Proof.
  intros H. destruct (find_job j db) eqn:E; eauto.
  apply find_job_none in E. contradiction.
Qed.

Lemma find_job_app_new (j : string) (db : DB) (r : Job) :
  job_id r = j -> exists r', find_job j (db ++ [r])%list = Some r'.
Proof.
  intros H. apply find_job_in_ids. rewrite map_app. apply in_or_app. right. simpl. auto.
Qed.

Lemma enqueue_fresh (u m : string) (nowId now : Z) (db : DB) :
  ~ In (makeJobId u m nowId) (map job_id db) ->
  snd (enqueueAnalysisJob u m nowId now db)
  = (db ++ [mkJob (makeJobId u m nowId) u m now queued 0 None None None None])%list.
Proof.
  intros H. unfold enqueueAnalysisJob; simpl.
  destruct (find_job _ db) eqn:E; auto.
  apply find_job_some in E as [Hin He]. exfalso. apply H.
  rewrite <- He. now apply in_map.
Qed.

Lemma decimal_inj (a b : Z) : decimal a = decimal b -> a = b.
Proof.
  unfold decimal. intros H.
  apply (f_equal NilEmpty.int_of_string) in H. rewrite !NilEmpty.isi in H.
  inversion H as [E]. apply (f_equal Z.of_int) in E.
  now rewrite !DecimalZ.of_to in E.
Qed.

Lemma string_length_app (a b : string) :
  String.length (a ++ b) = (String.length a + String.length b)%nat.
Proof. induction a as [|c a IH]; simpl; auto. Qed.

Lemma append_cancel_r (a b s : string) : a ++ s = b ++ s -> a = b.
Proof.
  revert b. induction a as [|c a IH]; intros [|d b] H; simpl in *; auto.
  - exfalso. apply (f_equal String.length) in H. simpl in H.
    rewrite string_length_app in H. lia.
  - exfalso. apply (f_equal String.length) in H. simpl in H.
    rewrite string_length_app in H. lia.
  - inversion H. f_equal. now apply IH.
Qed.

(** The clock reading is part of the id: the same user and message at two
    different readings get two different ids. *)
Lemma makeJobId_clock (u m : string) (t t' : Z) :
  makeJobId u m t = makeJobId u m t' -> t = t'.
Proof.
  unfold makeJobId. intros H. apply append_cancel_r in H. now apply decimal_inj.
Qed.

(** C5, amended. The insert is idempotent on the derived job id: when the id
    built from (clock, last six characters of the user id, message id) is in
    the table, [enqueueAnalysisJob] leaves the table as it is; it always
    returns the id it has just derived and its own clock reading, whether or
    not a row was inserted.  A second call that reads the same clock values
    as the first changes nothing and returns the same pair; a second call
    for the same user and message at another clock reading derives another
    id and, that id being new, inserts a second row. *)
Theorem C5_enqueue_idempotent_on_job_id :
  forall (u m : string) (nowId now : Z) (db : DB),
    fst (enqueueAnalysisJob u m nowId now db) = (makeJobId u m nowId, now)
    /\ (In (makeJobId u m nowId) (map job_id db) ->
        snd (enqueueAnalysisJob u m nowId now db) = db)
    /\ (~ In (makeJobId u m nowId) (map job_id db) ->
        snd (enqueueAnalysisJob u m nowId now db) =
        (db ++ [mkJob (makeJobId u m nowId) u m now queued 0 None None None None])%list)
    /\ (let first := enqueueAnalysisJob u m nowId now db in
        enqueueAnalysisJob u m nowId now (snd first) = (fst first, snd first))
    /\ (forall nowId' now',
          nowId' <> nowId ->
          ~ In (makeJobId u m nowId) (map job_id db) ->
          ~ In (makeJobId u m nowId') (map job_id db) ->
          let first := enqueueAnalysisJob u m nowId now db in
          let second := enqueueAnalysisJob u m nowId' now' (snd first) in
          fst (fst second) <> fst (fst first)
          /\ List.length (snd second) = S (S (List.length db))).
Proof.
  intros u m nowId now db.
  split; [reflexivity|]. split; [|split; [|split]].
  - intros H. unfold enqueueAnalysisJob; simpl.
    apply find_job_in_ids in H as [r ->]. reflexivity.
  - apply enqueue_fresh.
  - unfold enqueueAnalysisJob; simpl. destruct (find_job _ db) eqn:E.
    + now rewrite E.
    + destruct (find_job_app_new (makeJobId u m nowId) db
                  (mkJob (makeJobId u m nowId) u m now queued 0 None None None None)
                  eq_refl) as [r' ->].
      reflexivity.
  - intros nowId' now' Hne H1 H2 first second.
    assert (Hid : makeJobId u m nowId' <> makeJobId u m nowId).
    { intros E. apply Hne. now apply makeJobId_clock in E. }
    split; [exact Hid|].
    unfold second, first. rewrite (enqueue_fresh u m nowId now db H1).
    rewrite enqueue_fresh.
    + rewrite !length_app. simpl. lia.
    + rewrite map_app. simpl. intros Hin.
      apply in_app_or in Hin as [Hin|[E|[]]]; [contradiction|].
      apply Hid. now rewrite E.
Qed.

(** ** Terminal states *)

(** C6, as stated, fails: [requeueJob] updates by [job_id] alone, so it
    moves a [done] job back to [queued]. *)
Lemma C6_counterexample :
  let db := run ops_done [] in
  option_map status (find_job jA db) = Some done
  /\ option_map status (find_job jA (step db (Requeue jA 1 "429"))) = Some queued.
Proof. vm_compute. split; reflexivity. Qed.

Lemma find_job_filter (j : string) (p : Job -> bool) (db : DB) (r r' : Job) :
  key_ok db -> find_job j db = Some r -> find_job j (filter p db) = Some r' -> r' = r.
Proof.
  intros Hk H H'. apply find_job_some in H as [Hin He].
  apply find_job_some in H' as [Hin' He'].
  apply filter_In in Hin' as [Hin' _].
  apply (key_unique db); auto. congruence.
Qed.

Lemma find_job_app_old (j : string) (db : DB) (x r : Job) :
  find_job j db = Some r -> find_job j (db ++ [x])%list = Some r.
Proof.
  unfold find_job. induction db as [|a db IH]; simpl; [discriminate|].
  destruct (job_id a =? j); auto.
Qed.

(** C6, amended. Under [claimNextQueuedJob], [markJobDone], [markJobError]
    (and [enqueueAnalysisJob]) a job that is [done] or [error] stays
    [done] or [error], or is deleted by pruning; the claim changes no
    terminal row at all, its update being conditional on
    [status = 'queued'].  [requeueJob] is left out: its update is not
    conditional on the status. *)
Theorem C6_terminal_final_except_requeue :
  forall (db : DB) (o : Op) (j : string) (r : Job),
    key_ok db ->
    (forall j' a e, o <> Requeue j' a e) ->
    find_job j db = Some r ->
    terminal (status r) ->
    match find_job j (step db o) with
    | Some r' => terminal (status r') /\ (forall u t, o = ClaimNext u t -> r' = r)
    | None => exists j' tf t, o = MarkDone j' tf t
    end.
Proof.
  intros db o j r Hk Hno Hf Ht. destruct o; simpl.
  - unfold enqueueAnalysisJob; simpl.
    destruct (find_job (makeJobId userId messageId nowId) db) eqn:E.
    + rewrite Hf. split; auto; discriminate.
    + rewrite (find_job_app_old _ _ _ _ Hf). split; auto; discriminate.
  - assert (Hsame : forall c f, (forall x, job_id (f x) = job_id x) ->
                      (forall x, c x = true -> status x = queued) ->
                      find_job j (sql_update c f db) = Some r).
    { intros c f Hid Hc. rewrite find_job_update, Hf by auto. simpl.
      destruct (c r) eqn:E; auto. apply Hc in E. destruct Ht; congruence. }
    unfold claimNextQueuedJob.
    destruct (0 <? _)%nat; simpl; [rewrite Hf; auto|].
    destruct (oldest _); simpl; [|rewrite Hf; auto].
    destruct (negb _); simpl; [rewrite Hf; auto|].
    assert (Hc : forall s x, claim_cond s x = true -> status x = queued).
    { intros s x Hx. apply andb_true_iff in Hx as [_ Hx]. now apply status_eqb_eq. }
    destruct (_ =? 0)%nat; simpl; rewrite Hsame; eauto.
  - exfalso. eapply Hno; reflexivity.
  - unfold markJobDone.
    assert (H1 : exists r1, find_job j (markJobDone_update jobId resultTF now db) = Some r1
                            /\ terminal (status r1)).
    { unfold markJobDone_update. rewrite find_job_update, Hf by auto. simpl.
      destruct (job_id r =? jobId); eexists; split; eauto. now left. }
    destruct H1 as (r1 & H1 & Ht1).
    destruct (find_job jobId _) as [row|].
    + destruct (truthy _).
      * unfold pruneDoneJobHistory.
        destruct (find_job j (filter _ _)) as [r'|] eqn:E; [|eauto].
        rewrite (find_job_filter _ _ _ _ _ (markDone_update_key_ok _ _ _ _ Hk) H1 E).
        split; auto; discriminate.
      * rewrite H1. split; auto; discriminate.
    + rewrite H1. split; auto; discriminate.
  - unfold markJobError. rewrite find_job_update, Hf by auto. simpl.
    split; [|discriminate]. destruct (job_id r =? jobId); auto. now right.
Qed.

(** ** Pruning of the completed history *)



Lemma insert_desc_perm (r : Job) (l : list Job) : Permutation (insert_desc r l) (r :: l).
Proof.
  induction l as [|x l IH]; simpl; auto.
  destruct (finished_geb r x); auto.
  rewrite IH. apply perm_swap.
Qed.

Lemma sort_desc_perm (l : list Job) : Permutation (sort_desc l) l.
Proof.
  induction l as [|r l IH]; simpl; auto.
  rewrite insert_desc_perm. now constructor.
Qed.




Lemma mem_string_in (s : string) (l : list string) : mem_string s l = true <-> In s l.
Proof.
  unfold mem_string. rewrite existsb_exists. split.
  - intros (x & Hx & E). apply String.eqb_eq in E. now subst.
  - intros H. exists s. split; auto. apply String.eqb_refl.
Qed.

Lemma filter_twice {A : Type} (p q : A -> bool) (l : list A) :
  filter p (filter q l) = filter (fun x => q x && p x) l.
Proof.
  induction l as [|a l IH]; simpl; auto.
  destruct (q a); simpl; [destruct (p a)|]; now rewrite IH.
Qed.

Lemma done_of_in (u : string) (db : DB) (r : Job) :
  In r (done_of u db) <-> In r db /\ user_id r = u /\ status r = done.
Proof.
  unfold done_of. rewrite filter_In, andb_true_iff, String.eqb_eq, status_eqb_eq.
  tauto.
Qed.

Lemma nodup_of_key (l : list Job) : NoDup (map job_id l) -> NoDup l.
Proof. apply NoDup_map_inv. Qed.

Lemma nodup_firstn {A : Type} (k : nat) (l : list A) : NoDup l -> NoDup (firstn k l).
Proof.
  intros H. rewrite <- (firstn_skipn k l) in H. now apply NoDup_app_remove_r in H.
Qed.

Lemma kept_rows_in_db (u : string) (k : nat) (db : DB) (r : Job) :
  In r (kept_rows u k db) -> In r db /\ user_id r = u /\ status r = done.
Proof.
  intros H. unfold kept_rows in H.
  assert (Hs : In r (sort_desc (done_of u db))).
  { rewrite <- (firstn_skipn (keep_of k)). apply in_or_app. now left. }
  apply (Permutation_in _ (sort_desc_perm _)) in Hs. now apply done_of_in.
Qed.

Lemma prune_done_rows (u : string) (k : nat) (db : DB) (r : Job) :
  key_ok db ->
  (In r (done_of u (pruneDoneJobHistory u k db)) <-> In r (kept_rows u k db)).
Proof.
  intros Hk. rewrite done_of_in. unfold pruneDoneJobHistory. fold (kept_rows u k db).
  rewrite filter_In. split.
  - intros ((Hin & Hkeep) & Hu & Hs).
    rewrite Hu, Hs, String.eqb_refl in Hkeep. simpl in Hkeep.
    rewrite negb_involutive in Hkeep. apply mem_string_in in Hkeep.
    apply in_map_iff in Hkeep as (s & Hid & Hsin).
    pose proof (kept_rows_in_db _ _ _ _ Hsin) as (Hsdb & _ & _).
    now rewrite <- (key_unique db s r Hk Hsdb Hin Hid).
  - intros H. pose proof (kept_rows_in_db _ _ _ _ H) as (Hin & Hu & Hs).
    repeat split; auto.
    rewrite Hu, Hs, String.eqb_refl. simpl. rewrite negb_involutive.
    apply mem_string_in. now apply in_map.
Qed.

Lemma prune_count (u : string) (k : nat) (db : DB) :
  key_ok db ->
  count_status u done (pruneDoneJobHistory u k db)
  = Nat.min (keep_of k) (count_status u done db).
Proof.
  intros Hk.
  change (count_status u done (pruneDoneJobHistory u k db))
    with (List.length (done_of u (pruneDoneJobHistory u k db))).
  change (count_status u done db) with (List.length (done_of u db)).
  rewrite <- (Permutation_length (sort_desc_perm (done_of u db))).
  rewrite <- length_firstn. fold (kept_rows u k db).
  apply Permutation_length, NoDup_Permutation.
  - apply nodup_of_key. unfold done_of. apply key_ok_filter.
    now apply prune_key_ok.
  - unfold kept_rows. apply nodup_firstn.
    eapply Permutation_NoDup; [symmetry; apply sort_desc_perm|].
    apply nodup_of_key. unfold done_of. now apply key_ok_filter.
  - intros r. now apply prune_done_rows.
Qed.


Lemma prune_frame (u : string) (k : nat) (db : DB) (r : Job) :
  (In r (pruneDoneJobHistory u k db) -> In r db)
  /\ (In r db -> status r <> done \/ user_id r <> u -> In r (pruneDoneJobHistory u k db)).
Proof.
  unfold pruneDoneJobHistory. split.
  - intros H. now apply filter_In in H.
  - intros Hin H. apply filter_In. split; auto.
    destruct H as [H|H].
    + replace (status_eqb (status r) done) with false.
      * now rewrite andb_false_r.
      * symmetry. apply not_true_iff_false. now rewrite status_eqb_eq.
    + replace (user_id r =? u) with false; auto.
      symmetry. now apply String.eqb_neq.
Qed.



Lemma truthy_neq (u : string) : truthy u = true -> u <> "".
Proof. unfold truthy. intros H E. subst. discriminate. Qed.




(** ** First in, first out *)

Lemma oldest_none (rows : list Job) : oldest rows = None -> rows = [].
Proof.
  destruct rows as [|r rows]; simpl; auto.
  destruct (oldest rows); [destruct (_ <=? _)%Z|]; discriminate.
Qed.

(** [oldest] returns the first row among those of least [created_at]. *)
Lemma oldest_spec (rows : list Job) (m : Job) :
  oldest rows = Some m ->
  exists l1 l2, rows = (l1 ++ m :: l2)%list
    /\ (forall x, In x l1 -> (created_at m < created_at x)%Z)
    /\ (forall x, In x l2 -> (created_at m <= created_at x)%Z).
Proof.
  revert m. induction rows as [|r rows IH]; simpl; intros m H; [discriminate|].
  destruct (oldest rows) as [m'|] eqn:E.
  - destruct (IH m' eq_refl) as (l1 & l2 & -> & H1 & H2).
    destruct (Z.leb_spec (created_at r) (created_at m')); inversion H; subst.
    + exists [], (l1 ++ m' :: l2)%list. repeat split; simpl; auto; [contradiction|].
      intros x Hx. apply in_app_or in Hx as [Hx|[<-|Hx]].
      * specialize (H1 x Hx). lia.
      * lia.
      * specialize (H2 x Hx). lia.
    + exists (r :: l1), l2. repeat split; auto.
      intros x [<-|Hx]; auto.
  - apply oldest_none in E. subst. inversion H; subst.
    exists [], []. repeat split; simpl; auto; contradiction.
Qed.

Lemma oldest_head (r : Job) (rest : list Job) :
  (forall x, In x rest -> (created_at r <= created_at x)%Z) ->
  oldest (r :: rest) = Some r.
Proof.
  intros H. simpl. destruct (oldest rest) as [m|] eqn:E; auto.
  apply oldest_in in E. apply H in E. apply Z.leb_le in E. now rewrite E.
Qed.

Lemma key_split (db : DB) (r : Job) :
  key_ok db -> In r db ->
  exists l1 l2, db = (l1 ++ r :: l2)%list
    /\ (forall x, In x l1 \/ In x l2 -> job_id x <> job_id r).
Proof.
  intros Hk Hin. apply in_split in Hin as (l1 & l2 & ->).
  exists l1, l2. split; auto.
  unfold key_ok in Hk. rewrite map_app in Hk. simpl in Hk.
  apply NoDup_remove_2 in Hk.
  intros x Hx E. apply Hk. rewrite <- E. apply in_or_app.
  destruct Hx; [left|right]; now apply in_map.
Qed.

Lemma update_split (c : Job -> bool) (f : Job -> Job) (l1 l2 : list Job) (r : Job) :
  (forall x, c x = true -> job_id x = job_id r) ->
  (forall x, In x l1 \/ In x l2 -> job_id x <> job_id r) ->
  sql_update c f (l1 ++ r :: l2)%list = (l1 ++ (if c r then f r else r) :: l2)%list.
Proof.
  intros Hc Hne. unfold sql_update. rewrite map_app. simpl.
  fold (sql_update c f l1). fold (sql_update c f l2).
  rewrite !sql_update_none; auto.
  - intros x Hx. destruct (c x) eqn:E; auto. exfalso. apply (Hne x); auto.
  - intros x Hx. destruct (c x) eqn:E; auto. exfalso. apply (Hne x); auto.
Qed.

Lemma markDone_as_filter (j tf : string) (t : Z) (db : DB) :
  exists p, markJobDone j tf t db = filter p (markJobDone_update j tf t db)
            /\ forall x, status x <> done -> p x = true.
Proof.
  unfold markJobDone.
  assert (Hid : exists p, markJobDone_update j tf t db
                          = filter p (markJobDone_update j tf t db)
                          /\ forall x, status x <> done -> p x = true).
  { exists (fun _ => true). split; auto.
    symmetry. apply forallb_filter_id. now apply forallb_forall. }
  destruct (find_job _ _) as [row|]; auto.
  destruct (truthy _); auto.
  eexists. split; [reflexivity|]. intros x Hx. simpl.
  replace (status_eqb (status x) done) with false; [now rewrite andb_false_r|].
  symmetry. apply not_true_iff_false. now rewrite status_eqb_eq.
Qed.

Lemma filter_frame (u : string) (st : Status) (p : Job -> bool) (db : DB) :
  st <> done ->
  (forall x, status x <> done -> p x = true) ->
  filter (fun r => (user_id r =? u) && status_eqb (status r) st) (filter p db)
  = filter (fun r => (user_id r =? u) && status_eqb (status r) st) db.
Proof.
  intros Hst Hp. rewrite filter_twice. apply filter_ext. intros x.
  destruct (status_eqb (status x) st) eqn:E; [|now rewrite !andb_false_r].
  apply status_eqb_eq in E. rewrite Hp by congruence. reflexivity.
Qed.

(** The claim on a table whose queue for the user has its oldest row in
    front: the table splits around that row, which alone is rewritten. *)
Lemma claim_head (u : string) (t : Z) (db : DB) (r : Job) (rest : list Job) :
  key_ok db ->
  count_status u processing db = 0%nat ->
  queued_of u db = r :: rest ->
  (forall x, In x rest -> (created_at r <= created_at x)%Z) ->
  job_id r <> "" ->
  exists l1 l2,
    db = (l1 ++ r :: l2)%list
    /\ (forall x, In x l1 \/ In x l2 -> job_id x <> job_id r)
    /\ user_id r = u /\ status r = queued
    /\ queued_of u l1 = [] /\ queued_of u l2 = rest
    /\ count_status u processing l1 = 0%nat
    /\ count_status u processing l2 = 0%nat
    /\ claimNextQueuedJob u t db
       = (Some (mkClaimed (job_id r) (message_id r) (created_at r) (attempt r) t),
          (l1 ++ claim_set t r :: l2)%list).
Proof.
  intros Hk Hp Hq Hle Hne.
  assert (Hr : In r (queued_of u db)) by (rewrite Hq; now left).
  apply queued_of_in in Hr as (Hin & Hu & Hst).
  destruct (key_split db r Hk Hin) as (l1 & l2 & Hdb & Hids).
  assert (Hc : forall x, claim_cond (job_id r) x = true -> job_id x = job_id r).
  { intros x Hx. apply andb_true_iff in Hx as [Hx _]. now apply String.eqb_eq. }
  assert (Hcr : claim_cond (job_id r) r = true).
  { unfold claim_cond. now rewrite String.eqb_refl, Hst. }
  assert (Hur : (user_id r =? u) && status_eqb (status r) queued = true).
  { now rewrite Hu, Hst, String.eqb_refl. }
  assert (Hq1 : queued_of u l1 = [] /\ queued_of u l2 = rest).
  { unfold queued_of in *. rewrite Hdb, filter_app in Hq. simpl in Hq.
    rewrite Hur in Hq.
    destruct (filter _ l1) as [|x l] eqn:E; simpl in Hq.
    - inversion Hq. auto.
    - exfalso. inversion Hq; subst x.
      assert (Hx : In r (filter (fun r0 => (user_id r0 =? u)
                                  && status_eqb (status r0) queued) l1))
        by (rewrite E; now left).
      apply filter_In in Hx as [Hx _]. apply (Hids r); auto. }
  destruct Hq1 as [Hq1 Hq2].
  assert (Hp12 : count_status u processing l1 = 0%nat
                 /\ count_status u processing l2 = 0%nat).
  { rewrite Hdb, count_status_app, count_status_cons in Hp. lia. }
  exists l1, l2. repeat split; auto; try tauto.
  unfold claimNextQueuedJob. rewrite Hp. simpl.
  rewrite Hq, (oldest_head r rest Hle).
  unfold truthy. apply String.eqb_neq in Hne. rewrite Hne. simpl.
  replace (sql_changes (claim_cond (job_id r)) db =? 0)%nat with false.
  - rewrite Hdb, (update_split _ _ _ _ _ Hc Hids), Hcr. reflexivity.
  - symmetry. apply Nat.eqb_neq. unfold sql_changes.
    assert (Hf : In r (filter (claim_cond (job_id r)) db))
      by (apply filter_In; auto).
    destruct (filter _ db); simpl; [contradiction|lia].
Qed.

Lemma key_ok_replace (l1 l2 : list Job) (r r' : Job) :
  job_id r' = job_id r ->
  key_ok (l1 ++ r :: l2)%list -> key_ok (l1 ++ r' :: l2)%list.
Proof. unfold key_ok. rewrite !map_app. simpl. now intros ->. Qed.

(** An update selected by the id of the middle row rewrites that row only. *)
Lemma update_by_id_split (f : Job -> Job) (l1 l2 : list Job) (r : Job) :
  (forall x, In x l1 \/ In x l2 -> job_id x <> job_id r) ->
  sql_update (fun x => job_id x =? job_id r) f (l1 ++ r :: l2)%list
  = (l1 ++ f r :: l2)%list.
Proof.
  intros Hids. rewrite (update_split _ _ l1 l2 r); auto.
  - now rewrite String.eqb_refl.
  - intros x Hx. now apply String.eqb_eq.
Qed.

(** One claim + [markJobDone] cycle takes the head of a sorted queue. *)
Lemma cycle_head (u tf : string) (tc td : Z) (db : DB) (r : Job) (rest : list Job) :
  key_ok db ->
  count_status u processing db = 0%nat ->
  queued_of u db = r :: rest ->
  (forall x, In x rest -> (created_at r <= created_at x)%Z) ->
  job_id r <> "" ->
  exists db1,
    claimNextQueuedJob u tc db
    = (Some (mkClaimed (job_id r) (message_id r) (created_at r) (attempt r) tc), db1)
    /\ key_ok (markJobDone (job_id r) tf td db1)
    /\ count_status u processing (markJobDone (job_id r) tf td db1) = 0%nat
    /\ queued_of u (markJobDone (job_id r) tf td db1) = rest.
Proof.
  intros Hk Hp Hq Hle Hne.
  destruct (claim_head u tc db r rest Hk Hp Hq Hle Hne)
    as (l1 & l2 & Hdb & Hids & Hu & Hst & Hq1 & Hq2 & Hp1 & Hp2 & Hclaim).
  exists (l1 ++ claim_set tc r :: l2)%list. split; [exact Hclaim|].
  assert (Hk1 : key_ok (l1 ++ claim_set tc r :: l2)%list).
  { rewrite Hdb in Hk. now apply (key_ok_replace l1 l2 r). }
  split; [now apply markDone_key_ok|].
  destruct (markDone_as_filter (job_id r) tf td (l1 ++ claim_set tc r :: l2)%list)
    as (p & -> & Hpf).
  unfold markJobDone_update.
  rewrite (update_by_id_split _ l1 l2 (claim_set tc r) Hids). split.
  - unfold count_status. rewrite filter_frame by (auto; discriminate).
    fold (count_status u processing (l1 ++ done_set td tf (claim_set tc r) :: l2)%list).
    rewrite count_status_app, count_status_cons. simpl.
    rewrite andb_false_r. lia.
  - unfold queued_of. rewrite filter_frame by (auto; discriminate).
    rewrite filter_app. simpl. rewrite andb_false_r.
    fold (queued_of u l1). fold (queued_of u l2). now rewrite Hq1, Hq2.
Qed.

(** Draining a queue sorted by [created_at] claims its jobs in table order
    and leaves the user with nothing pending. *)
Lemma drain_fifo (u : string) (q : list Job) :
  forall (cycles : list (Z * Z * string)) (db : DB),
    key_ok db ->
    count_status u processing db = 0%nat ->
    queued_of u db = q ->
    StronglySorted by_created q ->
    (forall x, In x q -> job_id x <> "") ->
    List.length cycles = List.length q ->
    fst (drain u cycles db) = map job_id q
    /\ queued_of u (snd (drain u cycles db)) = []
    /\ count_status u processing (snd (drain u cycles db)) = 0%nat.
Proof.
  induction q as [|r rest IH]; intros cycles db Hk Hp Hq Hs Hne Hlen.
  - destruct cycles; [|discriminate]. simpl. auto.
  - destruct cycles as [|[[tc td] tf] cycles]; [discriminate|].
    inversion Hs as [|? ? Hs' Hall]; subst.
    rewrite Forall_forall in Hall.
    destruct (cycle_head u tf tc td db r rest Hk Hp Hq Hall)
      as (db1 & Hclaim & Hk2 & Hp2 & Hq2); [apply Hne; now left|].
    simpl. rewrite Hclaim. simpl.
    specialize (IH cycles (markJobDone (job_id r) tf td db1) Hk2 Hp2 Hq2 Hs').
    destruct IH as (Hids & Hq3 & Hp3).
    + intros x Hx. apply Hne. now right.
    + simpl in Hlen. lia.
    + destruct (drain u cycles _) as [ids db3]. simpl in *.
      rewrite Hids. auto.
Qed.

Lemma makeJobId_nonempty (u m : string) (t : Z) : makeJobId u m t <> "".
Proof. unfold makeJobId. destruct (decimal t); simpl; discriminate. Qed.

Lemma count_zero_nil (u : string) (st : Status) (db : DB) :
  count_status u st db = 0%nat ->
  filter (fun r => (user_id r =? u) && status_eqb (status r) st) db = [].
Proof. unfold count_status. now destruct (filter _ db). Qed.

Lemma claim_selects_oldest (u : string) (t : Z) (db db' : DB) (c : Claimed) :
  claimNextQueuedJob u t db = (Some c, db') ->
  exists l1 next l2,
    queued_of u db = (l1 ++ next :: l2)%list
    /\ c_job_id c = job_id next
    /\ (forall x, In x l1 -> (created_at next < created_at x)%Z)
    /\ (forall x, In x l2 -> (created_at next <= created_at x)%Z).
Proof.
  intros H. apply claim_some_inv in H as (next & Hold & _ & -> & _).
  apply oldest_spec in Hold as (l1 & l2 & Hq & H1 & H2).
  exists l1, next, l2. auto.
Qed.

(** C2. Jobs A, B, C enqueued in that order for a user with nothing pending,
    with clock readings that do not go backwards, are claimed (and each one
    completed before the next claim) in the order A, B, C by three
    claim + [markJobDone] cycles, after which nothing is pending; and a
    successful claim always takes, among the user's [queued] rows, the one of
    least [created_at], the first inserted among equals. *)
Theorem C2_fifo_order :
  (forall (db : DB) (u mA mB mC : string) (iA iB iC cA cB cC : Z)
          (cycles : list (Z * Z * string)),
      let idA := makeJobId u mA iA in
      let idB := makeJobId u mB iB in
      let idC := makeJobId u mC iC in
      let db3 := run [Enqueue u mA iA cA; Enqueue u mB iB cB; Enqueue u mC iC cC] db in
      key_ok db ->
      count_status u queued db = 0%nat ->
      count_status u processing db = 0%nat ->
      NoDup [idA; idB; idC] ->
      (forall id, In id [idA; idB; idC] -> ~ In id (map job_id db)) ->
      (cA <= cB)%Z -> (cB <= cC)%Z ->
      List.length cycles = 3%nat ->
      fst (drain u cycles db3) = [idA; idB; idC]
      /\ count_status u queued (snd (drain u cycles db3)) = 0%nat
      /\ count_status u processing (snd (drain u cycles db3)) = 0%nat)
  /\ (forall (u : string) (t : Z) (db db' : DB) (c : Claimed),
         claimNextQueuedJob u t db = (Some c, db') ->
         exists l1 next l2,
           queued_of u db = (l1 ++ next :: l2)%list
           /\ c_job_id c = job_id next
           /\ (forall x, In x l1 -> (created_at next < created_at x)%Z)
           /\ (forall x, In x l2 -> (created_at next <= created_at x)%Z)).
Proof.
  split; [|apply claim_selects_oldest].
  intros db u mA mB mC iA iB iC cA cB cC cycles idA idB idC db3
         Hk Hq Hp Hnd Hfresh HAB HBC Hlen.
  set (A := mkJob idA u mA cA queued 0 None None None None).
  set (B := mkJob idB u mB cB queued 0 None None None None).
  set (C := mkJob idC u mC cC queued 0 None None None None).
  inversion Hnd as [|? ? HnA Hnd1]; subst.
  inversion Hnd1 as [|? ? HnB _]; subst.
  assert (Hdb3 : db3 = (db ++ [A; B; C])%list).
  { unfold db3, run. cbn [fold_left step].
    rewrite (enqueue_fresh u mA iA cA db) by (apply Hfresh; simpl; auto).
    fold idA. fold A.
    rewrite (enqueue_fresh u mB iB cB (db ++ [A])%list).
    2: { rewrite map_app. simpl. intros Hin.
         apply in_app_or in Hin as [Hin|[E|[]]].
         - apply (Hfresh idB); simpl; auto.
         - apply HnA. fold idB in E. rewrite E. simpl; auto. }
    fold idB. fold B.
    rewrite (enqueue_fresh u mC iC cC ((db ++ [A]) ++ [B])%list).
    2: { rewrite !map_app. simpl. intros Hin.
         apply in_app_or in Hin as [Hin|[E|[]]].
         - apply in_app_or in Hin as [Hin|[E|[]]].
           + apply (Hfresh idC); simpl; auto.
           + apply HnA. fold idC in E. rewrite E. simpl; auto.
         - apply HnB. fold idC in E. rewrite E. simpl; auto. }
    fold idC. fold C.
    rewrite <- !app_assoc. reflexivity. }
  assert (Hq3 : queued_of u db3 = [A; B; C]).
  { rewrite Hdb3. unfold queued_of. rewrite filter_app.
    rewrite (count_zero_nil _ _ _ Hq). simpl.
    now rewrite String.eqb_refl. }
  assert (Hp3 : count_status u processing db3 = 0%nat).
  { rewrite Hdb3, count_status_app, Hp. unfold count_status. simpl.
    now rewrite !andb_false_r. }
  destruct (drain_fifo u [A; B; C] cycles db3) as (Hids & Hq' & Hp'); auto.
  - unfold db3. now apply run_key_ok.
  - repeat constructor; unfold by_created; simpl; lia.
  - intros x [<-|[<-|[<-|[]]]]; simpl; apply makeJobId_nonempty.
  - split; [exact Hids|]. split; auto.
    unfold count_status. fold (queued_of u (snd (drain u cycles db3))).
    now rewrite Hq'.
Qed.

(** * The duration estimator *)





(** ** Doubles that stay numbers *)














(** ** Durations that are exact *)















(** * The background processors *)







(** ** Timeouts *)

(** C4 at its failing input.  With the default cap of three attempts and an
    analysis call that always times out, [handleInternalAnalyze] of
    [src/worker.js] requeues the job three times and then marks it [error];
    [handleInternalAnalyze] of [src/handlers.js] claims the job and never
    analyses it, so that it stays [processing] however often the endpoint is
    invoked.  [performAnalysisInBackground], given the claimed job, completes
    it with the fallback in one call. *)
Theorem C4_timeout_paths :
  let invs := map timed_out [t0 + 1000; t0 + 30000; t0 + 60000;
                             t0 + 90000; t0 + 120000]%Z in
  (* src/worker.js *)
  option_map (fun r => (status r, attempt r))
    (find_job jA (jobs (WorkerJs.chain env0 req0 (firstn 3 invs) one_job)))
  = Some (queued, 3%Z)
  /\ option_map (fun r => (status r, attempt r))
       (find_job jA (jobs (WorkerJs.chain env0 req0 (firstn 4 invs) one_job)))
     = Some (error, 3%Z)
  (* src/handlers.js, the entry point *)
  /\ option_map status
       (find_job jA (jobs (HandlersJs.chain env0 req0 invs one_job)))
     = Some processing
  (* src/handlers.js, the function that is never called *)
  /\ (let '(job, jobs1) := claimNextQueuedJob uA (t0 + 1000) (jobs one_job) in
      match job with
      | Some c =>
          option_map status
            (find_job jA (jobs (fst (HandlersJs.performAnalysisInBackground
                                       uA c 3 (timed_out (t0 + 1000))
                                       (mkState jobs1 [])))))
      | None => None
      end = Some done).
Proof. vm_compute. repeat split; reflexivity. Qed.

(** The sibling path: for any claimed job and any state,
    [performAnalysisInBackground] answers a timeout by storing a result (the
    one of the recovery pass, or the fallback) and calling [markJobDone]; it
    neither requeues the job nor marks it [error]. *)
Lemma handlers_timeout_completes (u : string) (job : Claimed) (cap : Z)
      (inv : Invocation) (s : State) (err : JsError) :
  (getContentFromLine inv = None \/ cached_image inv = true) ->
  analysis inv = Failure err ->
  is_timeout err = true ->
  exists a,
    HandlersJs.performAnalysisInBackground u job cap inv s
    = store_and_complete u job a (now_end inv) s
    /\ jobs (fst (HandlersJs.performAnalysisInBackground u job cap inv s))
       = markJobDone (c_job_id job) (detectedTF_of a) (now_end inv) (jobs s).
Proof.
  intros Hsrc Han Hto. unfold HandlersJs.performAnalysisInBackground.
  rewrite Han, Hto.
  destruct (getContentFromLine inv) as [e|], (cached_image inv);
    try (destruct Hsrc; discriminate);
    eexists; split; reflexivity.
Qed.

(** Once a job of the user is [processing], the entry point of
    [src/handlers.js] answers 200, changes no job and triggers nothing. *)
Lemma handlers_entry_busy (env : Env) (req : Request) (inv : Invocation) (s : State)
      (u : string) :
  request_for env req u ->
  (0 < count_status u processing (jobs s))%nat ->
  exists s', HandlersJs.handleInternalAnalyze env req inv s = (200%nat, s', false)
             /\ jobs s' = jobs s.
Proof.
  intros (Ha & Hb & Ht) Hbusy. unfold HandlersJs.handleInternalAnalyze.
  rewrite Ha, Hb, Ht. simpl. rewrite (claim_none_when_busy _ _ _ Hbusy).
  eexists. split; reflexivity.
Qed.

(** ** Results that ask for fresher timeframes *)

(** C7 at its failing input.  A first image of a user with nothing pending
    takes the foreground fast path of [handleEvent] in [src/worker.js]; the
    analysis asks for a fresh H4 chart.  The handler replies with the
    warning and returns: nothing is stored, the job stays [processing], and
    the next image of the user is acknowledged but never claimed. *)
Theorem C7_fast_path_leaves_job_processing :
  let '(reply, s1, again) :=
    WorkerJs.handleEvent_image uA mA t0 t0
      (answered (t0 + 100) wants_H4) (mkState [] []) in
  let '(reply2, s2, again2) :=
    WorkerJs.handleEvent_image uA mB (t0 + 50000) (t0 + 50000)
      (answered (t0 + 50100) no_result) s1 in
  let '(code, s3, _) :=
    WorkerJs.handleInternalAnalyze env0 req0 (answered (t0 + 50200) no_result) s2 in
  reply = WorkerJs.StaleDataWarning
  /\ logs s1 = []
  /\ option_map status (find_job jA (jobs s1)) = Some processing
  /\ again = false
  /\ reply2 = WorkerJs.QueueAck
  /\ code = 200%nat
  /\ option_map status (find_job jA (jobs s3)) = Some processing
  /\ option_map status (find_job jB (jobs s3)) = Some queued.
Proof. vm_compute. repeat split; reflexivity. Qed.

Lemma obj_get_set_same (k v : string) (o : Obj) : obj_get k (obj_set k v o) = Some v.
Proof.
  induction o as [|[k' v'] o IH]; simpl.
  - now rewrite String.eqb_refl.
  - destruct (k' =? k) eqn:E; simpl.
    + now rewrite String.eqb_refl.
    + now rewrite E.
Qed.

Lemma obj_get_set_other (k k0 v : string) (o : Obj) :
  k0 <> k -> obj_get k0 (obj_set k v o) = obj_get k0 o.
Proof.
  intros Hne. induction o as [|[k' v'] o IH]; simpl.
  - apply String.eqb_neq in Hne. rewrite String.eqb_sym. now rewrite Hne.
  - destruct (k' =? k) eqn:E; simpl.
    + apply String.eqb_eq in E. subst k'.
      replace (k =? k0) with false; auto.
      symmetry. apply String.eqb_neq. congruence.
    + now rewrite IH.
Qed.

Lemma save_find_same (u tf : string) (t : Z) (d : Stored) (l : Logs) :
  find (same_key u tf) (saveAnalysis u tf t d l) = Some (mkRow u tf t d).
Proof.
  assert (Hnew : same_key u tf (mkRow u tf t d) = true).
  { unfold same_key. simpl. now rewrite !String.eqb_refl. }
  unfold saveAnalysis. destruct (existsb _ l) eqn:E.
  - induction l as [|r l IH]; simpl in *; [discriminate|].
    destruct (same_key u tf r) eqn:Er; simpl.
    + now rewrite Hnew.
    + rewrite Er. auto.
  - induction l as [|r l IH]; simpl in *.
    + now rewrite Hnew.
    + apply orb_false_iff in E as [Er E]. rewrite Er. auto.
Qed.

Lemma save_find_other (u tf tf' : string) (t : Z) (d : Stored) (l : Logs) :
  tf' <> tf ->
  find (same_key u tf') (saveAnalysis u tf t d l) = find (same_key u tf') l.
Proof.
  intros Hne.
  assert (Hnew : same_key u tf' (mkRow u tf t d) = false).
  { unfold same_key. simpl. apply andb_false_iff. right.
    apply String.eqb_neq. congruence. }
  assert (Hex : forall r, same_key u tf r = true -> same_key u tf' r = false).
  { intros r Hr. unfold same_key in *. apply andb_true_iff in Hr as [_ Hr].
    apply String.eqb_eq in Hr. apply andb_false_iff. right.
    apply String.eqb_neq. congruence. }
  unfold saveAnalysis. destruct (existsb _ l).
  - induction l as [|r l IH]; simpl; auto.
    destruct (same_key u tf r) eqn:Er.
    + rewrite Hnew, (Hex r Er). exact IH.
    + destruct (same_key u tf' r); auto.
  - induction l as [|r l IH]; simpl.
    + now rewrite Hnew.
    + destruct (same_key u tf' r); auto.
Qed.

(** The background processors, on a result that asks for fresher
    timeframes: the result is stored under its timeframe with the
    recommendation forced to WAIT / Low and the explanation appended to the
    trace, and the job goes through [markJobDone]. *)
Lemma background_request_update_is_success (u : string) (job : Claimed)
      (a : AnalysisResult) (tf : string) (tfs : list string) (now : Z) (s : State) :
  request_update_for_tf a = RequestList (tf :: tfs) ->
  detectedTF_of a <> "_JOB" ->
  let s' := fst (store_and_complete u job a now s) in
  (exists st,
      find (same_key u (detectedTF_of a)) (logs s')
      = Some (mkRow u (detectedTF_of a) now (Analysis st))
      /\ obj_get "action" (st_trade_setup st) = Some "WAIT"
      /\ obj_get "confidence" (st_trade_setup st) = Some "Low"
      /\ last (st_reasoning_trace st) "" = wait_trace (tf :: tfs))
  /\ jobs s' = markJobDone (c_job_id job) (detectedTF_of a) now (jobs s).
Proof.
  intros Hreq Hne s'. unfold s', store_and_complete. cbn [fst jobs logs].
  split; [|reflexivity].
  exists (build_toStore a). rewrite save_find_other by exact Hne.
  rewrite save_find_same. split; [reflexivity|].
  unfold build_toStore. rewrite Hreq. cbn [st_trade_setup st_reasoning_trace].
  split; [|split].
  - rewrite obj_get_set_other by discriminate. apply obj_get_set_same.
  - apply obj_get_set_same.
  - apply last_last.
Qed.

Lemma worker_success_stores (env : Env) (u : string) (job : Claimed) (inv : Invocation)
      (s : State) (a : AnalysisResult) :
  getContentFromLine inv = None -> analysis inv = Success a ->
  WorkerJs.background env u job inv s = store_and_complete u job a (now_end inv) s.
Proof. intros Hf Ha. unfold WorkerJs.background. now rewrite Hf, Ha. Qed.

Lemma handlers_success_stores (u : string) (job : Claimed) (cap : Z) (inv : Invocation)
      (s : State) (a : AnalysisResult) :
  getContentFromLine inv = None -> analysis inv = Success a ->
  HandlersJs.performAnalysisInBackground u job cap inv s
  = store_and_complete u job a (now_end inv) s.
Proof.
  intros Hf Ha. unfold HandlersJs.performAnalysisInBackground.
  rewrite Hf, Ha. now destruct (cached_image inv).
Qed.

(** * Instances *)


Lemma C2_witness :
  fst (drain uA [(t0 + 100, t0 + 9000, "H4"); (t0 + 9100, t0 + 18000, "H1");
                 (t0 + 18100, t0 + 27000, "M15")]%Z
         (run [Enqueue uA "m1" t0 t0; Enqueue uA "m2" t0 t0; Enqueue uA "m3" (t0 + 1) (t0 + 1)]
              []))
  = [makeJobId uA "m1" t0; makeJobId uA "m2" t0; makeJobId uA "m3" (t0 + 1)].
Proof.
  destruct C2_fifo_order as [H _].
  apply (H [] uA "m1" "m2" "m3" t0 t0 (t0 + 1)%Z t0 t0 (t0 + 1)%Z).
  - constructor.
  - reflexivity.
  - reflexivity.
  - vm_compute. repeat constructor; simpl; intuition discriminate.
  - intros id _ [].
  - unfold t0. lia.
  - unfold t0. lia.
  - reflexivity.
Defined.


Lemma C5_witness :
  In jA (map job_id (jobs one_job))
  /\ snd (enqueueAnalysisJob uA mA t0 (t0 + 7) (jobs one_job)) = jobs one_job.
Proof.
  assert (Hin : In jA (map job_id (jobs one_job))) by (vm_compute; left; reflexivity).
  split; [exact Hin|].
  destruct (C5_enqueue_idempotent_on_job_id uA mA t0 (t0 + 7)%Z (jobs one_job))
    as (_ & H & _).
  apply H. exact Hin.
Defined.

Lemma C6_witness :
  find_job jA (run ops_done []) = Some rowA_done
  /\ match find_job jA (step (run ops_done []) (MarkError jA "late failure" (t0 + 30000))) with
     | Some r' => terminal (status r')
     | None => False
     end.
Proof.
  assert (Hf : find_job jA (run ops_done []) = Some rowA_done) by (vm_compute; reflexivity).
  split; [exact Hf|].
  pose proof (C6_terminal_final_except_requeue (run ops_done [])
                (MarkError jA "late failure" (t0 + 30000)%Z) jA rowA_done) as H.
  assert (Hk : key_ok (run ops_done [])).
  { vm_compute. repeat constructor. intros []. }
  specialize (H Hk).
  assert (Hno : forall j' a e,
             MarkError jA "late failure" (t0 + 30000)%Z <> Requeue j' a e)
    by (intros; discriminate).
  specialize (H Hno Hf (or_introl eq_refl)).
  destruct (find_job jA (step (run ops_done []) (MarkError jA "late failure" (t0 + 30000)%Z))).
  - apply H.
  - destruct H as (j' & tf & t & H). discriminate.
Defined.



Lemma C10_witness :
  option_map last_error (find_job jA (run ops_requeued [])) = Some (Some "HTTP 503")
  /\ option_map last_error
       (find_job jA (snd (claimNextQueuedJob uA (t0 + 5000) (run ops_requeued []))))
     = Some None.
Proof.
  split; [vm_compute; reflexivity|].
  destruct (C10_claim_resets_last_error uA (t0 + 5000)%Z (run ops_requeued [])
              (snd (claimNextQueuedJob uA (t0 + 5000) (run ops_requeued [])))
              (mkClaimed jA mA t0 1 (t0 + 5000)%Z)) as [_ H].
  - vm_compute. repeat constructor. intros [].
  - vm_compute. reflexivity.
  - destruct (find_job jA (snd (claimNextQueuedJob uA (t0 + 5000) (run ops_requeued []))))
      as [r|] eqn:E.
    + apply find_job_some in E as [Hin Hid]. simpl. f_equal.
      apply (H r Hin Hid).
    + vm_compute in E. discriminate.
Defined.

(** * Further properties of the job store *)

Lemma oldest_some (rows : list Job) : rows <> [] -> exists m, oldest rows = Some m.
Proof.
  intros H. destruct (oldest rows) eqn:E; eauto.
  apply oldest_none in E. contradiction.
Qed.

(** The converse of [oldest_spec]. *)
Lemma oldest_char (a b : list Job) (m : Job) :
  (forall x, In x a -> (created_at m < created_at x)%Z) ->
  (forall x, In x b -> (created_at m <= created_at x)%Z) ->
  oldest (a ++ m :: b)%list = Some m.
Proof.
  intros Ha Hb. induction a as [|x a IH]; simpl.
  - apply oldest_head. exact Hb.
  - fold (oldest (a ++ m :: b)%list). rewrite IH by (intros; apply Ha; now right).
    assert (H : (created_at m < created_at x)%Z) by (apply Ha; now left).
    destruct (Z.leb_spec (created_at x) (created_at m)); [lia|reflexivity].
Qed.

Lemma sql_changes_zero (c : Job -> bool) (f : Job -> Job) (db : DB) :
  sql_changes c db = 0%nat -> sql_update c f db = db.
Proof.
  unfold sql_changes. intros H. apply sql_update_none. intros r Hr.
  destruct (c r) eqn:E; auto. exfalso.
  assert (Hin : In r (filter c db)) by (apply filter_In; auto).
  destruct (filter c db); [contradiction|discriminate].
Qed.

(** A claim that returns nothing leaves the table as it was. *)
Lemma claim_none_unchanged (u : string) (t : Z) (db db' : DB) :
  claimNextQueuedJob u t db = (None, db') -> db' = db.
Proof.
  unfold claimNextQueuedJob.
  destruct (0 <? _)%nat; [intros H; now inversion H|].
  destruct (oldest _) as [next|]; [|intros H; now inversion H].
  destruct (negb _); [intros H; now inversion H|].
  destruct (_ =? 0)%nat eqn:E; [|discriminate].
  intros H. inversion H. apply Nat.eqb_eq in E. now apply sql_changes_zero.
Qed.

(** The claim, when the user is free and [next] is the oldest queued row. *)
Lemma claim_of_oldest (u : string) (t : Z) (db : DB) (next : Job) :
  count_status u processing db = 0%nat ->
  oldest (queued_of u db) = Some next ->
  job_id next <> "" ->
  claimNextQueuedJob u t db
  = (Some (mkClaimed (job_id next) (message_id next) (created_at next) (attempt next) t),
     sql_update (claim_cond (job_id next)) (claim_set t) db).
Proof.
  intros Hp Hold Hne. unfold claimNextQueuedJob. rewrite Hp, Hold. simpl.
  unfold truthy. apply String.eqb_neq in Hne. rewrite Hne. simpl.
  replace (sql_changes (claim_cond (job_id next)) db =? 0)%nat with false; auto.
  symmetry. apply Nat.eqb_neq. unfold sql_changes.
  apply oldest_in, queued_of_in in Hold as (Hin & Hu & Hst).
  assert (Hf : In next (filter (claim_cond (job_id next)) db)).
  { apply filter_In. split; auto. unfold claim_cond.
    now rewrite String.eqb_refl, Hst. }
  destruct (filter _ db); simpl; [contradiction|lia].
Qed.

(** X1. Progress of the claim: on a table whose ids are non-empty,
    [claimNextQueuedJob] returns a job exactly when the user has no
    [processing] job and at least one [queued] job. *)
Theorem X1_claim_succeeds_iff_free_and_queued :
  forall (u : string) (t : Z) (db : DB),
    ids_nonempty db ->
    ((exists c db', claimNextQueuedJob u t db = (Some c, db'))
     <-> (count_status u processing db = 0%nat
          /\ (0 < count_status u queued db)%nat)).
Proof.
  intros u t db Hids. split.
  - intros (c & db' & H). apply claim_some_inv in H as (next & Hold & Hp & _).
    split; auto. apply oldest_in, queued_of_in in Hold as (Hin & Hu & Hst).
    apply count_pos_in. eauto.
  - intros [Hp Hq].
    destruct (oldest_some (queued_of u db)) as [next Hold].
    { intros E. unfold count_status in Hq. fold (queued_of u db) in Hq.
      rewrite E in Hq. simpl in Hq. lia. }
    assert (Hne : job_id next <> "").
    { apply Hids. now apply oldest_in, queued_of_in in Hold. }
    rewrite (claim_of_oldest u t db next Hp Hold Hne). eauto.
Qed.

(** X2. A successful claim rewrites exactly one row: the table splits
    around the claimed row, a [queued] row of the user, which is replaced
    by its [processing] version; hence the user's [queued] count drops by
    one, the [processing] count becomes one, and the table keeps its
    length. *)
Theorem X2_claim_rewrites_one_row :
  forall (u : string) (t : Z) (db db' : DB) (c : Claimed),
    key_ok db ->
    claimNextQueuedJob u t db = (Some c, db') ->
    exists l1 next l2,
      db = (l1 ++ next :: l2)%list
      /\ db' = (l1 ++ claim_set t next :: l2)%list
      /\ job_id next = c_job_id c /\ user_id next = u /\ status next = queued
      /\ S (count_status u queued db') = count_status u queued db
      /\ count_status u processing db' = 1%nat
      /\ List.length db' = List.length db.
Proof.
  intros u t db db' c Hk H.
  apply claim_some_inv in H as (next & Hold & Hp & -> & ->). simpl.
  apply oldest_in, queued_of_in in Hold as (Hin & Hu & Hst).
  destruct (key_split db next Hk Hin) as (l1 & l2 & Hdb & Hids).
  exists l1, next, l2.
  assert (Hupd : sql_update (claim_cond (job_id next)) (claim_set t) db
                 = (l1 ++ claim_set t next :: l2)%list).
  { rewrite Hdb. rewrite (update_split _ _ l1 l2 next); auto.
    - unfold claim_cond. now rewrite String.eqb_refl, Hst.
    - intros x Hx. apply andb_true_iff in Hx as [Hx _]. now apply String.eqb_eq. }
  rewrite Hupd. repeat split; auto.
  - rewrite Hdb, !count_status_app, !count_status_cons. simpl.
    rewrite Hu, Hst, String.eqb_refl. simpl. lia.
  - rewrite Hdb in Hp. rewrite count_status_app, count_status_cons in Hp.
    rewrite count_status_app, count_status_cons. simpl.
    rewrite Hu, String.eqb_refl. simpl. lia.
  - rewrite Hdb, !length_app. reflexivity.
Qed.

Lemma split_unique {A : Type} (x : A) (a a' b b' : list A) :
  NoDup (a ++ x :: b) -> (a ++ x :: b = a' ++ x :: b')%list -> a = a' /\ b = b'.
Proof.
  revert a'. induction a as [|y a IH]; intros a' Hnd E.
  - destruct a' as [|y' a']; simpl in *.
    + injection E as E. auto.
    + exfalso. injection E as Ey Et. inversion Hnd as [|? ? Hnot _]; subst.
      apply Hnot. apply in_or_app. right. now left.
  - destruct a' as [|y' a']; simpl in *.
    + exfalso. injection E as Ey Et. inversion Hnd as [|? ? Hnot _]; subst.
      apply Hnot. apply in_or_app. right. now left.
    + injection E as Ey Et. inversion Hnd as [|? ? _ Hnd']; subst.
      destruct (IH a' Hnd' Et) as [-> ->]. auto.
Qed.

(** X3. A requeued job keeps its place: after a claim followed by
    [requeueJob] of the claimed job, the next claim of the user returns the
    same job again, now with the attempt number written by the requeue. *)
Theorem X3_requeue_keeps_place :
  forall (u : string) (t t' att : Z) (e : string) (db db1 : DB) (c : Claimed),
    key_ok db ->
    claimNextQueuedJob u t db = (Some c, db1) ->
    exists db2,
      claimNextQueuedJob u t' (requeueJob (c_job_id c) att e db1)
      = (Some (mkClaimed (c_job_id c) (c_message_id c) (c_created_at c) att t'), db2).
Proof.
  intros u t t' att e db db1 c Hk H.
  pose proof H as H0.
  apply claim_some_inv in H0 as (next & Hold & Hp & Hc & Hdb1).
  assert (Hne : job_id next <> "").
  { unfold claimNextQueuedJob in H. rewrite Hp, Hold in H. simpl in H.
    unfold truthy in H. destruct (job_id next =? "") eqn:E; simpl in H; [discriminate|].
    now apply String.eqb_neq. }
  pose proof Hold as Hspec. apply oldest_spec in Hspec as (q1 & q2 & Hq & Hq1 & Hq2).
  apply oldest_in, queued_of_in in Hold as (Hin & Hu & Hst).
  destruct (key_split db next Hk Hin) as (l1 & l2 & Hdb & Hids).
  assert (Hur : (user_id next =? u) && status_eqb (status next) queued = true).
  { now rewrite Hu, Hst, String.eqb_refl. }
  assert (Hsplit : q1 = queued_of u l1 /\ q2 = queued_of u l2).
  { apply (split_unique next).
    - rewrite <- Hq. apply nodup_of_key. unfold queued_of. now apply key_ok_filter.
    - rewrite <- Hq, Hdb. unfold queued_of. rewrite filter_app. simpl.
      now rewrite Hur. }
  destruct Hsplit as [-> ->].
  set (r' := requeue_set att e (claim_set t next)).
  assert (Hdb2 : requeueJob (c_job_id c) att e db1 = (l1 ++ r' :: l2)%list).
  { assert (Hcr : claim_cond (job_id next) next = true).
    { unfold claim_cond. now rewrite String.eqb_refl, Hst. }
    subst c db1. simpl. rewrite Hdb.
    rewrite (update_split _ _ l1 l2 next); auto.
    - rewrite Hcr. unfold requeueJob.
      apply (update_by_id_split _ l1 l2 (claim_set t next) Hids).
    - intros x Hx. apply andb_true_iff in Hx as [Hx _]. now apply String.eqb_eq. }
  rewrite Hdb2.
  assert (Hp2 : count_status u processing (l1 ++ r' :: l2)%list = 0%nat).
  { rewrite Hdb in Hp. rewrite count_status_app, count_status_cons in Hp.
    rewrite count_status_app, count_status_cons. simpl.
    rewrite andb_false_r. lia. }
  assert (Hold2 : oldest (queued_of u (l1 ++ r' :: l2)%list) = Some r').
  { unfold queued_of. rewrite filter_app. simpl. rewrite Hu, String.eqb_refl. simpl.
    apply oldest_char; simpl; auto. }
  rewrite (claim_of_oldest u t' _ r' Hp2 Hold2 Hne).
  subst c. simpl. eauto.
Qed.

Lemma find_job_of_in (db : DB) (r : Job) :
  In r db -> exists r', find_job (job_id r) db = Some r'.
Proof. intros H. apply find_job_in_ids. now apply in_map. Qed.

(** X4. Only completed jobs are ever deleted: a job that is [queued],
    [processing] or [error] is still in the table after any operation
    other than its own [markJobDone]. *)
Theorem X4_unfinished_jobs_are_kept :
  forall (db : DB) (o : Op) (j : string) (r : Job),
    find_job j db = Some r ->
    status r <> done ->
    (forall tf t, o <> MarkDone j tf t) ->
    exists r', find_job j (step db o) = Some r'.
Proof.
  intros db o j r Hf Hst Hno. destruct o; simpl.
  - unfold enqueueAnalysisJob; simpl.
    destruct (find_job (makeJobId userId messageId nowId) db); eauto.
    rewrite (find_job_app_old _ _ _ _ Hf). eauto.
  - unfold claimNextQueuedJob.
    destruct (0 <? _)%nat; simpl; eauto.
    destruct (oldest _); simpl; eauto.
    destruct (negb _); simpl; eauto.
    destruct (_ =? 0)%nat; simpl; rewrite find_job_update, Hf by auto; simpl; eauto.
  - unfold requeueJob. rewrite find_job_update, Hf by auto. simpl. eauto.
  - apply find_job_some in Hf as [Hin Hj].
    assert (Hne : (job_id r =? jobId) = false).
    { apply String.eqb_neq. intros E. apply (Hno resultTF now). congruence. }
    assert (Hin1 : In r (markJobDone_update jobId resultTF now db)).
    { unfold markJobDone_update, sql_update. apply in_map_iff. exists r.
      now rewrite Hne. }
    rewrite <- Hj. apply find_job_of_in. unfold markJobDone.
    destruct (find_job jobId _); auto. destruct (truthy _); auto.
    apply prune_frame; auto.
  - unfold markJobError. rewrite find_job_update, Hf by auto. simpl. eauto.
Qed.

Lemma firstn_whole {A : Type} (n : nat) (l : list A) :
  (List.length l <= n)%nat -> firstn n l = l.
Proof.
  revert n. induction l as [|a l IH]; intros n H; [now destruct n|].
  destruct n; simpl in *; [lia|]. f_equal. apply IH. lia.
Qed.

(** X5. Pruning deletes nothing when the user has at most [keep] completed
    jobs, and pruning twice is pruning once. *)
Theorem X5_prune_is_idempotent :
  forall (u : string) (k : nat) (db : DB),
    ((count_status u done db <= keep_of k)%nat -> pruneDoneJobHistory u k db = db)
    /\ (key_ok db ->
        pruneDoneJobHistory u k (pruneDoneJobHistory u k db) = pruneDoneJobHistory u k db).
Proof.
  intros u k.
  assert (Hsmall : forall db, (count_status u done db <= keep_of k)%nat ->
                              pruneDoneJobHistory u k db = db).
  { intros db H. unfold pruneDoneJobHistory.
    apply forallb_filter_id, forallb_forall. intros r Hr.
    destruct ((user_id r =? u) && status_eqb (status r) done) eqn:E; auto.
    simpl. rewrite negb_involutive. apply mem_string_in.
    rewrite firstn_whole.
    - apply in_map. apply (Permutation_in _ (Permutation_sym (sort_desc_perm _))).
      unfold done_of. apply filter_In. auto.
    - rewrite (Permutation_length (sort_desc_perm _)). exact H. }
  intros db. split; [apply Hsmall|].
  intros Hk. apply Hsmall. rewrite prune_count by exact Hk. lia.
Qed.

(** * Further properties of the processors *)

Lemma count_queued_length (u : string) (db : DB) :
  count_status u queued db = List.length (queued_of u db).
Proof. reflexivity. Qed.

(** One invocation of [handleInternalAnalyze] of [src/worker.js] that does
    not requeue takes the head of the queue out of it, for good. *)
Lemma worker_step_settle (env : Env) (req : Request) (inv : Invocation) (s : State)
      (u : string) (r : Job) (rest : list Job) :
  request_for env req u ->
  settles inv ->
  head_of_queue u r rest (jobs s) ->
  exists s1,
    WorkerJs.handleInternalAnalyze env req inv s
    = (202%nat, s1, (0 <? List.length rest)%nat)
    /\ key_ok (jobs s1)
    /\ count_status u processing (jobs s1) = 0%nat
    /\ queued_of u (jobs s1) = rest.
Proof.
  intros (Ha & Hb & Ht) Hset (Hk & Hp & Hq & Hle & Hne).
  assert (Hfail : forall att msg,
    exists s1,
      (let '(s', again) :=
         fail_job u (mkClaimed (job_id r) (message_id r) (created_at r) (attempt r)
                               (now_start inv))
                  att msg (now_end inv)
                  (mkState (snd (claimNextQueuedJob u (now_start inv) (jobs s)))
                           (saveAnalysis u "_JOB" (now_start inv)
                              (job_marker "processing" (job_id r) (Some (attempt r))
                                 (Some (queued_count
                                    (getUserQueueStats u
                                       (snd (claimNextQueuedJob u (now_start inv) (jobs s)))))))
                              (logs s)))
       in (202%nat, s', again))
      = (202%nat, s1, (0 <? List.length rest)%nat)
      /\ key_ok (jobs s1)
      /\ count_status u processing (jobs s1) = 0%nat
      /\ queued_of u (jobs s1) = rest).
  { intros att msg.
    destruct (claim_head u (now_start inv) (jobs s) r rest Hk Hp Hq Hle Hne)
      as (l1 & l2 & Hdb & Hids & Hu & Hst & Hq1 & Hq2 & Hp1 & Hp2 & Hclaim).
    rewrite Hclaim. unfold fail_job. cbn [c_job_id jobs logs snd].
    unfold markJobError.
    rewrite (update_by_id_split _ l1 l2 (claim_set (now_start inv) r) Hids).
    assert (Hqn : queued_of u (l1 ++ error_set (now_end inv) msg
                                 (claim_set (now_start inv) r) :: l2)%list = rest).
    { unfold queued_of. rewrite filter_app. simpl. rewrite andb_false_r.
      fold (queued_of u l1). fold (queued_of u l2). now rewrite Hq1, Hq2. }
    eexists. split; [|split; [|split]].
    - unfold hasQueuedJobs. rewrite count_queued_length, Hqn. reflexivity.
    - cbn [jobs]. rewrite Hdb in Hk.
      now apply (key_ok_replace l1 l2 r).
    - cbn [jobs]. rewrite count_status_app, count_status_cons. simpl.
      rewrite andb_false_r. lia.
    - exact Hqn. }
  unfold WorkerJs.handleInternalAnalyze. rewrite Ha, Hb, Ht. simpl negb. cbv iota.
  destruct (getContentFromLine inv) as [e|] eqn:Hfetch.
  - destruct (Hfail None (error_text e)) as (s1 & E & Hrest).
    exists s1. split; [|exact Hrest].
    destruct (claim_head u (now_start inv) (jobs s) r rest Hk Hp Hq Hle Hne)
      as (l1 & l2 & _ & _ & _ & _ & _ & _ & _ & _ & Hclaim).
    rewrite Hclaim in *. unfold WorkerJs.background. rewrite Hfetch.
    cbn [c_job_id c_attempt c_started_at snd] in *. exact E.
  - destruct (analysis inv) as [a|err] eqn:Han.
    + destruct (cycle_head u (detectedTF_of a) (now_start inv) (now_end inv)
                  (jobs s) r rest Hk Hp Hq Hle Hne)
        as (db1 & Hclaim & Hk2 & Hp2 & Hq2).
      rewrite Hclaim. unfold WorkerJs.background. rewrite Hfetch, Han.
      unfold store_and_complete. cbn [c_job_id jobs logs].
      eexists. split; [|split; [|split]].
      * unfold getUserQueueStats. cbn [queued_count].
        rewrite count_queued_length, Hq2. reflexivity.
      * exact Hk2.
      * exact Hp2.
      * exact Hq2.
    + destruct Hset as [Hc|[(a & Hc)|(err' & Hc & Hto & Hret)]];
        [congruence|rewrite Han in Hc; discriminate|].
      rewrite Han in Hc. injection Hc as <-.
      destruct (Hfail (Some (attempt r + 1)%Z) (error_text err)) as (s1 & E & Hrest).
      exists s1. split; [|exact Hrest].
      destruct (claim_head u (now_start inv) (jobs s) r rest Hk Hp Hq Hle Hne)
        as (l1 & l2 & _ & _ & _ & _ & _ & _ & _ & _ & Hclaim).
      rewrite Hclaim in *. unfold WorkerJs.background. rewrite Hfetch, Han, Hto, Hret.
      cbn [c_job_id c_attempt c_started_at snd orb andb] in *. exact E.
Qed.

(** X6. The chain drains the queue.  When no invocation ends in a requeue
    (each one completes its job or marks it [error]), as many chained
    invocations of [handleInternalAnalyze] of [src/worker.js] as the user
    has queued jobs leave the user with nothing queued and nothing
    processing: every invocation triggers the next one while jobs are
    queued, and a failed job does not stop the chain. *)
Theorem X6_chain_drains_queue :
  forall (env : Env) (req : Request) (u : string) (q : list Job)
         (invs : list Invocation) (s : State),
    request_for env req u ->
    key_ok (jobs s) ->
    count_status u processing (jobs s) = 0%nat ->
    queued_of u (jobs s) = q ->
    StronglySorted by_created q ->
    (forall x, In x q -> job_id x <> "") ->
    List.length invs = List.length q ->
    Forall settles invs ->
    count_status u queued (jobs (WorkerJs.chain env req invs s)) = 0%nat
    /\ count_status u processing (jobs (WorkerJs.chain env req invs s)) = 0%nat.
Proof.
  intros env req u q. induction q as [|r rest IH];
    intros invs s Hreq Hk Hp Hq Hs Hne Hlen Hall.
  - destruct invs; [|discriminate]. simpl.
    rewrite count_queued_length, Hq. auto.
  - destruct invs as [|inv invs]; [discriminate|].
    inversion Hs as [|? ? Hs' Hle]; subst. rewrite Forall_forall in Hle.
    inversion Hall as [|? ? Hinv Hall']; subst.
    assert (Hhead : head_of_queue u r rest (jobs s)).
    { repeat split; auto. apply Hne. now left. }
    destruct (worker_step_settle env req inv s u r rest Hreq Hinv Hhead)
      as (s1 & Hstep & Hk1 & Hp1 & Hq1).
    simpl WorkerJs.chain. rewrite Hstep.
    assert (Hgoal : count_status u queued (jobs (WorkerJs.chain env req invs s1)) = 0%nat
                    /\ count_status u processing
                         (jobs (WorkerJs.chain env req invs s1)) = 0%nat).
    { apply IH; auto; try (intros x Hx; apply Hne; now right). }
    destruct rest as [|x rest].
    + destruct invs; [|discriminate]. simpl in *. exact Hgoal.
    + simpl Nat.ltb. exact Hgoal.
Qed.

(** X7. The foreground fast path of [handleEvent] in [src/worker.js] never
    completes its job.  For a user with nothing pending whose image is
    downloaded and analysed in time, whatever the analysis returns, the new
    row is the only change of the table and it is [processing] when the
    handler returns; no further invocation is triggered, and every later
    claim of that user returns nothing. *)
Theorem X7_fast_path_job_stays_processing :
  forall (u m : string) (nowId now : Z) (inv : Invocation) (s : State)
         (a : AnalysisResult),
    count_status u queued (jobs s) = 0%nat ->
    count_status u processing (jobs s) = 0%nat ->
    ~ In (makeJobId u m nowId) (map job_id (jobs s)) ->
    getContentFromLine inv = None ->
    analysis inv = Success a ->
    let res := WorkerJs.handleEvent_image u m nowId now inv s in
    jobs (snd (fst res))
    = (jobs s ++ [mkJob (makeJobId u m nowId) u m now processing 0
                        (Some (now_start inv)) None None None])%list
    /\ snd res = false
    /\ (forall t, claimNextQueuedJob u t (jobs (snd (fst res)))
                  = (None, jobs (snd (fst res)))).
Proof.
  intros u m nowId now inv s a Hq Hp Hfresh Hfetch Han res.
  set (new := mkJob (makeJobId u m nowId) u m now queued 0 None None None None).
  set (row := mkJob (makeJobId u m nowId) u m now processing 0
                    (Some (now_start inv)) None None None).
  assert (Hnone : find_job (makeJobId u m nowId) (jobs s) = None).
  { destruct (find_job _ (jobs s)) eqn:E; auto.
    apply find_job_some in E as [Hin He]. exfalso. apply Hfresh.
    rewrite <- He. now apply in_map. }
  assert (Hc1 : count_status u processing (jobs s ++ [new])%list = 0%nat).
  { rewrite count_status_app, Hp. unfold count_status. simpl.
    now rewrite andb_false_r. }
  assert (Hc2 : count_status u queued (jobs s ++ [new])%list = 1%nat).
  { rewrite count_status_app, Hq. unfold count_status. simpl.
    now rewrite String.eqb_refl. }
  assert (Hupd : forall f, f new = row ->
             sql_update (claim_cond (makeJobId u m nowId)) f (jobs s ++ [new])%list
             = (jobs s ++ [row])%list).
  { intros f Hf. unfold sql_update. rewrite map_app. simpl.
    unfold claim_cond at 2. simpl. rewrite String.eqb_refl. simpl. rewrite Hf.
    f_equal. fold (sql_update (claim_cond (makeJobId u m nowId)) f (jobs s)).
    apply sql_update_none. intros r Hr.
    unfold claim_cond. destruct (job_id r =? makeJobId u m nowId) eqn:E; auto.
    exfalso. apply Hfresh. apply String.eqb_eq in E. rewrite <- E.
    now apply in_map. }
  assert (Hc3 : count_status u queued (jobs s ++ [row])%list = 0%nat).
  { rewrite count_status_app, Hq. unfold count_status. simpl.
    now rewrite andb_false_r. }
  assert (Hres : exists reply lg,
             res = (reply, mkState (jobs s ++ [row])%list lg, false)).
  { unfold res, WorkerJs.handleEvent_image, enqueueAnalysisJob.
    rewrite Hnone. fold new.
    unfold getUserQueueStats. cbn [processing_count queued_count].
    rewrite Hc1, Hc2. simpl negb. cbv iota.
    rewrite Hfetch, Han. rewrite Hupd by reflexivity.
    destruct (nonempty_value (request_update_for_tf a)).
    - eexists. eexists. reflexivity.
    - rewrite Hc3. eexists. eexists. reflexivity. }
  destruct Hres as (reply & lg & Hres). rewrite Hres. cbn [fst snd jobs].
  split; [reflexivity|]. split; [reflexivity|].
  intros t. apply claim_none_when_busy.
  rewrite count_status_app, Hp. unfold count_status. simpl.
  rewrite String.eqb_refl. simpl. lia.
Qed.

(** X8. The internal endpoint and its token.  When a token is configured, a
    request that does not carry it is answered 401 by both
    [handleInternalAnalyze] and changes nothing; and whatever the request,
    the answer of [src/worker.js] is 401, 400, 200 or 202, and unless it is
    202 no job row has changed and no further invocation was triggered. *)
Theorem X8_internal_endpoint_codes :
  (forall (env : Env) (req : Request) (inv : Invocation) (s : State) (secret : string),
      INTERNAL_TASK_TOKEN env = Some secret ->
      token req <> Some secret ->
      WorkerJs.handleInternalAnalyze env req inv s = (401%nat, s, false)
      /\ HandlersJs.handleInternalAnalyze env req inv s = (401%nat, s, false))
  /\ (forall (env : Env) (req : Request) (inv : Invocation) (s : State),
         let res := WorkerJs.handleInternalAnalyze env req inv s in
         let code := fst (fst res) in
         In code [401; 400; 200; 202]%nat
         /\ (code <> 202%nat -> jobs (snd (fst res)) = jobs s /\ snd res = false)
         /\ (code = 401%nat \/ code = 400%nat -> snd (fst res) = s)).
Proof.
  split.
  - intros env req inv s secret Hsec Htok.
    assert (Hauth : authorized env req = false).
    { unfold authorized. rewrite Hsec. destruct (token req) as [t|]; auto.
      replace (t =? secret) with false; [apply andb_false_r|].
      symmetry. apply String.eqb_neq. congruence. }
    unfold WorkerJs.handleInternalAnalyze, HandlersJs.handleInternalAnalyze.
    now rewrite Hauth.
  - intros env req inv s res code. unfold code, res, WorkerJs.handleInternalAnalyze.
    destruct (negb (authorized env req)); [simpl; intuition|].
    destruct (body_userId req) as [u|]; [|simpl; intuition].
    destruct (negb (truthy u)); [simpl; intuition|].
    destruct (claimNextQueuedJob u (now_start inv) (jobs s)) as [[job|] jobs1] eqn:E.
    + destruct (WorkerJs.background _ _ _ _ _) as [s' again]. simpl.
      split; [intuition|]. split; [congruence|]. intros [H|H]; discriminate.
    + apply claim_none_unchanged in E. subst jobs1. simpl.
      split; [intuition|]. split; [auto|]. intros [H|H]; discriminate.
Qed.

(** * The result store *)

Lemma same_key_true (u tf : string) (r : AnalysisRow) :
  same_key u tf r = true <-> a_user_id r = u /\ a_tf r = tf.
Proof. unfold same_key. now rewrite andb_true_iff, !String.eqb_eq. Qed.

Lemma same_key_disjoint (u tf u' tf' : string) (r : AnalysisRow) :
  (u', tf') <> (u, tf) -> same_key u tf r = true -> same_key u' tf' r = false.
Proof.
  intros Hne H. apply same_key_true in H as [Hu Ht].
  destruct (same_key u' tf' r) eqn:E; auto.
  apply same_key_true in E as [Hu' Ht']. exfalso. apply Hne. congruence.
Qed.

Lemma lookup_save_same (u tf : string) (t : Z) (d : Stored) (l : Logs) :
  Database.lookup u tf (saveAnalysis u tf t d l) = Some (mkRow u tf t d).
Proof. apply save_find_same. Qed.

Lemma lookup_save_other (u tf u' tf' : string) (t : Z) (d : Stored) (l : Logs) :
  (u', tf') <> (u, tf) ->
  Database.lookup u' tf' (saveAnalysis u tf t d l) = Database.lookup u' tf' l.
Proof.
  intros Hne. unfold Database.lookup.
  assert (Hnew : same_key u' tf' (mkRow u tf t d) = false).
  { apply (same_key_disjoint u tf); auto. apply same_key_true. auto. }
  unfold saveAnalysis. destruct (existsb _ l).
  - induction l as [|r l IH]; simpl; auto.
    destruct (same_key u tf r) eqn:Er.
    + rewrite Hnew, (same_key_disjoint u tf u' tf' r Hne Er). exact IH.
    + destruct (same_key u' tf' r); auto.
  - induction l as [|r l IH]; simpl.
    + now rewrite Hnew.
    + destruct (same_key u' tf' r); auto.
Qed.

Lemma lookup_none_iff (u tf : string) (l : Logs) :
  Database.lookup u tf l = None <-> ~ In (u, tf) (map (fun r => (a_user_id r, a_tf r)) l).
Proof.
  unfold Database.lookup. split.
  - intros H Hin. apply in_map_iff in Hin as (r & Hr & Hin).
    pose proof (find_none _ _ H r Hin) as Hf.
    injection Hr as Hu Ht.
    assert (Hk : same_key u tf r = true) by (apply same_key_true; auto).
    congruence.
  - intros H. destruct (find _ l) as [r|] eqn:E; auto.
    apply find_some in E as [Hin Hk]. apply same_key_true in Hk as [Hu Ht].
    exfalso. apply H. apply in_map_iff. exists r. split; auto. congruence.
Qed.

Lemma save_keys (u tf : string) (t : Z) (d : Stored) (l : Logs) :
  map (fun r => (a_user_id r, a_tf r)) (saveAnalysis u tf t d l)
  = if existsb (same_key u tf) l
    then map (fun r => (a_user_id r, a_tf r)) l
    else (map (fun r => (a_user_id r, a_tf r)) l ++ [(u, tf)])%list.
Proof.
  unfold saveAnalysis. destruct (existsb _ l).
  - rewrite map_map. apply map_ext. intros r.
    destruct (same_key u tf r) eqn:E; auto.
    apply same_key_true in E as [-> ->]. reflexivity.
  - now rewrite map_app.
Qed.

Lemma existsb_lookup (u tf : string) (l : Logs) :
  existsb (same_key u tf) l = false <-> Database.lookup u tf l = None.
Proof.
  unfold Database.lookup. induction l as [|r l IH]; simpl; [tauto|].
  destruct (same_key u tf r); simpl; [split; discriminate|exact IH].
Qed.

Lemma save_logs_ok (u tf : string) (t : Z) (d : Stored) (l : Logs) :
  logs_ok l -> logs_ok (saveAnalysis u tf t d l).
Proof.
  unfold logs_ok. intros H. rewrite save_keys.
  destruct (existsb _ l) eqn:E; auto.
  apply existsb_lookup, lookup_none_iff in E.
  apply NoDup_app; repeat split; auto.
  - constructor; [intros []|constructor].
  - intros x Hx [<-|[]]. contradiction.
Qed.

(** X9. [saveAnalysis] is an upsert on (user_id, tf): it keeps the key
    unique, the row read back under the key is the one just written, every
    other key reads as before, and the table grows by one row exactly when
    the key was new. *)
Theorem X9_saveAnalysis_upsert :
  forall (u tf : string) (t : Z) (d : Stored) (l : Logs),
    (logs_ok l -> logs_ok (saveAnalysis u tf t d l))
    /\ Database.lookup u tf (saveAnalysis u tf t d l) = Some (mkRow u tf t d)
    /\ (forall u' tf', (u', tf') <> (u, tf) ->
          Database.lookup u' tf' (saveAnalysis u tf t d l) = Database.lookup u' tf' l)
    /\ List.length (saveAnalysis u tf t d l)
       = match Database.lookup u tf l with
         | Some _ => List.length l
         | None => S (List.length l)
         end.
Proof.
  intros u tf t d l. split; [apply save_logs_ok|]. split; [apply lookup_save_same|].
  split; [intros u' tf'; apply lookup_save_other|].
  unfold saveAnalysis. destruct (existsb _ l) eqn:E.
  - destruct (Database.lookup u tf l) eqn:El.
    + now rewrite length_map.
    + apply existsb_lookup in El. congruence.
  - apply existsb_lookup in E. rewrite E, length_app. simpl. lia.
Qed.

Lemma lookup_delete_same (u tf : string) (l : Logs) :
  Database.lookup u tf (Database.deleteAnalysis u tf l) = None.
Proof.
  unfold Database.lookup, Database.deleteAnalysis.
  induction l as [|r l IH]; simpl; auto.
  destruct (same_key u tf r) eqn:E; simpl; auto. now rewrite E.
Qed.

Lemma lookup_delete_other (u tf u' tf' : string) (l : Logs) :
  (u', tf') <> (u, tf) ->
  Database.lookup u' tf' (Database.deleteAnalysis u tf l) = Database.lookup u' tf' l.
Proof.
  intros Hne. unfold Database.lookup, Database.deleteAnalysis.
  induction l as [|r l IH]; simpl; auto.
  destruct (same_key u tf r) eqn:E; simpl.
  - now rewrite (same_key_disjoint u tf u' tf' r Hne E).
  - destruct (same_key u' tf' r); auto.
Qed.

Lemma delete_missing (u tf : string) (l : Logs) :
  Database.lookup u tf l = None -> Database.deleteAnalysis u tf l = l.
Proof.
  intros H. apply existsb_lookup in H. unfold Database.deleteAnalysis.
  apply forallb_filter_id, forallb_forall. intros r Hr.
  destruct (same_key u tf r) eqn:E; auto.
  assert (Hex : existsb (same_key u tf) l = true) by (apply existsb_exists; eauto).
  congruence.
Qed.

Lemma delete_logs_ok (u tf : string) (l : Logs) :
  logs_ok l -> logs_ok (Database.deleteAnalysis u tf l).
Proof.
  unfold logs_ok, Database.deleteAnalysis.
  induction l as [|r l IH]; simpl; intros H; [constructor|].
  inversion H as [|? ? Hfresh H']; subst.
  destruct (negb (same_key u tf r)); simpl; [|now apply IH].
  constructor; [|now apply IH].
  intros Hin. apply Hfresh. apply in_map_iff in Hin as (x & Hx & Hin).
  apply filter_In in Hin as [Hin _]. apply in_map_iff. eauto.
Qed.

(** X10. [deleteAnalysis] removes the row of the key and nothing else: the
    key reads as absent afterwards, every other key reads as before, and
    deleting a key that is not there changes nothing. *)
Theorem X10_deleteAnalysis_removes_one_key :
  forall (u tf : string) (l : Logs),
    Database.lookup u tf (Database.deleteAnalysis u tf l) = None
    /\ (forall u' tf', (u', tf') <> (u, tf) ->
          Database.lookup u' tf' (Database.deleteAnalysis u tf l)
          = Database.lookup u' tf' l)
    /\ (Database.lookup u tf l = None -> Database.deleteAnalysis u tf l = l)
    /\ (logs_ok l -> logs_ok (Database.deleteAnalysis u tf l)).
Proof.
  intros u tf l. split; [apply lookup_delete_same|].
  split; [intros u' tf'; apply lookup_delete_other|].
  split; [apply delete_missing|apply delete_logs_ok].
Qed.

(** X11. [updateAnalysisTF] moves a row to another timeframe: nothing
    happens when the old timeframe has no row; otherwise the content and
    the timestamp of the old row are found under the new timeframe
    (replacing what was there), the old timeframe is empty and the other
    keys read as before.  Renaming a timeframe to itself deletes the row:
    the save is followed by the delete of the same key. *)
Theorem X11_updateAnalysisTF_moves_row :
  forall (u oldTF newTF : string) (l : Logs),
    (Database.lookup u oldTF l = None -> Database.updateAnalysisTF u oldTF newTF l = l)
    /\ (forall row, Database.lookup u oldTF l = Some row -> newTF <> oldTF ->
          Database.lookup u newTF (Database.updateAnalysisTF u oldTF newTF l)
          = Some (mkRow u newTF (a_timestamp row) (a_json row))
          /\ Database.lookup u oldTF (Database.updateAnalysisTF u oldTF newTF l) = None
          /\ (forall u' tf', (u', tf') <> (u, oldTF) -> (u', tf') <> (u, newTF) ->
                Database.lookup u' tf' (Database.updateAnalysisTF u oldTF newTF l)
                = Database.lookup u' tf' l))
    /\ Database.lookup u oldTF (Database.updateAnalysisTF u oldTF oldTF l) = None
    /\ (logs_ok l -> logs_ok (Database.updateAnalysisTF u oldTF newTF l)).
Proof.
  intros u oldTF newTF l. split; [|split; [|split]].
  - intros H. unfold Database.updateAnalysisTF. now rewrite H.
  - intros row Hrow Hne. unfold Database.updateAnalysisTF. rewrite Hrow.
    assert (Hk : (u, newTF) <> (u, oldTF)) by congruence.
    split; [|split].
    + rewrite lookup_delete_other by exact Hk. apply lookup_save_same.
    + apply lookup_delete_same.
    + intros u' tf' H1 H2.
      rewrite lookup_delete_other by exact H1. now apply lookup_save_other.
  - unfold Database.updateAnalysisTF.
    destruct (Database.lookup u oldTF l) eqn:E; [apply lookup_delete_same|exact E].
  - intros H. unfold Database.updateAnalysisTF.
    destruct (Database.lookup u oldTF l); auto.
    apply delete_logs_ok. now apply save_logs_ok.
Qed.

(** * Timeframe labels *)


Lemma is_space_upper (c : ascii) : is_space (upper c) = is_space c.
Proof. destruct c as [[] [] [] [] [] [] [] []]; reflexivity. Qed.


Lemma toUpperCase_empty (s : string) : (toUpperCase s =? "") = (s =? "").
Proof. now destruct s. Qed.

Lemma trim_left_upper (s : string) : trim_left (toUpperCase s) = toUpperCase (trim_left s).
Proof.
  induction s as [|c s IH]; simpl; [reflexivity|].
  rewrite is_space_upper. destruct (is_space c); auto.
Qed.

Lemma trim_right_upper (s : string) : trim_right (toUpperCase s) = toUpperCase (trim_right s).
Proof.
  induction s as [|c s IH]; simpl; [reflexivity|].
  rewrite IH, is_space_upper, toUpperCase_empty.
  destruct (is_space c && (trim_right s =? "")); reflexivity.
Qed.

Lemma trim_right_idem (s : string) : trim_right (trim_right s) = trim_right s.
Proof.
  induction s as [|c s IH]; simpl; [reflexivity|].
  destruct (is_space c && (trim_right s =? "")) eqn:E; simpl; [reflexivity|].
  now rewrite IH, E.
Qed.

Lemma trim_left_head (s : string) :
  trim_left s = "" \/ exists c r, trim_left s = String c r /\ is_space c = false.
Proof.
  induction s as [|c s IH]; simpl; auto.
  destruct (is_space c) eqn:E; auto. right. eauto.
Qed.

(** What [String.prototype.trim] returns has nothing left to trim. *)
Lemma trim_idem (s : string) :
  let t := trim_right (trim_left s) in
  trim_left t = t /\ trim_right t = t.
Proof.
  simpl. split; [|apply trim_right_idem].
  destruct (trim_left_head s) as [->|(c & r & -> & Hc)]; [reflexivity|].
  simpl. rewrite Hc. simpl. now rewrite Hc.
Qed.


Lemma upper_ascii (c : ascii) :
  (nat_of_ascii c <? 128)%nat = true ->
  (nat_of_ascii (upper c) <? 128)%nat = true
  /\ ((97 <=? nat_of_ascii (upper c)) && (nat_of_ascii (upper c) <=? 122))%nat = false.
Proof.
  destruct c as [[] [] [] [] [] [] [] []]; intros H;
    try discriminate H; split; reflexivity.
Qed.

Lemma toUpperCase_ascii (s : string) :
  ascii_only s = true ->
  ascii_only (toUpperCase s) = true /\ has_lower (toUpperCase s) = false.
Proof.
  induction s as [|c s IH]; intros H; [split; reflexivity|].
  cbn [ascii_only] in H. apply andb_true_iff in H as [Hc Hs].
  destruct (IH Hs) as [IH1 IH2]. destruct (upper_ascii c Hc) as [H1 H2].
  cbn [toUpperCase ascii_only has_lower]. rewrite H1, H2, IH1, IH2. split; reflexivity.
Qed.

Lemma trim_left_ascii (s : string) : ascii_only s = true -> ascii_only (trim_left s) = true.
Proof.
  induction s as [|c s IH]; intros H; [reflexivity|].
  cbn [trim_left]. destruct (is_space c); auto.
  cbn [ascii_only] in H. apply andb_true_iff in H as [_ Hs]. auto.
Qed.

Lemma trim_right_ascii (s : string) : ascii_only s = true -> ascii_only (trim_right s) = true.
Proof.
  induction s as [|c s IH]; intros H; [reflexivity|].
  cbn [ascii_only] in H. apply andb_true_iff in H as [Hc Hs].
  cbn [trim_right]. destruct (is_space c && (trim_right s =? "")); [reflexivity|].
  cbn [ascii_only]. now rewrite Hc, IH.
Qed.


(** On ASCII input the label returned is ASCII, has no lower-case letter
    and neither starts nor ends with white space. *)
Lemma normalizeTF_ascii (s x : string) :
  ascii_only s = true ->
  normalizeTF s = Some x ->
  ascii_only x = true /\ has_lower x = false /\ trimmed x.
Proof.
  intros Ha. unfold normalizeTF. destruct (negb (truthy s)); [discriminate|].
  set (t := toUpperCase (trim_right (trim_left s))).
  assert (Ht : ascii_only t = true /\ has_lower t = false /\ trimmed t).
  { destruct (toUpperCase_ascii (trim_right (trim_left s))) as [H1 H2].
    { now apply trim_right_ascii, trim_left_ascii. }
    split; [exact H1|]. split; [exact H2|].
    destruct (trim_idem s) as [Hl Hr]. unfold trimmed, t.
    now rewrite trim_left_upper, Hl, trim_right_upper, Hr. }
  destruct (t =? "D1"); [intros H; injection H as <-; repeat split; reflexivity|].
  destruct (t =? "DAY"); [intros H; injection H as <-; repeat split; reflexivity|].
  destruct (t =? "WEEK"); [intros H; injection H as <-; repeat split; reflexivity|].
  destruct (t =? "HOUR"); [intros H; injection H as <-; repeat split; reflexivity|].
  intros H. injection H as <-. exact Ht.
Qed.

Lemma normalizeTF_none (s : string) : normalizeTF s = None -> s = "".
Proof.
  unfold normalizeTF, truthy. destruct (s =? "") eqn:E; simpl.
  - intros _. now apply String.eqb_eq.
  - repeat (match goal with |- context [if ?b then _ else _] => destruct b end);
      discriminate.
Qed.


(** X13. What the background processors write for a result: the analysis
    is read back under the normalised timeframe, the [_JOB] row of the user
    is the "done" marker, and the job goes through [markJobDone] with that
    timeframe.  When the timeframe normalises to [_JOB] itself, the marker
    overwrites the analysis. *)
Theorem X13_store_and_complete_rows :
  forall (u : string) (job : Claimed) (a : AnalysisResult) (now : Z) (s : State),
    let s' := fst (store_and_complete u job a now s) in
    let tf := detectedTF_of a in
    (tf <> "_JOB" ->
       Database.lookup u tf (logs s') = Some (mkRow u tf now (Analysis (build_toStore a))))
    /\ (exists m, Database.lookup u "_JOB" (logs s') = Some (mkRow u "_JOB" now (Marker m))
                  /\ mk_status m = "done" /\ mk_jobId m = Some (c_job_id job))
    /\ jobs s' = markJobDone (c_job_id job) tf now (jobs s)
    /\ (forall u' tf', u' <> u ->
          Database.lookup u' tf' (logs s') = Database.lookup u' tf' (logs s)).
Proof.
  intros u job a now s s' tf. unfold s', store_and_complete. cbn [fst jobs logs].
  fold tf. split; [|split; [|split]].
  - intros Hne. rewrite lookup_save_other by congruence. apply lookup_save_same.
  - eexists. rewrite lookup_save_same. split; [reflexivity|]. split; reflexivity.
  - reflexivity.
  - intros u' tf' Hne. rewrite !lookup_save_other by congruence. reflexivity.
Qed.

(** * Quick replies *)

Lemma ensure_items (q : Line.QuickReply) :
  exists q', Line.ensureQuickReplyLimit (Some q) = Some q'
             /\ Line.items q' = firstn 13 (Line.items q).
Proof.
  unfold Line.ensureQuickReplyLimit.
  destruct (List.length (Line.items q) <=? 13)%nat eqn:E.
  - exists q. split; auto. apply Nat.leb_le in E. now rewrite firstn_whole.
  - eexists. split; reflexivity.
Qed.

Lemma has_cancel_app (a b : list Line.Item) :
  has_cancel (a ++ b) = has_cancel a || has_cancel b.
Proof. unfold has_cancel. apply existsb_app. Qed.

Lemma has_cancel_firstn (n : nat) (l : list Line.Item) :
  has_cancel (firstn n l) = true -> has_cancel l = true.
Proof.
  intros H. rewrite <- (firstn_skipn n l), has_cancel_app, H. reflexivity.
Qed.

Lemma firstn_firstn_le {A : Type} (n m : nat) (l : list A) :
  (n <= m)%nat -> firstn n (firstn m l) = firstn n l.
Proof. intros H. rewrite firstn_firstn. now rewrite Nat.min_l. Qed.

Lemma firstn_13_prefix {A : Type} (l : list A) :
  exists tail, firstn 13 l = (firstn 12 l ++ tail)%list.
Proof.
  exists (firstn (13 - List.length (firstn 12 l)) (skipn 12 l)).
  rewrite <- (firstn_skipn 12 l) at 1. rewrite firstn_app.
  f_equal. rewrite firstn_firstn. reflexivity.
Qed.

(** X14. [normalizeQuickReply] returns [null] for [null] and otherwise a
    menu of at most 13 items that starts with the first 12 items of the
    input.  The main menu only loses what is beyond 13 items.  Any other
    menu ends up with a cancel item, appended or put in thirteenth place,
    except when the menu already has one that sits beyond the thirteenth
    item: then nothing is added and the truncation removes it. *)
Theorem X14_normalizeQuickReply_limit_and_cancel :
  Line.normalizeQuickReply None = None
  /\ forall q : Line.QuickReply,
       exists q',
         Line.normalizeQuickReply (Some q) = Some q'
         /\ (List.length (Line.items q') <= 13)%nat
         /\ (exists tail, Line.items q' = (firstn 12 (Line.items q) ++ tail)%list)
         /\ (Line.is_mainMenu q = true -> Line.items q' = firstn 13 (Line.items q))
         /\ (Line.is_mainMenu q = false ->
             has_cancel (firstn 13 (Line.items q)) = true \/ has_cancel (Line.items q) = false ->
             has_cancel (Line.items q') = true)
         /\ (Line.is_mainMenu q = false ->
             has_cancel (Line.items q) = true ->
             has_cancel (firstn 13 (Line.items q)) = false ->
             has_cancel (Line.items q') = false).
Proof.
  split; [reflexivity|]. intros q.
  unfold Line.normalizeQuickReply. cbn [option_map].
  set (l := Line.items q).
  assert (Hlen : forall x : list Line.Item, (List.length (firstn 13 x) <= 13)%nat).
  { intros x. rewrite length_firstn. lia. }
  assert (Hc1 : has_cancel [Line.cancelItem] = true) by reflexivity.
  destruct (Line.is_mainMenu q) eqn:Hmain; cbn [negb].
  - unfold Line.addCancelQuickReply. cbn [negb]. cbv iota.
    destruct (ensure_items (Line.mkQuickReply false l)) as (q' & -> & Hq').
    cbn [Line.items] in Hq'. exists q'. rewrite Hq'.
    split; [reflexivity|]. split; [apply Hlen|].
    split; [apply firstn_13_prefix|].
    split; [reflexivity|]. split; discriminate.
  - unfold Line.addCancelQuickReply. cbn [negb]. cbv iota.
    cbn [Line.items Line.is_mainMenu]. fold (has_cancel l).
    destruct (has_cancel l) eqn:Hc.
    + destruct (ensure_items (Line.mkQuickReply false l)) as (q' & -> & Hq').
      cbn [Line.items] in Hq'. exists q'. rewrite Hq'.
      split; [reflexivity|]. split; [apply Hlen|].
      split; [apply firstn_13_prefix|].
      split; [discriminate|]. split.
      * intros _ [H|H]; [exact H|discriminate].
      * intros _ _ H. exact H.
    + destruct (13 <=? List.length l)%nat eqn:E.
      * apply Nat.leb_le in E.
        destruct (ensure_items
                    (Line.mkQuickReply false
                       (firstn 12 l ++ Line.cancelItem :: skipn 13 l)%list))
          as (q' & -> & Hq').
        cbn [Line.items] in Hq'. exists q'. rewrite Hq'.
        assert (H12 : List.length (firstn 12 l) = 12%nat)
          by (rewrite length_firstn; lia).
        assert (H13 : firstn 13 (firstn 12 l ++ Line.cancelItem :: skipn 13 l)
                      = (firstn 12 l ++ [Line.cancelItem])%list).
        { rewrite firstn_app, H12, (firstn_whole 13 (firstn 12 l)) by (rewrite H12; lia).
          reflexivity. }
        rewrite H13.
        split; [reflexivity|]. split; [rewrite length_app, H12; cbn [List.length]; lia|].
        split; [eexists; reflexivity|].
        split; [discriminate|]. split.
        { intros _ _. rewrite has_cancel_app, Hc1. apply orb_true_r. }
        { intros _ H. discriminate. }
      * apply Nat.leb_gt in E.
        destruct (ensure_items (Line.mkQuickReply false (l ++ [Line.cancelItem])%list))
          as (q' & -> & Hq').
        cbn [Line.items] in Hq'. exists q'. rewrite Hq'.
        assert (Hw : firstn 13 (l ++ [Line.cancelItem]) = (l ++ [Line.cancelItem])%list).
        { apply firstn_whole. rewrite length_app. cbn [List.length]. lia. }
        rewrite Hw.
        split; [reflexivity|]. split; [rewrite length_app; cbn [List.length]; lia|].
        split.
        { exists [Line.cancelItem]. rewrite (firstn_whole 12 l) by lia. reflexivity. }
        split; [discriminate|]. split.
        { intros _ _. rewrite has_cancel_app, Hc1. apply orb_true_r. }
        { intros _ H. discriminate. }
Qed.

(** * The acknowledgment *)

Lemma substring_all (s : string) : substring 0 (String.length s) s = s.
Proof. induction s as [|c s IH]; simpl; [reflexivity|]. now rewrite IH. Qed.

Lemma substring_split (s : string) (n : nat) :
  (n <= String.length s)%nat ->
  s = substring 0 n s ++ substring n (String.length s - n) s.
Proof.
  revert n. induction s as [|c s IH]; intros n H; simpl in H.
  - destruct n; [reflexivity|lia].
  - destruct n as [|n].
    + simpl. now rewrite substring_all.
    + simpl. f_equal. apply IH. lia.
Qed.

Lemma substring_length (s : string) (n m : nat) :
  (n + m <= String.length s)%nat -> String.length (substring n m s) = m.
Proof.
  revert n m. induction s as [|c s IH]; intros n m H; simpl in H.
  - assert (n = 0%nat) by lia. assert (m = 0%nat) by lia. subst. reflexivity.
  - destruct n as [|n].
    + destruct m as [|m]; [reflexivity|]. simpl. f_equal. apply IH. lia.
    + simpl. apply IH. lia.
Qed.

(** X15. [shortMessageId] shows at most six characters, the last ones of
    the message id (the whole id when it is short), and six question marks
    for an empty id. *)
Theorem X15_shortMessageId_suffix :
  Ack.shortMessageId "" = "??????"
  /\ forall id : string,
       id <> "" ->
       String.length (Ack.shortMessageId id) = Nat.min 6 (String.length id)
       /\ exists pre, id = pre ++ Ack.shortMessageId id.
Proof.
  split; [reflexivity|]. intros id Hne.
  unfold Ack.shortMessageId, truthy.
  apply String.eqb_neq in Hne. rewrite Hne. simpl negb. cbv iota.
  destruct (String.length id <=? 6)%nat eqn:E.
  - apply Nat.leb_le in E. split; [lia|]. exists "". reflexivity.
  - apply Nat.leb_gt in E. unfold slice_last. split.
    + rewrite substring_length by lia. lia.
    + exists (substring 0 (String.length id - 6) id).
      pose proof (substring_split id (String.length id - 6)) as H.
      replace (String.length id - (String.length id - 6))%nat with 6%nat in H by lia.
      apply H. lia.
Qed.

Lemma filter_length_impl {A : Type} (p q : A -> bool) (l : list A) :
  (forall x, p x = true -> q x = true) ->
  (List.length (filter p l) <= List.length (filter q l))%nat.
Proof.
  intros H. induction l as [|a l IH]; simpl; [lia|].
  destruct (p a) eqn:E.
  - rewrite (H a E). simpl. lia.
  - destruct (q a); simpl; lia.
Qed.

Lemma filter_length_all {A : Type} (p q : A -> bool) (l : list A) :
  (forall x, In x l -> p x = q x) ->
  List.length (filter p l) = List.length (filter q l).
Proof.
  intros H. induction l as [|a l IH]; simpl; [reflexivity|].
  rewrite (H a) by now left.
  assert (IH' := IH (fun x Hx => H x (or_intror Hx))).
  destruct (q a); simpl; lia.
Qed.

Lemma pending_total (u : string) (db : DB) :
  List.length (filter (Ack.pending u) db)
  = (count_status u queued db + count_status u processing db)%nat.
Proof.
  induction db as [|r db IH]; simpl; [reflexivity|].
  rewrite !count_status_cons. unfold Ack.pending at 1.
  destruct (user_id r =? u); simpl; [|exact IH].
  destruct (status r); simpl; lia.
Qed.

Lemma count_pending_upto_le (u : string) (ca : Z) (db : DB) :
  (Ack.count_pending_upto u ca db <= List.length (filter (Ack.pending u) db))%nat.
Proof.
  apply filter_length_impl. intros x H. now apply andb_true_iff in H.
Qed.

Lemma count_pending_upto_pos (u : string) (ca : Z) (db : DB) (r : Job) :
  In r db -> Ack.pending u r = true -> (created_at r <= ca)%Z ->
  (1 <= Ack.count_pending_upto u ca db)%nat.
Proof.
  intros Hin Hp Hle. unfold Ack.count_pending_upto.
  assert (Hf : In r (filter (fun r0 => Ack.pending u r0 && (created_at r0 <=? ca)%Z) db)).
  { apply filter_In. split; auto. rewrite Hp. simpl. now apply Z.leb_le. }
  destruct (filter _ db); simpl; [contradiction|lia].
Qed.

Lemma first_started_in (rows : list Job) (m : Job) :
  Ack.first_started rows = Some m -> In m rows.
Proof.
  revert m. induction rows as [|r rows IH]; simpl; intros m H; [discriminate|].
  destruct (Ack.first_started rows) as [m'|].
  - destruct (Ack.started_leb r m'); inversion H; subst; auto.
  - inversion H; auto.
Qed.

Lemma first_started_none (rows : list Job) :
  Ack.first_started rows = None -> rows = [].
Proof.
  destruct rows as [|r rows]; simpl; auto.
  destruct (Ack.first_started rows); [destruct (Ack.started_leb _ _)|]; discriminate.
Qed.

(** X16. The numbers of the acknowledgment.  The total of pending jobs is
    the queued count plus the processing count.  The position of the job is
    a number between 1 and that total when the job is itself pending, and
    it is the total when no pending job of the user is younger (as for the
    image just enqueued); it is unknown when neither the creation time nor
    a known job id is given.  The rank of the job in progress is between 1
    and the total when a job is in progress, and absent otherwise. *)
Theorem X16_queue_progress_numbers :
  forall (u jobId : string) (createdAt : option Z) (db : DB),
    let p := Ack.getQueueProgressForAck u jobId createdAt db in
    Ack.totalPending p = (Ack.p_queued_count p + Ack.p_processing_count p)%nat
    /\ (forall n, Ack.yourPosition p = Some n -> (n <= Ack.totalPending p)%nat)
    /\ (forall ca r, createdAt = Some ca -> In r db -> Ack.pending u r = true ->
          (created_at r <= ca)%Z ->
          exists n, Ack.yourPosition p = Some n /\ (1 <= n)%nat)
    /\ (forall ca, createdAt = Some ca ->
          (forall r, In r db -> Ack.pending u r = true -> (created_at r <= ca)%Z) ->
          Ack.yourPosition p = Some (Ack.totalPending p))
    /\ (createdAt = None -> find_job jobId db = None -> Ack.yourPosition p = None)
    /\ (Ack.p_processing_count p = 0%nat ->
          Ack.p_processing p = None /\ Ack.processingOrder p = None)
    /\ ((0 < Ack.p_processing_count p)%nat ->
          exists k, Ack.processingOrder p = Some k
                    /\ (1 <= k)%nat /\ (k <= Ack.totalPending p)%nat).
Proof.
  intros u jobId createdAt db p. unfold p, Ack.getQueueProgressForAck.
  cbn [Ack.totalPending Ack.p_queued_count Ack.p_processing_count Ack.yourPosition
       Ack.p_processing Ack.processingOrder queued_count processing_count
       getUserQueueStats].
  split; [apply pending_total|].
  split.
  { intros n H.
    destruct createdAt as [c|]; [|destruct (truthy jobId); [destruct (find_job jobId db)|]];
      simpl in H; try discriminate;
      injection H as <-; apply count_pending_upto_le. }
  split.
  { intros ca r -> Hin Hp Hle. eexists. split; [reflexivity|].
    now apply (count_pending_upto_pos u ca db r). }
  split.
  { intros ca -> Hall. f_equal. unfold Ack.count_pending_upto.
    apply filter_length_all. intros x Hx.
    destruct (Ack.pending u x) eqn:E; auto. simpl.
    apply Z.leb_le. now apply Hall. }
  split.
  { intros -> Hf. rewrite Hf. now destruct (truthy jobId). }
  split.
  { intros H0. apply count_zero_nil in H0. rewrite H0. simpl. auto. }
  intros Hpos.
  destruct (Ack.first_started _) as [m|] eqn:E.
  - apply first_started_in in E. apply filter_In in E as [Hin Hc].
    apply andb_true_iff in Hc as [Hu Hs].
    assert (Hpend : Ack.pending u m = true).
    { unfold Ack.pending. rewrite Hu, Hs. simpl. apply orb_true_r. }
    pose proof (count_pending_upto_pos u (created_at m) db m Hin Hpend (Z.le_refl _)) as H1.
    eexists. split; [reflexivity|].
    unfold Ack.count_or.
    destruct (Ack.count_pending_upto u (created_at m) db =? 0)%nat eqn:E0.
    + apply Nat.eqb_eq in E0. lia.
    + split; [exact H1|apply count_pending_upto_le].
  - apply first_started_none in E. unfold count_status in Hpos.
    rewrite E in Hpos. simpl in Hpos. lia.
Qed.

Lemma math_round_int (s : Z) : Ack.math_round (inject_Z s) = s.
Proof.
  unfold Ack.math_round, Qfloor, Qplus, inject_Z. simpl.
  replace (s * 2 + 1)%Z with (1 + s * 2)%Z by lia.
  rewrite Z.div_add by lia. reflexivity.
Qed.

Lemma math_round_minutes (s : Z) :
  Ack.math_round (inject_Z s / inject_Z 60)%Q = ((s + 30) / 60)%Z.
Proof.
  unfold Ack.math_round, Qfloor, Qplus, Qdiv, Qmult, Qinv, inject_Z. simpl.
  replace (s * 1 * 2 + 60)%Z with ((s + 30) * 2)%Z by lia.
  change 120%Z with (60 * 2)%Z.
  apply Z.div_mul_cancel_r; lia.
Qed.

Lemma math_round_small (q : Q) : (q < 1 # 2)%Q -> (Ack.math_round q <= 0)%Z.
Proof.
  intros H. unfold Ack.math_round.
  assert (H1 : (q + (1 # 2) < inject_Z 1)%Q).
  { apply Qlt_le_trans with ((1 # 2) + (1 # 2))%Q.
    - apply Qplus_lt_le_compat; [exact H|apply Qle_refl].
    - apply Qle_lteq. right. reflexivity. }
  pose proof (Qfloor_le (q + (1 # 2))) as H2.
  assert (H3 : (inject_Z (Qfloor (q + (1 # 2))) < inject_Z 1)%Q)
    by (eapply Qle_lt_trans; eauto).
  rewrite <- Zlt_Qlt in H3. lia.
Qed.

(** X17. What the duration formatter shows.  A number of seconds is shown
    only below 60; minutes are between 1 and 59; hours are at least 1 with
    0 to 59 remaining minutes.  A whole number of seconds from 60 on is
    rounded to the nearest minute, halves upwards, so that 3570 seconds
    and more are shown as hours (3570 is shown as 1 hour).  Anything that
    is not a number, and any number below one half, is shown as 0
    seconds. *)
Theorem X17_duration_ranges :
  (forall seconds,
      match Ack.duration_of seconds with
      | Ack.Seconds s => (0 <= s < 60)%Z
      | Ack.Minutes m => (1 <= m < 60)%Z
      | Ack.Hours h m => (1 <= h)%Z /\ (0 <= m < 60)%Z
      end)
  /\ (forall s, (0 <= s < 60)%Z -> Ack.duration_of (Num (inject_Z s)) = Ack.Seconds s)
  /\ (forall s, (60 <= s < 3570)%Z ->
        Ack.duration_of (Num (inject_Z s)) = Ack.Minutes ((s + 30) / 60))
  /\ (forall s, (3570 <= s)%Z ->
        Ack.duration_of (Num (inject_Z s))
        = Ack.Hours ((s + 30) / 3600) (((s + 30) / 60) mod 60))
  /\ (forall q, (q < 1 # 2)%Q -> Ack.duration_of (Num q) = Ack.Seconds 0)
  /\ Ack.duration_of NaN = Ack.Seconds 0.
Proof.
  split.
  { intros seconds. unfold Ack.duration_of.
    set (s := Z.max 0 _).
    assert (Hs : (0 <= s)%Z) by (unfold s; lia).
    destruct (s <? 60)%Z eqn:E1.
    - apply Z.ltb_lt in E1. lia.
    - apply Z.ltb_ge in E1. rewrite math_round_minutes.
      assert (Hm : (1 <= (s + 30) / 60)%Z).
      { apply Z.div_le_lower_bound; lia. }
      destruct ((s + 30) / 60 <? 60)%Z eqn:E2.
      + apply Z.ltb_lt in E2. lia.
      + apply Z.ltb_ge in E2. split.
        * apply Z.div_le_lower_bound; lia.
        * apply Z.mod_pos_bound. lia. }
  split.
  { intros s Hs. unfold Ack.duration_of. rewrite math_round_int.
    rewrite Z.max_r by lia.
    destruct (s <? 60)%Z eqn:E; [reflexivity|]. apply Z.ltb_ge in E. lia. }
  split.
  { intros s Hs. unfold Ack.duration_of. rewrite math_round_int.
    rewrite Z.max_r by lia.
    destruct (s <? 60)%Z eqn:E; [apply Z.ltb_lt in E; lia|].
    rewrite math_round_minutes.
    assert (Hm : ((s + 30) / 60 < 60)%Z) by (apply Z.div_lt_upper_bound; lia).
    apply Z.ltb_lt in Hm. rewrite Hm. reflexivity. }
  split.
  { intros s Hs. unfold Ack.duration_of. rewrite math_round_int.
    rewrite Z.max_r by lia.
    destruct (s <? 60)%Z eqn:E; [apply Z.ltb_lt in E; lia|].
    rewrite math_round_minutes.
    assert (Hm : (60 <= (s + 30) / 60)%Z) by (apply Z.div_le_lower_bound; lia).
    apply Z.ltb_ge in Hm. rewrite Hm.
    rewrite Z.div_div by lia. reflexivity. }
  split.
  { intros q Hq. unfold Ack.duration_of.
    pose proof (math_round_small q Hq) as H.
    rewrite Z.max_l by lia. reflexivity. }
  reflexivity.
Qed.

(** * The context rows *)

Section StableSort.

Variable A : Type.
Variable leb : A -> A -> bool.
Hypothesis leb_total : forall a b, leb a b = true \/ leb b a = true.
Hypothesis leb_trans : forall a b c, leb a b = true -> leb b c = true -> leb a c = true.

Lemma insert_by_perm (x : A) (l : list A) :
  Permutation (Context.insert_by leb x l) (x :: l).
Proof.
  induction l as [|y l IH]; simpl; auto.
  destruct (leb x y); auto.
  rewrite IH. apply perm_swap.
Qed.

Lemma sort_by_perm (l : list A) : Permutation (Context.sort_by leb l) l.
Proof.
  induction l as [|x l IH]; simpl; auto.
  rewrite insert_by_perm. now constructor.
Qed.

Lemma insert_by_sorted (x : A) (l : list A) :
  StronglySorted (fun a b => leb a b = true) l ->
  StronglySorted (fun a b => leb a b = true) (Context.insert_by leb x l).
Proof.
  induction 1 as [|y l Hs IH Hall]; simpl.
  - repeat constructor.
  - destruct (leb x y) eqn:E.
    + constructor; [now constructor|].
      constructor; auto.
      eapply Forall_impl; [|exact Hall]. intros z Hz.
      eapply leb_trans; eauto.
    + constructor; auto.
      eapply Permutation_Forall; [symmetry; apply insert_by_perm|].
      constructor; auto.
      destruct (leb_total x y) as [H|H]; [congruence|exact H].
Qed.

Lemma sort_by_sorted (l : list A) :
  StronglySorted (fun a b => leb a b = true) (Context.sort_by leb l).
Proof.
  induction l as [|x l IH]; simpl; [constructor|].
  now apply insert_by_sorted.
Qed.

End StableSort.

Lemma newer_first_total (a b : AnalysisRow) :
  Context.newer_first a b = true \/ Context.newer_first b a = true.
Proof. unfold Context.newer_first. rewrite !Z.leb_le. lia. Qed.

Lemma newer_first_trans (a b c : AnalysisRow) :
  Context.newer_first a b = true -> Context.newer_first b c = true ->
  Context.newer_first a c = true.
Proof. unfold Context.newer_first. rewrite !Z.leb_le. lia. Qed.

Lemma by_tf_order_total (a b : AnalysisRow) :
  Context.by_tf_order a b = true \/ Context.by_tf_order b a = true.
Proof. unfold Context.by_tf_order. rewrite !Z.leb_le. lia. Qed.

Lemma by_tf_order_trans (a b c : AnalysisRow) :
  Context.by_tf_order a b = true -> Context.by_tf_order b c = true ->
  Context.by_tf_order a c = true.
Proof. unfold Context.by_tf_order. rewrite !Z.leb_le. lia. Qed.

Lemma recent_sorted (rows : list AnalysisRow) :
  StronglySorted ts_ge (Context.sort_by Context.newer_first rows).
Proof.
  eapply StronglySorted_ind with
    (P := fun l => StronglySorted ts_ge l)
    (l := Context.sort_by Context.newer_first rows).
  - constructor.
  - intros a l _ IH Hall. constructor; auto.
    eapply Forall_impl; [|exact Hall]. intros b Hb.
    unfold ts_ge. simpl in Hb. unfold Context.newer_first in Hb.
    apply Z.leb_le. exact Hb.
  - apply sort_by_sorted; [apply newer_first_total|apply newer_first_trans].
Qed.

Lemma ranked_sorted (rows : list AnalysisRow) :
  StronglySorted rank_le (Context.sort_by Context.by_tf_order rows).
Proof.
  eapply StronglySorted_ind with
    (P := fun l => StronglySorted rank_le l)
    (l := Context.sort_by Context.by_tf_order rows).
  - constructor.
  - intros a l _ IH Hall. constructor; auto.
    eapply Forall_impl; [|exact Hall]. intros b Hb.
    unfold rank_le, tf_rank. simpl in Hb. unfold Context.by_tf_order in Hb.
    apply Z.leb_le. exact Hb.
  - apply sort_by_sorted; [apply by_tf_order_total|apply by_tf_order_trans].
Qed.

Lemma recent_prefix_newest (rows : list AnalysisRow) (k : nat) (a b : AnalysisRow) :
  In a (firstn k (Context.sort_by Context.newer_first rows)) ->
  In b (skipn k (Context.sort_by Context.newer_first rows)) ->
  ts_ge a b.
Proof.
  generalize (recent_sorted rows).
  generalize (Context.sort_by Context.newer_first rows) as l.
  intros l Hs. revert k. induction Hs as [|x l Hs IH Hall]; intros k Ha Hb.
  - destruct k; simpl in *; contradiction.
  - destruct k; simpl in *; [contradiction|].
    destruct Ha as [<-|Ha].
    + rewrite Forall_forall in Hall. apply Hall.
      rewrite <- (firstn_skipn k l). apply in_or_app. now right.
    + eapply IH; eauto.
Qed.

(** The head of the rows sorted most recent first is the first row of the
    input that carries the largest timestamp. *)
Lemma recent_head (rows : list AnalysisRow) :
  rows <> [] ->
  exists r tl l1 l2,
    Context.sort_by Context.newer_first rows = r :: tl
    /\ rows = (l1 ++ r :: l2)%list
    /\ (forall x, In x l1 -> (a_timestamp x < a_timestamp r)%Z)
    /\ (forall x, In x l2 -> (a_timestamp x <= a_timestamp r)%Z).
Proof.
  induction rows as [|x rest IH]; [congruence|]. intros _.
  destruct rest as [|y rest'].
  - exists x, [], [], []. simpl. repeat split; auto; intros ? [].
  - destruct IH as (r & tl & l1 & l2 & Hs & Hsplit & H1 & H2); [discriminate|].
    cbn [Context.sort_by] in *. rewrite Hs. cbn [Context.insert_by].
    unfold Context.newer_first at 1.
    destruct (a_timestamp r <=? a_timestamp x)%Z eqn:E.
    + apply Z.leb_le in E.
      exists x, (r :: tl), [], (y :: rest'). repeat split; auto.
      * intros ? [].
      * intros z Hz. rewrite Hsplit in Hz.
        apply in_app_or in Hz as [Hz|[<-|Hz]].
        -- specialize (H1 z Hz). lia.
        -- exact E.
        -- specialize (H2 z Hz). lia.
    + apply Z.leb_gt in E.
      exists r, (Context.insert_by Context.newer_first x tl), (x :: l1), l2.
      repeat split; auto.
      * rewrite Hsplit. reflexivity.
      * intros z [<-|Hz]; auto.
Qed.

(** X18. The most recent timeframe.  Without rows there is none.
    Otherwise it is the normalised label of the first row of the input
    that carries the largest timestamp: every row before it is strictly
    older and no row after it is newer.  It is absent only when that row
    has the empty label. *)
Theorem X18_inferLikelyCurrentTF_newest :
  Context.inferLikelyCurrentTF [] = None
  /\ (forall rows, rows <> [] ->
        exists r l1 l2,
          rows = (l1 ++ r :: l2)%list
          /\ (forall x, In x l1 -> (a_timestamp x < a_timestamp r)%Z)
          /\ (forall x, In x l2 -> (a_timestamp x <= a_timestamp r)%Z)
          /\ Context.inferLikelyCurrentTF rows = normalizeTF (a_tf r)
          /\ (Context.inferLikelyCurrentTF rows = None <-> a_tf r = "")).
Proof.
  split; [reflexivity|].
  intros rows Hne.
  destruct (recent_head rows Hne) as (r & tl & l1 & l2 & Hs & Hsplit & H1 & H2).
  exists r, l1, l2. unfold Context.inferLikelyCurrentTF. rewrite Hs.
  repeat split; auto.
  - intros H. now apply normalizeTF_none.
  - intros ->. reflexivity.
Qed.

Lemma sort_by_nonempty {A : Type} (leb : A -> A -> bool) (l : list A) :
  l <> [] -> Context.sort_by leb l <> [].
Proof.
  intros Hne Hs. apply Hne.
  apply Permutation_nil. rewrite <- Hs. apply sort_by_perm.
Qed.

Lemma inherited_have_lower (k : string) : In k Context.inherited_keys -> has_lower k = true.
Proof.
  intros H. repeat (destruct H as [<-|H]; [reflexivity|]). destruct H.
Qed.

(** When the set of wanted timeframes is built without an exception. *)
Lemma tfSet_of_throws (likelyTf : option string) :
  Context.tfSet_of likelyTf = None
  <-> exists k, likelyTf = Some k /\ In k Context.inherited_keys.
Proof.
  unfold Context.tfSet_of. split.
  - destruct likelyTf as [k|]; [|discriminate].
    destruct (truthy k); [|discriminate].
    unfold Context.PARENT_TF_MAP.
    repeat (match goal with
            | |- context [if (k =? ?lit) then _ else _] => destruct (k =? lit)
            end; [discriminate|]).
    destruct (mem_string k Context.inherited_keys) eqn:E; [|discriminate].
    intros _. exists k. split; [reflexivity|]. now apply mem_string_in.
  - intros (k & -> & Hk).
    assert (Hv : forall x, In x Context.inherited_keys ->
                           (if truthy x
                            then match Context.PARENT_TF_MAP x with
                                 | Context.Parents parents => Some (map normalizeTF parents)
                                 | Context.Inherited => None
                                 | Context.Undefined =>
                                     Some [Some "1D"; Some "H4"; Some "H1"; Some "M15"]
                                 end
                            else Some [Some "1D"; Some "H4"; Some "H1"; Some "M15"])
                           = None).
    { intros x Hx. repeat (destruct Hx as [<-|Hx]; [reflexivity|]). destruct Hx. }
    now apply Hv.
Qed.

Lemma select_by_wanted (rows : list AnalysisRow) (likelyTf : option string) :
  Context.selectSmartContextRows rows likelyTf
  = match rows with
    | [] => Some []
    | _ =>
        match Context.tfSet_of likelyTf with
        | None => None
        | Some _ =>
            Some match filter (wanted likelyTf) rows with
                 | [] => firstn 3 (Context.sort_by Context.newer_first rows)
                 | _ => Context.sort_by Context.by_tf_order (filter (wanted likelyTf) rows)
                 end
        end
    end.
Proof.
  unfold Context.selectSmartContextRows, wanted.
  destruct rows as [|r0 rows']; [reflexivity|].
  destruct (Context.tfSet_of likelyTf) as [tfSet|]; [|reflexivity].
  cbv zeta. destruct (filter _ (r0 :: rows')); reflexivity.
Qed.

(** X19. The rows handed to the model as context.  The function throws
    exactly when there is at least one row and the likely timeframe names
    a member that [PARENT_TF_MAP] inherits from [Object.prototype] (such as
    "constructor"); this never happens for the likely timeframe that
    [inferLikelyCurrentTF] derives from rows with ASCII labels.  Otherwise
    it returns rows of the input, at least one when the input has one.
    When some row carries a timeframe of the wanted set, the result is
    exactly those rows, ordered along the timeframe hierarchy.  When none
    does, the result is the three most recent rows (all of them when there
    are fewer), most recent first, and no row left out is newer than a row
    kept.  The weekly timeframe has no parents, so for it the wanted set is
    empty and the three most recent rows are returned. *)
Theorem X19_selectSmartContextRows_selection :
  forall (rows : list AnalysisRow) (likelyTf : option string),
    let res := Context.selectSmartContextRows rows likelyTf in
    let sel := filter (wanted likelyTf) rows in
    (res = None
     <-> rows <> [] /\ exists k, likelyTf = Some k /\ In k Context.inherited_keys)
    /\ (forall out, res = Some out ->
          incl out rows
          /\ (rows <> [] -> out <> [])
          /\ (sel <> [] -> Permutation out sel /\ StronglySorted rank_le out)
          /\ (sel = [] ->
                out = firstn 3 (Context.sort_by Context.newer_first rows)
                /\ List.length out = Nat.min 3 (List.length rows)
                /\ StronglySorted ts_ge out
                /\ exists rest, Permutation (out ++ rest) rows
                                /\ forall a b, In a out -> In b rest -> ts_ge a b))
    /\ (likelyTf = Some "1W" -> res <> None /\ sel = [])
    /\ ((forall r, In r rows -> ascii_only (a_tf r) = true) ->
        Context.selectSmartContextRows rows (Context.inferLikelyCurrentTF rows) <> None).
Proof.
  intros rows likelyTf res sel.
  assert (Hthrow : res = None
                   <-> rows <> [] /\ Context.tfSet_of likelyTf = None).
  { unfold res. rewrite select_by_wanted. destruct rows as [|r0 rows'].
    - split; [discriminate|]. intros [H _]. now elim H.
    - destruct (Context.tfSet_of likelyTf) as [tfSet|].
      + split; [discriminate|]. intros [_ H]. discriminate.
      + split; auto. intros _. split; [discriminate|reflexivity]. }
  split.
  { rewrite Hthrow. now rewrite tfSet_of_throws. }
  split.
  { intros out Hout.
    assert (Hmodel : out = match rows with
                           | [] => []
                           | _ => match sel with
                                  | [] => firstn 3 (Context.sort_by Context.newer_first rows)
                                  | _ => Context.sort_by Context.by_tf_order sel
                                  end
                           end).
    { unfold res in Hout. rewrite select_by_wanted in Hout. fold sel in Hout.
      destruct rows as [|r0 rows']; [now injection Hout as <-|].
      destruct (Context.tfSet_of likelyTf) as [tfSet|]; [|discriminate].
      now injection Hout as <-. }
    clear Hout.
    assert (Hrecent : Permutation (Context.sort_by Context.newer_first rows) rows)
      by apply sort_by_perm.
    assert (Hranked : Permutation (Context.sort_by Context.by_tf_order sel) sel)
      by apply sort_by_perm.
    assert (Hfallback : sel = [] ->
                        out = firstn 3 (Context.sort_by Context.newer_first rows)).
    { intros E. rewrite Hmodel, E. destruct rows; reflexivity. }
    assert (Hmatched : sel <> [] -> out = Context.sort_by Context.by_tf_order sel).
    { intros E. rewrite Hmodel. destruct rows as [|r rows']; [now elim E|].
      destruct sel; [now elim E|reflexivity]. }
    split.
    { intros x Hx. destruct sel as [|s0 sel'] eqn:Es.
      - rewrite (Hfallback eq_refl) in Hx.
        eapply Permutation_in; [exact Hrecent|].
        rewrite <- (firstn_skipn 3 (Context.sort_by Context.newer_first rows)).
        apply in_or_app. now left.
      - rewrite Hmatched in Hx by discriminate.
        eapply Permutation_in in Hx; [|exact Hranked].
        unfold sel in Es. rewrite <- Es in Hx. now apply filter_In in Hx. }
    split.
    { intros Hne. destruct sel as [|s0 sel'] eqn:Es.
      - rewrite (Hfallback eq_refl).
        pose proof (sort_by_nonempty Context.newer_first rows Hne) as H.
        destruct (Context.sort_by Context.newer_first rows); [congruence|discriminate].
      - rewrite Hmatched by discriminate. apply sort_by_nonempty. discriminate. }
    split.
    { intros Hne. rewrite (Hmatched Hne). split; [exact Hranked|apply ranked_sorted]. }
    intros E. rewrite (Hfallback E). split; [reflexivity|]. split.
    - rewrite length_firstn. now rewrite (Permutation_length Hrecent).
    - split.
      + pose proof (recent_sorted rows) as Hs.
        rewrite <- (firstn_skipn 3 (Context.sort_by Context.newer_first rows)) in Hs.
        revert Hs. generalize (firstn 3 (Context.sort_by Context.newer_first rows)) as l1.
        induction l1 as [|a l1 IH]; intros Hs; [constructor|].
        inversion Hs as [|? ? Hs' Hall]; subst. constructor; [now apply IH|].
        apply Forall_app in Hall. tauto.
      + exists (skipn 3 (Context.sort_by Context.newer_first rows)). split.
        * now rewrite firstn_skipn.
        * intros a b. apply recent_prefix_newest. }
  split.
  { intros ->. split.
    - intros H. apply Hthrow in H as [_ H]. discriminate.
    - unfold sel, wanted.
      change (Context.tfSet_of (Some "1W")) with (Some (@nil (option string))).
      clear. induction rows as [|r rows' IH]; simpl; auto. }
  intros Hascii H.
  assert (H' : rows <> []
               /\ Context.tfSet_of (Context.inferLikelyCurrentTF rows) = None).
  { rewrite select_by_wanted in H. destruct rows as [|r0 rows'].
    - discriminate.
    - split; [discriminate|].
      destruct (Context.tfSet_of (Context.inferLikelyCurrentTF (r0 :: rows')));
        [discriminate H|reflexivity]. }
  destruct H' as [Hne H'].
  apply tfSet_of_throws in H' as (k & Hk & Hin).
  destruct (recent_head rows Hne) as (r & tl & l1 & l2 & Hs & Hsplit & _).
  unfold Context.inferLikelyCurrentTF in Hk. rewrite Hs in Hk.
  assert (Hr : In r rows) by (rewrite Hsplit; apply in_or_app; right; now left).
  destruct (normalizeTF_ascii (a_tf r) k (Hascii r Hr) Hk) as (_ & Hlow & _).
  rewrite (inherited_have_lower k Hin) in Hlow. discriminate.
Qed.

(** * The image cache *)

Lemma kv_get_delete_same (key : string) (entries : list (string * Kv.Value)) :
  Kv.kv_get key (Kv.kv_delete key entries) = None.
Proof.
  induction entries as [|[k v] rest IH]; simpl; auto.
  destruct (k =? key) eqn:E; simpl; auto. now rewrite E.
Qed.

Lemma kv_get_delete_other (key key' : string) (entries : list (string * Kv.Value)) :
  key' <> key ->
  Kv.kv_get key' (Kv.kv_delete key entries) = Kv.kv_get key' entries.
Proof.
  intros Hne. induction entries as [|[k v] rest IH]; simpl; auto.
  destruct (k =? key) eqn:E; simpl.
  - apply String.eqb_eq in E. subst k.
    destruct (key =? key') eqn:E'; auto.
    apply String.eqb_eq in E'. congruence.
  - now rewrite IH.
Qed.

Lemma kv_get_put_same (key : string) (v : Kv.Value) (entries : list (string * Kv.Value)) :
  Kv.kv_get key (Kv.kv_put key v entries) = Some v.
Proof. unfold Kv.kv_put. simpl. now rewrite String.eqb_refl. Qed.

Lemma kv_get_put_other (key key' : string) (v : Kv.Value)
      (entries : list (string * Kv.Value)) :
  key' <> key ->
  Kv.kv_get key' (Kv.kv_put key v entries) = Kv.kv_get key' entries.
Proof.
  intros Hne. unfold Kv.kv_put. simpl.
  destruct (key =? key') eqn:E.
  - apply String.eqb_eq in E. congruence.
  - now apply kv_get_delete_other.
Qed.

Lemma image_state_keys_differ (u j u' j' : string) : Kv.imageKey u j <> Kv.stateKey u' j'.
Proof. unfold Kv.imageKey, Kv.stateKey. simpl. discriminate. Qed.

Lemma colon_split (u u' j j' : string) :
  colon_free u = true -> colon_free u' = true ->
  u ++ ":" ++ j = u' ++ ":" ++ j' -> u = u' /\ j = j'.
Proof.
  revert u'. induction u as [|c u IH]; intros [|c' u'] Hu Hu' E; simpl in *.
  - injection E as ->. auto.
  - injection E as <- _. simpl in Hu'. discriminate.
  - injection E as -> _. simpl in Hu. discriminate.
  - injection E as -> E.
    apply andb_true_iff in Hu as [_ Hu]. apply andb_true_iff in Hu' as [_ Hu'].
    destruct (IH u' Hu Hu' E) as [-> ->]. auto.
Qed.

(** X20. The image cache, on a namespace that behaves as a map.  An image
    saved under a job is read back as saved, with "image/jpeg" when no
    content type was given; the save touches no other image and no
    analysis state.  After the clean-up of a job neither its image nor its
    state is found, and the entries of other keys are as before.  Without
    a namespace, or with one that fails, every write reports failure,
    every read finds nothing, and nothing changes.  Image keys and state
    keys never coincide, and two jobs share an image key only if they are
    the same job of the same user, provided the user ids contain no
    colon. *)
Theorem X20_image_cache_round_trip :
  (forall entries u j b ct att now,
      let res := Kv.saveImageToKV (Kv.Up entries) u j b ct att now in
      fst res = true
      /\ Kv.getImageFromKV (snd res) u j
         = Some (Kv.mkCached b (str_or ct "image/jpeg") now att)
      /\ (forall u' j', Kv.imageKey u' j' <> Kv.imageKey u j ->
            Kv.getImageFromKV (snd res) u' j' = Kv.getImageFromKV (Kv.Up entries) u' j')
      /\ (forall u' j',
            Kv.getAnalysisStateFromKV (snd res) u' j'
            = Kv.getAnalysisStateFromKV (Kv.Up entries) u' j'))
  /\ (forall entries u j st,
        let res := Kv.saveAnalysisStateToKV (Kv.Up entries) u j st in
        fst res = true
        /\ Kv.getAnalysisStateFromKV (snd res) u j = Some st
        /\ (forall u' j',
              Kv.getImageFromKV (snd res) u' j' = Kv.getImageFromKV (Kv.Up entries) u' j'))
  /\ (forall entries u j,
        let res := Kv.cleanupAnalysisFromKV (Kv.Up entries) u j in
        fst res = true
        /\ Kv.getImageFromKV (snd res) u j = None
        /\ Kv.getAnalysisStateFromKV (snd res) u j = None
        /\ (forall u' j', Kv.imageKey u' j' <> Kv.imageKey u j ->
              Kv.getImageFromKV (snd res) u' j' = Kv.getImageFromKV (Kv.Up entries) u' j')
        /\ (forall u' j', Kv.stateKey u' j' <> Kv.stateKey u j ->
              Kv.getAnalysisStateFromKV (snd res) u' j'
              = Kv.getAnalysisStateFromKV (Kv.Up entries) u' j'))
  /\ (forall kv u j b ct att now st, kv = Kv.NoKV \/ kv = Kv.Down ->
        Kv.saveImageToKV kv u j b ct att now = (false, kv)
        /\ Kv.saveAnalysisStateToKV kv u j st = (false, kv)
        /\ Kv.cleanupAnalysisFromKV kv u j = (false, kv)
        /\ Kv.getImageFromKV kv u j = None
        /\ Kv.getAnalysisStateFromKV kv u j = None)
  /\ (forall u j u' j', Kv.imageKey u j <> Kv.stateKey u' j')
  /\ (forall u j u' j', colon_free u = true -> colon_free u' = true ->
        Kv.imageKey u j = Kv.imageKey u' j' -> u = u' /\ j = j').
Proof.
  split.
  { intros entries u j b ct att now res. unfold res. cbn [Kv.saveImageToKV fst snd].
    split; [reflexivity|]. split.
    - unfold Kv.getImageFromKV. now rewrite kv_get_put_same.
    - split.
      + intros u' j' Hne. unfold Kv.getImageFromKV.
        now rewrite kv_get_put_other.
      + intros u' j'. unfold Kv.getAnalysisStateFromKV.
        rewrite kv_get_put_other; auto.
        intros E. symmetry in E. now apply image_state_keys_differ in E. }
  split.
  { intros entries u j st res. unfold res. cbn [Kv.saveAnalysisStateToKV fst snd].
    split; [reflexivity|]. split.
    - unfold Kv.getAnalysisStateFromKV. now rewrite kv_get_put_same.
    - intros u' j'. unfold Kv.getImageFromKV.
      rewrite kv_get_put_other; auto. apply image_state_keys_differ. }
  split.
  { intros entries u j res. unfold res. cbn [Kv.cleanupAnalysisFromKV fst snd].
    split; [reflexivity|]. split.
    { unfold Kv.getImageFromKV.
      rewrite kv_get_delete_other by apply image_state_keys_differ.
      now rewrite kv_get_delete_same. }
    split.
    { unfold Kv.getAnalysisStateFromKV. now rewrite kv_get_delete_same. }
    split.
    - intros u' j' Hne. unfold Kv.getImageFromKV.
      rewrite kv_get_delete_other by apply image_state_keys_differ.
      now rewrite kv_get_delete_other.
    - intros u' j' Hne. unfold Kv.getAnalysisStateFromKV.
      rewrite kv_get_delete_other by exact Hne.
      rewrite kv_get_delete_other; auto.
      intros E. symmetry in E. now apply image_state_keys_differ in E. }
  split.
  { intros kv u j b ct att now st [-> | ->]; repeat split; reflexivity. }
  split; [exact image_state_keys_differ|].
  intros u j u' j' Hu Hu' E. unfold Kv.imageKey in E.
  simpl in E. injection E as E. now apply colon_split.
Qed.

(** * What a background run leaves behind *)

Lemma update_by_id_rows (j : string) (f : Job -> Job) (P : Job -> Prop) (db : DB) (r : Job) :
  (forall x, P (f x)) ->
  In r (sql_update (fun x => job_id x =? j) f db) -> job_id r = j -> P r.
Proof.
  intros Hf Hin Hj. apply sql_update_in in Hin as [[_ Hc]|(r0 & _ & _ & ->)]; auto.
  rewrite Hj, String.eqb_refl in Hc. discriminate.
Qed.

Lemma update_by_id_others (j : string) (f : Job -> Job) (db : DB) (r : Job) :
  (forall x, job_id (f x) = job_id x) ->
  job_id r <> j ->
  In r (sql_update (fun x => job_id x =? j) f db) <-> In r db.
Proof.
  intros Hf Hne. split.
  - intros Hin. apply sql_update_in in Hin as [[Hin _]|(r0 & _ & Hc & ->)]; auto.
    apply String.eqb_eq in Hc. rewrite Hf in Hne. contradiction.
  - intros Hin. unfold sql_update. apply in_map_iff. exists r. split; auto.
    apply String.eqb_neq in Hne. now rewrite Hne.
Qed.

Lemma markJobDone_rows (j tf : string) (t : Z) (db : DB) (r : Job) :
  In r (markJobDone j tf t db) -> job_id r = j -> status r = done.
Proof.
  destruct (markDone_as_filter j tf t db) as (p & -> & _).
  intros Hin Hj. apply filter_In in Hin as [Hin _].
  unfold markJobDone_update in Hin.
  apply (update_by_id_rows j (done_set t tf) (fun x => status x = done) db r); auto.
Qed.

Lemma markJobDone_others (j tf : string) (t : Z) (db : DB) (r : Job) :
  job_id r <> j -> status r <> done ->
  In r (markJobDone j tf t db) <-> In r db.
Proof.
  intros Hne Hst. destruct (markDone_as_filter j tf t db) as (p & -> & Hp).
  rewrite filter_In. unfold markJobDone_update.
  rewrite update_by_id_others by auto. rewrite (Hp r Hst). tauto.
Qed.

Lemma store_and_complete_jobs (u : string) (job : Claimed) (a : AnalysisResult) (t : Z)
      (s : State) :
  jobs (fst (store_and_complete u job a t s))
  = markJobDone (c_job_id job) (detectedTF_of a) t (jobs s).
Proof. reflexivity. Qed.

Lemma fail_job_jobs (u : string) (job : Claimed) (att : option Z) (msg : string) (t : Z)
      (s : State) :
  jobs (fst (fail_job u job att msg t s)) = markJobError (c_job_id job) msg t (jobs s).
Proof. reflexivity. Qed.

Lemma retry_job_jobs (u : string) (job : Claimed) (att : Z) (msg : string) (t : Z)
      (s : State) :
  jobs (fst (retry_job u job att msg t s)) = requeueJob (c_job_id job) att msg (jobs s).
Proof. reflexivity. Qed.

(** The three endings of a run, seen from the table of jobs. *)
Lemma endings_settle (u : string) (job : Claimed) (cap : Z) (t : Z) (s : State) (r : Job) :
  job_id r = c_job_id job ->
  (forall a, In r (jobs (fst (store_and_complete u job a t s))) -> settled job cap r)
  /\ (forall att msg, In r (jobs (fst (fail_job u job att msg t s))) -> settled job cap r)
  /\ (forall msg, (c_attempt job + 1 <= cap)%Z ->
        In r (jobs (fst (retry_job u job (c_attempt job + 1) msg t s))) ->
        settled job cap r).
Proof.
  intros Hj. split; [|split].
  - intros a Hin. left. rewrite store_and_complete_jobs in Hin.
    eapply markJobDone_rows; eauto.
  - intros att msg Hin. right. left. rewrite fail_job_jobs in Hin.
    unfold markJobError in Hin.
    apply (update_by_id_rows (c_job_id job) (error_set t msg)
             (fun x => status x = error) (jobs s) r); auto.
  - intros msg Hcap Hin. right. right. rewrite retry_job_jobs in Hin.
    unfold requeueJob in Hin.
    apply (update_by_id_rows (c_job_id job) (requeue_set (c_attempt job + 1) msg)
             (fun x => status x = queued /\ attempt x = (c_attempt job + 1)%Z
                       /\ (attempt x <= cap)%Z) (jobs s) r) in Hin; auto.
Qed.

Lemma endings_frame (u : string) (job : Claimed) (t : Z) (s : State) (r : Job) :
  job_id r <> c_job_id job -> status r <> done ->
  (forall a, In r (jobs (fst (store_and_complete u job a t s))) <-> In r (jobs s))
  /\ (forall att msg, In r (jobs (fst (fail_job u job att msg t s))) <-> In r (jobs s))
  /\ (forall att msg, In r (jobs (fst (retry_job u job att msg t s))) <-> In r (jobs s)).
Proof.
  intros Hj Hst. split; [|split].
  - intros a. rewrite store_and_complete_jobs. now apply markJobDone_others.
  - intros att msg. rewrite fail_job_jobs. unfold markJobError.
    now apply update_by_id_others.
  - intros att msg. rewrite retry_job_jobs. unfold requeueJob.
    now apply update_by_id_others.
Qed.

(** X21. What a background run leaves behind, whatever the download and
    the analysis call do.  After the run of [src/worker.js] and after
    [performAnalysisInBackground] of [src/handlers.js], every row of the
    claimed job id is done, or in error, or queued again with one attempt
    more and within the cap: none is left processing.  Rows of other jobs
    that are not done are the same before and after.  In [src/handlers.js]
    a timeout of the analysis call always ends in done when the image is at
    hand. *)
Theorem X21_background_settles_claimed_job :
  forall (env : Env) (u : string) (job : Claimed) (cap : Z) (inv : Invocation) (s : State),
    let w := WorkerJs.background env u job inv s in
    let h := HandlersJs.performAnalysisInBackground u job cap inv s in
    (forall r, In r (jobs (fst w)) -> job_id r = c_job_id job ->
               settled job (maxAttempts_of env) r)
    /\ (forall r, In r (jobs (fst h)) -> job_id r = c_job_id job -> settled job cap r)
    /\ (forall r, job_id r <> c_job_id job -> status r <> done ->
          (In r (jobs (fst w)) <-> In r (jobs s))
          /\ (In r (jobs (fst h)) <-> In r (jobs s)))
    /\ (forall err r,
          analysis inv = Failure err -> is_timeout err = true ->
          getContentFromLine inv = None \/ cached_image inv = true ->
          In r (jobs (fst h)) -> job_id r = c_job_id job -> status r = done).
Proof.
  intros env u job cap inv s w h.
  split.
  { intros r Hin Hj.
    destruct (endings_settle u job (maxAttempts_of env) (now_end inv) s r Hj)
      as (Hd & He & Hq).
    unfold w, WorkerJs.background in Hin.
    destruct (getContentFromLine inv); [now apply He in Hin|].
    destruct (analysis inv) as [a|err]; [now apply Hd in Hin|].
    destruct (c_attempt job + 1 <=? maxAttempts_of env)%Z eqn:E.
    - destruct (is_timeout err || status_retryable (error_text err)); cbn [andb] in Hin.
      + apply Z.leb_le in E. now apply Hq in Hin.
      + now apply He in Hin.
    - rewrite andb_false_r in Hin. now apply He in Hin. }
  split.
  { intros r Hin Hj.
    destruct (endings_settle u job cap (now_end inv) s r Hj) as (Hd & He & Hq).
    unfold h, HandlersJs.performAnalysisInBackground in Hin.
    assert (Hrest :
      In r (jobs (fst
        match analysis inv with
        | Success a => store_and_complete u job a (now_end inv) s
        | Failure err =>
            if is_timeout err
            then store_and_complete u job
                   (if (c_attempt job + 1 <=? 2)%Z
                    then if cached_image inv
                         then match recovery inv with
                              | Success a => a
                              | Failure _ =>
                                  createFallbackAnalysis (HandlersJs.recent_context u (logs s))
                              end
                         else createFallbackAnalysis (HandlersJs.recent_context u (logs s))
                    else createFallbackAnalysis (HandlersJs.recent_context u (logs s)))
                   (now_end inv) s
            else if status_retryable (error_text err) && (c_attempt job + 1 <=? cap)%Z
                 then retry_job u job (c_attempt job + 1) (error_text err) (now_end inv) s
                 else fail_job u job (Some (c_attempt job + 1)%Z) (error_text err)
                               (now_end inv) s
        end)) -> settled job cap r).
    { intros H. destruct (analysis inv) as [a|err]; [now apply Hd in H|].
      destruct (is_timeout err); [now apply Hd in H|].
      destruct (c_attempt job + 1 <=? cap)%Z eqn:E.
      - destruct (status_retryable (error_text err)); cbn [andb] in H.
        + apply Z.leb_le in E. now apply Hq in H.
        + now apply He in H.
      - rewrite andb_false_r in H. now apply He in H. }
    destruct (getContentFromLine inv) as [e|]; [destruct (cached_image inv)|]; auto.
    now apply He in Hin. }
  split.
  { intros r Hj Hst.
    destruct (endings_frame u job (now_end inv) s r Hj Hst) as (Hd & He & Hq).
    split.
    - unfold w, WorkerJs.background.
      destruct (getContentFromLine inv); [apply He|].
      destruct (analysis inv) as [a|err]; [apply Hd|].
      destruct (_ && _); [apply Hq|apply He].
    - unfold h, HandlersJs.performAnalysisInBackground.
      destruct (getContentFromLine inv) as [e|], (cached_image inv);
        try apply He;
        (destruct (analysis inv) as [a|err]; [apply Hd|];
         destruct (is_timeout err); [apply Hd|];
         destruct (_ && _); [apply Hq|apply He]). }
  intros err r Han Hto Hsrc Hin Hj.
  destruct (handlers_timeout_completes u job cap inv s err Hsrc Han Hto) as (a & _ & E).
  fold h in E. rewrite E in Hin. eapply markJobDone_rows; eauto.
Qed.

(** * The rows of a user *)






(** * Further instances *)

Lemma X1_witness :
  exists c db', claimNextQueuedJob uA (t0 + 100) (jobs one_job) = (Some c, db').
Proof.
  apply (X1_claim_succeeds_iff_free_and_queued uA (t0 + 100)%Z (jobs one_job)).
  - intros r [<-|[]]. vm_compute. discriminate.
  - split; vm_compute; [reflexivity|apply le_n].
Defined.

Lemma X2_witness :
  count_status uA processing jobs_claimedA = 1%nat
  /\ S (count_status uA queued jobs_claimedA) = count_status uA queued (jobs one_job).
Proof.
  destruct (X2_claim_rewrites_one_row uA (t0 + 100)%Z (jobs one_job) jobs_claimedA claimedA)
    as (l1 & next & l2 & _ & _ & _ & _ & _ & Hq & Hp & _).
  - vm_compute. repeat constructor. intros [].
  - vm_compute. reflexivity.
  - split; assumption.
Defined.

Lemma X3_witness :
  exists db2,
    claimNextQueuedJob uA (t0 + 5000) (requeueJob jA 1 "HTTP 503" jobs_claimedA)
    = (Some (mkClaimed jA mA t0 1 (t0 + 5000)), db2).
Proof.
  apply (X3_requeue_keeps_place uA (t0 + 100)%Z (t0 + 5000)%Z 1%Z "HTTP 503"
           (jobs one_job) jobs_claimedA claimedA).
  - vm_compute. repeat constructor. intros [].
  - vm_compute. reflexivity.
Defined.

Lemma X4_witness :
  exists r', find_job jA (step (jobs one_job) (MarkError jA "HTTP 400" (t0 + 1000))) = Some r'.
Proof.
  apply (X4_unfinished_jobs_are_kept (jobs one_job) (MarkError jA "HTTP 400" (t0 + 1000)%Z)
           jA rowA_queued).
  - vm_compute. reflexivity.
  - discriminate.
  - intros tf t. discriminate.
Defined.

Lemma X5_witness : pruneDoneJobHistory uA 5 (run ops_done []) = run ops_done [].
Proof.
  apply (proj1 (X5_prune_is_idempotent uA 5 (run ops_done []))).
  vm_compute. repeat constructor.
Defined.

Lemma X6_witness :
  count_status uA queued
    (jobs (WorkerJs.chain env0 req0 [answered (t0 + 100) wants_H4] one_job)) = 0%nat
  /\ count_status uA processing
       (jobs (WorkerJs.chain env0 req0 [answered (t0 + 100) wants_H4] one_job)) = 0%nat.
Proof.
  apply (X6_chain_drains_queue env0 req0 uA [rowA_queued]
           [answered (t0 + 100) wants_H4] one_job).
  - repeat split; reflexivity.
  - vm_compute. repeat constructor. intros [].
  - reflexivity.
  - reflexivity.
  - repeat constructor.
  - intros x [<-|[]]. vm_compute. discriminate.
  - reflexivity.
  - constructor; [|constructor]. right. left. eexists. reflexivity.
Defined.

Lemma X7_witness :
  jobs (snd (fst (WorkerJs.handleEvent_image uA mA t0 t0 (answered (t0 + 100) wants_H4)
                    (mkState [] []))))
  = [rowA_processing]
  /\ snd (WorkerJs.handleEvent_image uA mA t0 t0 (answered (t0 + 100) wants_H4)
            (mkState [] [])) = false.
Proof.
  destruct (X7_fast_path_job_stays_processing uA mA t0 t0 (answered (t0 + 100) wants_H4)
              (mkState [] []) wants_H4) as (H1 & H2 & _).
  - reflexivity.
  - reflexivity.
  - intros [].
  - reflexivity.
  - reflexivity.
  - split; [exact H1|exact H2].
Defined.

Lemma X8_witness :
  WorkerJs.handleInternalAnalyze env_token req_wrong (answered (t0 + 100) wants_H4) one_job
  = (401%nat, one_job, false)
  /\ HandlersJs.handleInternalAnalyze env_token req_wrong (answered (t0 + 100) wants_H4)
       one_job
     = (401%nat, one_job, false).
Proof.
  destruct X8_internal_endpoint_codes as [H _].
  apply (H env_token req_wrong (answered (t0 + 100) wants_H4) one_job "s3cret").
  - reflexivity.
  - discriminate.
Defined.

Lemma X9_witness :
  logs_ok (saveAnalysis "Uabc" "H1" 1700000300000 (a_json row_H4) rows_three).
Proof.
  apply (proj1 (X9_saveAnalysis_upsert "Uabc" "H1" 1700000300000 (a_json row_H4) rows_three)).
  vm_compute. repeat constructor; simpl; intuition discriminate.
Defined.

Lemma X10_witness : Database.deleteAnalysis "Uabc" "M15" rows_three = rows_three.
Proof.
  destruct (X10_deleteAnalysis_removes_one_key "Uabc" "M15" rows_three) as (_ & _ & H & _).
  apply H. reflexivity.
Defined.

Lemma X11_witness :
  Database.lookup "Uabc" "H1" (Database.updateAnalysisTF "Uabc" "H4" "H1" rows_three)
  = Some (mkRow "Uabc" "H1" (a_timestamp row_H4) (a_json row_H4))
  /\ Database.lookup "Uabc" "H4" (Database.updateAnalysisTF "Uabc" "H4" "H1" rows_three)
     = None.
Proof.
  destruct (X11_updateAnalysisTF_moves_row "Uabc" "H4" "H1" rows_three) as (_ & H & _).
  destruct (H row_H4) as (H1 & H2 & _).
  - reflexivity.
  - discriminate.
  - split; [exact H1|exact H2].
Defined.


Lemma X13_witness :
  Database.lookup uA "M15"
    (logs (fst (store_and_complete uA claimedA wants_H4 (t0 + 9100)
                  (mkState jobs_claimedA []))))
  = Some (mkRow uA "M15" (t0 + 9100) (Analysis (build_toStore wants_H4))).
Proof.
  destruct (X13_store_and_complete_rows uA claimedA wants_H4 (t0 + 9100)%Z
              (mkState jobs_claimedA [])) as [H _].
  apply H. discriminate.
Defined.

Lemma X14_witness :
  exists q',
    Line.normalizeQuickReply (Some menu_two) = Some q'
    /\ has_cancel (Line.items q') = true.
Proof.
  destruct X14_normalizeQuickReply_limit_and_cancel as [_ H].
  destruct (H menu_two) as (q' & Hq & _ & _ & _ & Hc & _).
  exists q'. split; [exact Hq|].
  apply Hc; [reflexivity|]. right. reflexivity.
Defined.

Lemma X15_witness :
  String.length (Ack.shortMessageId mA) = Nat.min 6 (String.length mA)
  /\ exists pre, mA = pre ++ Ack.shortMessageId mA.
Proof.
  destruct X15_shortMessageId_suffix as [_ H].
  apply (H mA). discriminate.
Defined.

Lemma X16_witness :
  Ack.yourPosition (Ack.getQueueProgressForAck uA jB (Some (t0 + 50000)) (run ops_claimed []))
  = Some (Ack.totalPending
            (Ack.getQueueProgressForAck uA jB (Some (t0 + 50000)) (run ops_claimed []))).
Proof.
  destruct (X16_queue_progress_numbers uA jB (Some (t0 + 50000)%Z) (run ops_claimed []))
    as (_ & _ & _ & H & _).
  apply (H (t0 + 50000)%Z); [reflexivity|].
  intros r Hin _. vm_compute in Hin.
  destruct Hin as [<-|[<-|[]]]; simpl; unfold t0; lia.
Defined.

Lemma X17_witness :
  Ack.duration_of (Num (inject_Z 90)) = Ack.Minutes ((90 + 30) / 60)
  /\ Ack.duration_of (Num (inject_Z 3570)) = Ack.Hours ((3570 + 30) / 3600)
                                                       (((3570 + 30) / 60) mod 60).
Proof.
  destruct X17_duration_ranges as (_ & _ & Hm & Hh & _).
  split; [apply (Hm 90%Z)|apply (Hh 3570%Z)]; lia.
Defined.

Lemma X18_witness :
  exists r l1 l2,
    rows_three = (l1 ++ r :: l2)%list
    /\ (forall x, In x l1 -> (a_timestamp x < a_timestamp r)%Z)
    /\ (forall x, In x l2 -> (a_timestamp x <= a_timestamp r)%Z)
    /\ Context.inferLikelyCurrentTF rows_three = normalizeTF (a_tf r)
    /\ (Context.inferLikelyCurrentTF rows_three = None <-> a_tf r = "").
Proof.
  destruct X18_inferLikelyCurrentTF_newest as [_ H].
  apply (H rows_three). discriminate.
Defined.

Lemma X19_witness :
  Context.selectSmartContextRows rows_three (Some "constructor") = None
  /\ exists out,
       Context.selectSmartContextRows rows_three (Some "M15") = Some out
       /\ Permutation out (filter (wanted (Some "M15")) rows_three)
       /\ StronglySorted rank_le out.
Proof.
  split.
  - apply (proj1 (X19_selectSmartContextRows_selection rows_three (Some "constructor"))).
    split; [discriminate|]. exists "constructor". split; [reflexivity|].
    left. reflexivity.
  - destruct (X19_selectSmartContextRows_selection rows_three (Some "M15"))
      as (_ & H & _).
    eexists. split; [reflexivity|].
    apply (H _ eq_refl). vm_compute. discriminate.
Defined.

Lemma X20_witness :
  Kv.getImageFromKV (snd (Kv.saveImageToKV (Kv.Up []) uA jA "iVBORw0KGgo=" "" 0 t0)) uA jB
  = Kv.getImageFromKV (Kv.Up []) uA jB
  /\ Kv.saveImageToKV Kv.Down uA jA "iVBORw0KGgo=" "" 0 t0 = (false, Kv.Down)
  /\ (uA = uA /\ jA = jA).
Proof.
  destruct X20_image_cache_round_trip as (H1 & _ & _ & H4 & _ & H6).
  split; [|split].
  - destruct (H1 [] uA jA "iVBORw0KGgo=" "" 0%Z t0) as (_ & _ & H & _).
    apply H. vm_compute. discriminate.
  - destruct (H4 Kv.Down uA jA "iVBORw0KGgo=" "" 0%Z t0 "pending") as [H _];
      [right; reflexivity|exact H].
  - apply (H6 uA jA uA jA); reflexivity.
Defined.

Lemma X21_witness :
  settled claimedA (maxAttempts_of env0)
          (requeue_set 1 "Gemini API error 429: Resource exhausted"
                       (claim_set (t0 + 100) rowA_queued)).
Proof.
  destruct (X21_background_settles_claimed_job env0 uA claimedA 3
              (rate_limited (t0 + 1000)) (mkState jobs_claimedA [])) as (H & _).
  apply H.
  - vm_compute. left. reflexivity.
  - reflexivity.
Defined.

(** * The image event *)

Lemma update_fresh_tail (j : string) (c : Job -> bool) (f : Job -> Job) (db : DB) (r : Job) :
  ~ In j (map job_id db) ->
  (forall x, c x = true -> job_id x = j) ->
  c r = true ->
  sql_update c f (db ++ [r])%list = (db ++ [f r])%list.
Proof.
  intros Hfresh Hc Hr. unfold sql_update. rewrite map_app. simpl. rewrite Hr.
  f_equal. fold (sql_update c f db). apply sql_update_none.
  intros x Hx. destruct (c x) eqn:E; auto.
  exfalso. apply Hfresh. rewrite <- (Hc x E). now apply in_map.
Qed.

(** X22. The other outcomes of an image event in [src/worker.js], for an
    image whose job id is new.  When the user already has a job queued or
    in progress, the event only appends the new job as queued, acknowledges
    and triggers the internal endpoint.  When the user has nothing pending,
    the job is set to processing at once; if the download then fails, the
    user gets the system error and the job is left processing with no
    trigger; if the analysis fails or runs out of time, the job goes back
    to queued with attempt 1 and the internal endpoint is triggered.  The
    result store is untouched in all three cases. *)
Theorem X22_image_event_outcomes :
  forall (u m : string) (nowId now : Z) (inv : Invocation) (s : State),
    ~ In (makeJobId u m nowId) (map job_id (jobs s)) ->
    let j := makeJobId u m nowId in
    let res := WorkerJs.handleEvent_image u m nowId now inv s in
    ((0 < count_status u queued (jobs s) + count_status u processing (jobs s))%nat ->
       res = (WorkerJs.QueueAck,
              mkState (jobs s ++ [mkJob j u m now queued 0 None None None None])%list (logs s),
              true))
    /\ (count_status u queued (jobs s) = 0%nat ->
        count_status u processing (jobs s) = 0%nat ->
        (forall e, getContentFromLine inv = Some e ->
           res = (WorkerJs.SystemError,
                  mkState (jobs s ++ [mkJob j u m now processing 0 (Some (now_start inv))
                                            None None None])%list (logs s),
                  false))
        /\ (forall err, getContentFromLine inv = None -> analysis inv = Failure err ->
              res = (WorkerJs.QueueAck,
                     mkState (jobs s ++ [mkJob j u m now queued 1 None None None
                                               (Some "Foreground timeout -> background")])%list
                             (logs s),
                     true))).
Proof.
  intros u m nowId now inv s Hfresh j res.
  set (new := mkJob j u m now queued 0 None None None None).
  assert (Hnone : find_job j (jobs s) = None).
  { destruct (find_job j (jobs s)) eqn:E; auto.
    apply find_job_some in E as [Hin He]. exfalso. apply Hfresh.
    unfold j in He. rewrite <- He. now apply in_map. }
  assert (Hcq : count_status u queued (jobs s ++ [new])%list
                = S (count_status u queued (jobs s))).
  { rewrite count_status_app. unfold count_status at 2. simpl.
    rewrite String.eqb_refl. simpl. lia. }
  assert (Hcp : count_status u processing (jobs s ++ [new])%list
                = count_status u processing (jobs s)).
  { rewrite count_status_app. unfold count_status at 2. simpl.
    rewrite andb_false_r. simpl. lia. }
  split.
  { intros Hbusy. unfold res, WorkerJs.handleEvent_image, enqueueAnalysisJob. fold j.
    rewrite Hnone. fold new.
    unfold getUserQueueStats. cbn [processing_count queued_count].
    rewrite Hcq, Hcp.
    destruct (count_status u processing (jobs s)) as [|p]; [|reflexivity].
    destruct (count_status u queued (jobs s)) as [|q]; [simpl in Hbusy; lia|].
    reflexivity. }
  intros Hq Hp.
  assert (Hupd : forall f,
             sql_update (claim_cond j) f (jobs s ++ [new])%list = (jobs s ++ [f new])%list).
  { intros f. apply (update_fresh_tail j); auto.
    - intros x Hx. unfold claim_cond in Hx. apply andb_true_iff in Hx as [Hx _].
      now apply String.eqb_eq.
    - unfold claim_cond, new. simpl. now rewrite String.eqb_refl. }
  split.
  - intros e He. unfold res, WorkerJs.handleEvent_image, enqueueAnalysisJob. fold j.
    rewrite Hnone. fold new.
    unfold getUserQueueStats. cbn [processing_count queued_count].
    rewrite Hcq, Hcp, Hq, Hp. simpl negb. cbv iota.
    rewrite He, Hupd. reflexivity.
  - intros err He Han. unfold res, WorkerJs.handleEvent_image, enqueueAnalysisJob. fold j.
    rewrite Hnone. fold new.
    unfold getUserQueueStats. cbn [processing_count queued_count].
    rewrite Hcq, Hcp, Hq, Hp. simpl negb. cbv iota.
    rewrite He, Han, Hupd. unfold requeueJob.
    rewrite (update_fresh_tail j (fun r => job_id r =? j) _ (jobs s) _ Hfresh).
    + reflexivity.
    + intros x Hx. now apply String.eqb_eq.
    + change ((j =? j) = true). apply String.eqb_refl.
Qed.

Lemma X22_witness :
  WorkerJs.handleEvent_image uA mB (t0 + 50000) (t0 + 50000) (timed_out (t0 + 50100))
    (mkState jobs_claimedA [])
  = (WorkerJs.QueueAck,
     mkState (jobs_claimedA ++ [mkJob jB uA mB (t0 + 50000) queued 0 None None None None])%list
             [],
     true).
Proof.
  destruct (X22_image_event_outcomes uA mB (t0 + 50000)%Z (t0 + 50000)%Z
              (timed_out (t0 + 50100)) (mkState jobs_claimedA [])) as [H _].
  - vm_compute. intros [H|[]]. discriminate.
  - apply H. vm_compute. apply le_n.
Defined.

